(** * Archon MCP control plane: supervisor, protocol adapters, stdio bridge

    A shallow embedding of the parts of the repository that the
    specification's testable properties talk about:

    - [Protocol]  : python/src/server/mcp_kubernetes/protocols/adapters.py
                    (MCPMessage, ProtocolAdapter)
    - [Bridge]    : python/src/server/mcp_kubernetes/stdio/bridge.py
                    (MCPStdioBridge.send_request)
    - [Pods]      : python/src/server/mcp_kubernetes/sidecar/pod_manager.py
                    (PodManager.is_pod_ready, PodManager.get_pod_status)
    - [Sidecar]   : python/src/sidecar/mcp_kubernetes/sidecar/manager.py
                    (MCPSidecarManager)
    - [Docker]    : python/src/server/api_routes/mcp_api.py (DockerManager)

    Conventions.  Clock readings ([time.time()]) are integers counting
    milliseconds; [int(time.time())] is the truncation to seconds.  Every
    value obtained from outside the process (the clock, uuid4, the Docker
    daemon, the Kubernetes API) is an explicit argument of the function that
    reads it.  Python exceptions are values of a result type. *)

From Stdlib Require Import ZArith List Bool Lia.
From stdpp Require Import base option list strings pretty gmap.

#[local] Set Warnings "-register-all".
Local Open Scope string_scope.
Local Open Scope Z_scope.

(** ** Python values *)

Module Py.

(** The JSON-like values that travel in [params], [result] and [error]. *)
Inductive pyval : Type :=
| PNone
| PBool (b : bool)
| PInt (n : Z)
| PStr (s : string)
| PList (l : list pyval)
| PDict (d : list (string * pyval)).

(** Truth value testing ([if x:], [x or y]). *)
Definition truthy (v : pyval) : bool :=
  match v with
  | PNone => false
  | PBool b => b
  | PInt n => negb (Z.eqb n 0)
  | PStr s => negb (String.eqb s "")
  | PList l => match l with [] => false | _ => true end
  | PDict d => match d with [] => false | _ => true end
  end.

(** Whether a value can be a dict key.  A list or a dict cannot: [k in d],
    [d[k]] and [d.pop(k, None)] raise TypeError for such a [k], whatever
    [d] holds. *)
Definition hashable (v : pyval) : bool :=
  match v with
  | PList _ | PDict _ => false
  | _ => true
  end.

(** [str(v)], as an f-string formats it, of a value that can be a dict
    key. *)
Definition str_of_key (v : pyval) : option string :=
  match v with
  | PNone => Some "None"
  | PBool true => Some "True"
  | PBool false => Some "False"
  | PInt n => Some (pretty n)
  | PStr s => Some s
  | PList _ | PDict _ => None
  end.

(** [x or y] *)
Definition py_or (x y : pyval) : pyval := if truthy x then x else y.

(** Truth value of a [str | None]. *)
Definition truthy_str (o : option string) : bool :=
  match o with Some s => negb (String.eqb s "") | None => false end.

(** A dict with string keys, in insertion order. *)
Abbreviation dict V := (list (string * V)) (only parsing).
Abbreviation pydict := (list (string * pyval)) (only parsing).

Fixpoint dict_get {V} (k : string) (d : dict V) : option V :=
  match d with
  | [] => None
  | (k', v) :: d' => if String.eqb k k' then Some v else dict_get k d'
  end.

(** [k in d] *)
Definition dict_mem {V} (k : string) (d : dict V) : bool :=
  match dict_get k d with Some _ => true | None => false end.

(** [d[k] = v]: an existing key keeps its place, a new key goes last. *)
Fixpoint dict_set {V} (k : string) (v : V) (d : dict V) : dict V :=
  match d with
  | [] => [(k, v)]
  | (k', v') :: d' =>
      if String.eqb k k' then (k, v) :: d' else (k', v') :: dict_set k v d'
  end.

(** [del d[k]] for a key that is present. *)
Fixpoint dict_del {V} (k : string) (d : dict V) : dict V :=
  match d with
  | [] => []
  | (k', v') :: d' =>
      if String.eqb k k' then d' else (k', v') :: dict_del k d'
  end.

(** [d.values()] *)
Definition dict_values {V} (d : dict V) : list V := map snd d.

(** [int(t)] of a clock reading: whole seconds, rounded towards zero. *)
Definition unix_seconds (t : Z) : Z := Z.quot t 1000.

(** [l[i:]]: a negative [i] counts from the end, and both ends clamp. *)
Definition slice_from {A} (i : Z) (l : list A) : list A :=
  let n := Z.of_nat (length l) in
  let start := if i <? 0 then Z.max (n + i) 0 else Z.min i n in
  drop (Z.to_nat start) l.

End Py.

(** ** protocols/adapters.py *)

Module Protocol.
Import Py.

Inductive ProtocolType := STDIO | SSE | WEBSOCKET | HTTP.

Inductive MessageType := REQUEST | RESPONSE | NOTIFICATION | ERROR.

(** The dataclass [MCPMessage].  A dataclass does not enforce its
    annotations: [from_jsonrpc] stores under [id] and [method] whatever
    value the dict holds, so these two fields are values like [params],
    [result] and [error]. *)
Record MCPMessage := mkMCPMessage {
  id : pyval;
  type : MessageType;
  method : pyval;
  params : pyval;
  result : pyval;
  error : pyval;
  timestamp : Z;
  protocol : option ProtocolType
}.

(** [MCPMessage.to_jsonrpc] *)
Definition to_jsonrpc (self : MCPMessage) : pydict :=
  let message := [("jsonrpc", PStr "2.0"); ("id", id self)] in
  match type self with
  | REQUEST =>
      let message := dict_set "method" (method self) message in
      if truthy (params self)
      then dict_set "params" (params self) message
      else message
  | RESPONSE =>
      if truthy (error self)
      then dict_set "error" (error self) message
      else dict_set "result" (result self) message
  | NOTIFICATION =>
      let message := dict_set "method" (method self) message in
      let message :=
        if truthy (params self)
        then dict_set "params" (params self) message
        else message in
      dict_del "id" message
  | ERROR => message
  end.

(** [data.get(k)] *)
Definition get_or_none (k : string) (data : pydict) : pyval :=
  match dict_get k data with Some v => v | None => PNone end.

(** [MCPMessage.from_jsonrpc].  [uuid] is the value of [str(uuid.uuid4())]
    and [now] the value of [datetime.utcnow()] at the call. *)
Definition from_jsonrpc (uuid : string) (now : Z) (data : pydict)
  : MCPMessage :=
  let msg_id :=
    match dict_get "id" data with Some v => v | None => PStr uuid end in
  match dict_get "method" data with
  | Some m =>
      let msg_type := if dict_mem "id" data then REQUEST else NOTIFICATION in
      {| id := msg_id; type := msg_type; method := m;
         params := get_or_none "params" data;
         result := PNone; error := PNone;
         timestamp := now; protocol := Some STDIO |}
  | None =>
      {| id := msg_id; type := RESPONSE; method := PNone;
         params := PNone;
         result := get_or_none "result" data;
         error := get_or_none "error" data;
         timestamp := now; protocol := Some STDIO |}
  end.

(** Equality of messages up to the [timestamp] and [protocol] fields, and
    the same without the [id]. *)
Definition same_payload (a b : MCPMessage) : Prop :=
  type a = type b /\ method a = method b /\
  params a = params b /\ result a = result b /\ error a = error b.

Definition same_content (a b : MCPMessage) : Prop :=
  id a = id b /\ same_payload a b.

(** *** ProtocolAdapter *)

(** What awaiting a registered handler produces. *)
Inductive HandlerOutcome :=
| Returns (v : pyval)
| Raises (text : string).

Definition Handler := pyval -> HandlerOutcome.

(** State of an [asyncio.Future] created by [send_request]. *)
Inductive Future :=
| FPending
| FResult (v : pyval)
| FException (rpc_error : pyval)
| FCancelled.

Definition done (f : Future) : bool :=
  match f with FPending => false | _ => true end.

(** The fields set by [ProtocolAdapter.__init__].  Both dicts are only ever
    written under string keys ([register_handler] by its callers,
    [pending_requests] under [str(uuid.uuid4())]).  Future objects live in
    [futures] and are referred to by their index, so that the reference held
    by [pending_requests] and the one held by the waiting caller are the same
    object.  [sent] lists, oldest first, the messages that were passed to the
    abstract [send_message]; the concrete adapters report a failed send by
    returning [False], never by raising. *)
Record Adapter := mkAdapter {
  connection_id : string;
  message_handlers : gmap string Handler;
  pending_requests : gmap string nat;
  futures : list Future;
  message_queue : list MCPMessage;
  is_connected : bool;
  sent : list MCPMessage
}.

Definition set_pending (p : gmap string nat) (a : Adapter) : Adapter :=
  {| connection_id := connection_id a; message_handlers := message_handlers a;
     pending_requests := p; futures := futures a;
     message_queue := message_queue a; is_connected := is_connected a;
     sent := sent a |}.

Definition set_futures (fs : list Future) (a : Adapter) : Adapter :=
  {| connection_id := connection_id a; message_handlers := message_handlers a;
     pending_requests := pending_requests a; futures := fs;
     message_queue := message_queue a; is_connected := is_connected a;
     sent := sent a |}.

Definition set_message_queue (q : list MCPMessage) (a : Adapter) : Adapter :=
  {| connection_id := connection_id a; message_handlers := message_handlers a;
     pending_requests := pending_requests a; futures := futures a;
     message_queue := q; is_connected := is_connected a; sent := sent a |}.

(** [await self.send_message(message)] *)
Definition send_message (message : MCPMessage) (a : Adapter) : Adapter :=
  {| connection_id := connection_id a; message_handlers := message_handlers a;
     pending_requests := pending_requests a; futures := futures a;
     message_queue := message_queue a; is_connected := is_connected a;
     sent := (sent a ++ [message])%list |}.

(** [register_handler] *)
Definition register_handler (m : string) (h : Handler) (a : Adapter) : Adapter :=
  {| connection_id := connection_id a;
     message_handlers := <[m := h]> (message_handlers a);
     pending_requests := pending_requests a; futures := futures a;
     message_queue := message_queue a; is_connected := is_connected a;
     sent := sent a |}.

(** [deque(maxlen=1000).append] *)
Definition deque_append {A} (maxlen : nat) (q : list A) (x : A) : list A :=
  let q' := (q ++ [x])%list in
  if (maxlen <? length q')%nat then tail q' else q'.

(** [MCPMessage(id=..., type=RESPONSE, result=...)] and
    [MCPMessage(id=..., type=RESPONSE, error=...)]; [now] is the default
    [timestamp]. *)
Definition response_result (now : Z) (i : pyval) (r : pyval) : MCPMessage :=
  {| id := i; type := RESPONSE; method := PNone; params := PNone;
     result := r; error := PNone; timestamp := now; protocol := None |}.

Definition response_error (now : Z) (i : pyval) (e : pyval) : MCPMessage :=
  {| id := i; type := RESPONSE; method := PNone; params := PNone;
     result := PNone; error := e; timestamp := now; protocol := None |}.

Definition error_object (code : Z) (message : string) : pyval :=
  PDict [("code", PInt code); ("message", PStr message)].

(** How a call of [handle_incoming_message] ends: it returns, or the
    TypeError of a dict operation on an unhashable key leaves it. *)
Inductive Completion := Completed | RaisedTypeError.

(** [k in d], [d[k]] and [d.pop(k, None)] on a dict whose keys are strings:
    a string finds its entry, any other hashable value finds nothing. *)
Definition lookup_key {V} (d : gmap string V) (k : pyval) : option V :=
  match k with
  | PStr s => d !! s
  | _ => None
  end.

(** [method in self.message_handlers] and [self.message_handlers[method]] *)
Definition lookup_handler (a : Adapter) (m : pyval) : option Handler :=
  lookup_key (message_handlers a) m.

(** [_handle_request] *)
Definition _handle_request (now : Z) (message : MCPMessage) (a : Adapter)
  : Adapter * Completion :=
  let method := method message in
  match str_of_key method with
  | None => (a, RaisedTypeError)
  | Some method_text =>
      match lookup_handler a method with
      | Some h =>
          match h (py_or (params message) (PDict [])) with
          | Returns r =>
              (send_message (response_result now (id message) r) a, Completed)
          | Raises e =>
              (send_message
                 (response_error now (id message)
                    (error_object (-32603) ("Internal error: " +:+ e))) a,
               Completed)
          end
      | None =>
          (send_message
             (response_error now (id message)
                (error_object (-32601)
                   ("Method not found: " +:+ method_text))) a,
           Completed)
      end
  end.

(** [future.set_result], [future.set_exception] and [future.cancel] on the
    object at [r]. *)
Definition resolve (r : nat) (f : Future) (a : Adapter) : Adapter :=
  set_futures (<[r := f]> (futures a)) a.

(** [_handle_response] *)
Definition _handle_response (message : MCPMessage) (a : Adapter)
  : Adapter * Completion :=
  let request_id := id message in
  if negb (hashable request_id) then (a, RaisedTypeError)
  else
    match request_id, lookup_key (pending_requests a) request_id with
    | PStr key, Some r =>
        let a := set_pending (delete key (pending_requests a)) a in
        match futures a !! r with
        | Some FPending =>
            if truthy (error message)
            then (resolve r (FException (error message)) a, Completed)
            else (resolve r (FResult (result message)) a, Completed)
        | _ => (a, Completed)
        end
    | _, _ => (a, Completed)
    end.

(** [_handle_notification]; the handler's value is dropped and an exception
    it raises is logged only. *)
Definition _handle_notification (message : MCPMessage) (a : Adapter)
  : Adapter * Completion :=
  if negb (hashable (method message)) then (a, RaisedTypeError)
  else (a, Completed).

(** [handle_incoming_message] *)
Definition handle_incoming_message (now : Z) (message : MCPMessage)
    (a : Adapter) : Adapter * Completion :=
  let a := set_message_queue (deque_append 1000 (message_queue a) message) a in
  match type message with
  | REQUEST => _handle_request now message a
  | RESPONSE => _handle_response message a
  | NOTIFICATION => _handle_notification message a
  | ERROR => (a, Completed)
  end.

(** How a call of [send_request] ends: with the response's result, or with
    the exception "Failed to send request", TimeoutError, the exception
    "RPC Error: ..." set on the future, or the CancelledError of a future
    that somebody else cancelled. *)
Inductive CallResult :=
| Returned (v : pyval)
| RaisedSendFailed
| RaisedTimeout
| RaisedRPCError (rpc_error : pyval)
| RaisedCancelled.

(** [send_request] up to [await self.send_message(request)]: the request is
    built, its future created and entered under the request id, and the
    request handed to [send_message].  [uuid] is [str(uuid.uuid4())].  The
    second component is the future. *)
Definition send_request_begin (uuid : string) (now : Z) (m : string)
    (ps : pyval) (a : Adapter) : Adapter * nat :=
  let request_id := uuid in
  let request := {| id := PStr request_id; type := REQUEST; method := PStr m;
                    params := ps; result := PNone; error := PNone;
                    timestamp := now; protocol := None |} in
  let future := length (futures a) in
  let a := set_futures (futures a ++ [FPending])%list a in
  let a := set_pending (<[request_id := future]> (pending_requests a)) a in
  (send_message request a, future).

(** [send_request] when [send_message] has returned [success]: a failed
    send raises, and the [except Exception] clause removes the entry;
    otherwise the call goes on to [asyncio.wait_for(future, timeout)]. *)
Definition send_request_sent (request_id : string) (success : bool)
    (a : Adapter) : Adapter * option CallResult :=
  if negb success
  then (set_pending (delete request_id (pending_requests a)) a,
        Some RaisedSendFailed)
  else (a, None).

(** The timeout of [asyncio.wait_for] firing while the call waits: the timer
    callback cancels the waiting task, which cancels the future when it is
    still pending.  The coroutine itself resumes at a later turn of the
    loop. *)
Definition wait_for_timeout (future : nat) (a : Adapter) : Adapter :=
  match futures a !! future with
  | Some FPending => resolve future FCancelled a
  | _ => a
  end.

(** [send_request] resuming from [asyncio.wait_for(future, timeout)].
    [expired] tells whether the timeout has fired: then TimeoutError is
    raised and the [except TimeoutError] clause removes the entry.
    Otherwise the call ends as the future did: the result is returned; the
    exception is raised through [except Exception], which removes the entry;
    CancelledError is no [Exception] and passes both clauses.  [None]: the
    future is still pending, the call keeps waiting. *)
Definition send_request_end (request_id : string) (future : nat)
    (expired : bool) (a : Adapter) : option (Adapter * CallResult) :=
  if expired
  then Some (set_pending (delete request_id (pending_requests a)) a,
             RaisedTimeout)
  else
    match futures a !! future with
    | Some (FResult v) => Some (a, Returned v)
    | Some (FException e) =>
        Some (set_pending (delete request_id (pending_requests a)) a,
              RaisedRPCError e)
    | Some FCancelled => Some (a, RaisedCancelled)
    | Some FPending | None => None
    end.

(** The frame of a [send_request] coroutine: the id it drew, the future it
    made, whether [send_message] has returned to it, whether the timeout of
    its [wait_for] has fired, and how the call ended once it has. *)
Record Call := mkCall {
  call_id : string;
  call_future : nat;
  call_sent : bool;
  call_expired : bool;
  call_result : option CallResult
}.

Definition set_sent (c : Call) : Call :=
  {| call_id := call_id c; call_future := call_future c;
     call_sent := true; call_expired := call_expired c;
     call_result := call_result c |}.

Definition set_expired (c : Call) : Call :=
  {| call_id := call_id c; call_future := call_future c;
     call_sent := call_sent c; call_expired := true;
     call_result := call_result c |}.

Definition end_call (r : CallResult) (c : Call) : Call :=
  {| call_id := call_id c; call_future := call_future c;
     call_sent := call_sent c; call_expired := call_expired c;
     call_result := Some r |}.

(** Interleavings of coroutines on one event loop, one event per stretch
    between two suspension points: a [send_request] starts and runs up to
    its [await self.send_message]; [send_message] returns to the
    [send_request] numbered [i]; the receive loop delivers a message to
    [handle_incoming_message]; the timeout of the [wait_for] of call [i]
    fires; call [i] resumes from its [wait_for]. *)
Inductive Event :=
| EvBegin (uuid : string) (now : Z) (m : string) (ps : pyval)
| EvSent (i : nat) (success : bool)
| EvIncoming (now : Z) (message : MCPMessage)
| EvTimeout (i : nat)
| EvEnd (i : nat).

Definition System : Type := Adapter * list Call.

Definition step (s : System) (e : Event) : System :=
  let '(a, calls) := s in
  match e with
  | EvBegin uuid now m ps =>
      let '(a, f) := send_request_begin uuid now m ps a in
      (a, (calls ++ [{| call_id := uuid; call_future := f;
                        call_sent := false; call_expired := false;
                        call_result := None |}])%list)
  | EvSent i success =>
      match calls !! i with
      | Some c =>
          match call_result c, call_sent c with
          | None, false =>
              match send_request_sent (call_id c) success a with
              | (a, Some r) => (a, <[i := end_call r c]> calls)
              | (a, None) => (a, <[i := set_sent c]> calls)
              end
          | _, _ => s
          end
      | None => s
      end
  | EvIncoming now message => ((handle_incoming_message now message a).1, calls)
  | EvTimeout i =>
      match calls !! i with
      | Some c =>
          match call_result c, call_sent c, call_expired c with
          | None, true, false =>
              (wait_for_timeout (call_future c) a, <[i := set_expired c]> calls)
          | _, _, _ => s
          end
      | None => s
      end
  | EvEnd i =>
      match calls !! i with
      | Some c =>
          match call_result c, call_sent c with
          | None, true =>
              match send_request_end (call_id c) (call_future c)
                      (call_expired c) a with
              | Some (a, r) => (a, <[i := end_call r c]> calls)
              | None => s
              end
          | _, _ => s
          end
      | None => s
      end
  end.

Definition run (s : System) (es : list Event) : System := fold_left step es s.

(** The messages delivered during [es], oldest first. *)
Definition incoming (es : list Event) : list MCPMessage :=
  omap (fun e => match e with EvIncoming _ m => Some m | _ => None end) es.

(** The values of [str(uuid.uuid4())] drawn during [es], oldest first. *)
Definition uuids (es : list Event) : list string :=
  omap (fun e => match e with EvBegin u _ _ _ => Some u | _ => None end) es.

(** [ProtocolAdapter.__init__] *)
Definition init (cid : string) : Adapter :=
  {| connection_id := cid; message_handlers := ∅; pending_requests := ∅;
     futures := []; message_queue := []; is_connected := false; sent := [] |}.

(** [send_notification]: the message goes to [send_message]; no future is
    made. *)
Definition send_notification (now : Z) (m : string) (ps : pyval) (a : Adapter)
  : Adapter :=
  let notification :=
    {| id := PStr ""; type := NOTIFICATION; method := PStr m; params := ps;
       result := PNone; error := PNone; timestamp := now; protocol := None |} in
  send_message notification a.

End Protocol.

(** ** stdio/bridge.py *)

Module Bridge.
Import Py.

(** One line put on [stdout_queue] by the stdout reader, seen through
    [json.loads]: a JSON value, or text that does not parse. *)
Inductive Line :=
| Json (v : pyval)
| Garbage.

(** The entries of [connection_info] that [send_message], [receive_message]
    and [send_request] use.  A frame on [stdin_queue] is represented by the
    dict that [json.dumps] was applied to. *)
Record Connection := mkConnection {
  pod_name : string;
  status : string;
  stdin_queue : list pydict;
  stdout_queue : list Line
}.

Record MCPStdioBridge := mkBridge {
  namespace : string;
  timeout : Z;
  active_connections : gmap string Connection
}.

Definition set_connection (cid : string) (c : Connection) (b : MCPStdioBridge)
  : MCPStdioBridge :=
  {| namespace := namespace b; timeout := timeout b;
     active_connections := <[cid := c]> (active_connections b) |}.

(** [send_message]; [exec_ok] tells whether [exec_handler.send_stdin]
    returned rather than raised. *)
Definition send_message (connection_id : string) (message : pydict)
    (exec_ok : bool) (b : MCPStdioBridge) : MCPStdioBridge * bool :=
  match active_connections b !! connection_id with
  | None => (b, false)
  | Some connection_info =>
      if negb (String.eqb (status connection_info) "connected") then (b, false)
      else
        let connection_info :=
          {| pod_name := pod_name connection_info;
             status := status connection_info;
             stdin_queue := (stdin_queue connection_info ++ [message])%list;
             stdout_queue := stdout_queue connection_info |} in
        (set_connection connection_id connection_info b, exec_ok)
  end.

(** [receive_message].  The wait on [stdout_queue.get()] ends with the
    oldest queued line when there is one and with [TimeoutError] otherwise;
    a line that is not JSON, or JSON that is not an object, ends in the
    [except] clauses.  The line taken is gone from the queue in every case. *)
Definition receive_message (connection_id : string) (b : MCPStdioBridge)
  : MCPStdioBridge * option pydict :=
  match active_connections b !! connection_id with
  | None => (b, None)
  | Some connection_info =>
      if negb (String.eqb (status connection_info) "connected") then (b, None)
      else
        match stdout_queue connection_info with
        | [] => (b, None)
        | message_str :: rest =>
            let connection_info :=
              {| pod_name := pod_name connection_info;
                 status := status connection_info;
                 stdin_queue := stdin_queue connection_info;
                 stdout_queue := rest |} in
            (set_connection connection_id connection_info b,
             match message_str with
             | Json (PDict message) => Some message
             | _ => None
             end)
        end
  end.

(** The stdout reader putting one line on the queue of a live connection. *)
Definition put_stdout (connection_id : string) (line : Line)
    (b : MCPStdioBridge) : MCPStdioBridge :=
  match active_connections b !! connection_id with
  | None => b
  | Some connection_info =>
      set_connection connection_id
        {| pod_name := pod_name connection_info;
           status := status connection_info;
           stdin_queue := stdin_queue connection_info;
           stdout_queue := (stdout_queue connection_info ++ [line])%list |} b
  end.

(** [MCPStdioBridge(namespace, timeout)] *)
Definition init (ns : string) (t : Z) : MCPStdioBridge :=
  {| namespace := ns; timeout := t; active_connections := ∅ |}.

(** [create_stdio_connection] when the exec connection is made;
    [loop_time] is the loop clock that numbers the connection.  The
    connection id is returned and the connection stored under it. *)
Definition create_stdio_connection (pod : string) (loop_time : Z)
    (b : MCPStdioBridge) : MCPStdioBridge * string :=
  let connection_id := pod +:+ "-" +:+ pretty (unix_seconds loop_time) in
  (set_connection connection_id
     {| pod_name := pod; status := "connected"; stdin_queue := [];
        stdout_queue := [] |} b,
   connection_id).

(** [close_stdio_connection], past the exec handler. *)
Definition close_stdio_connection (connection_id : string)
    (b : MCPStdioBridge) : MCPStdioBridge :=
  {| namespace := namespace b; timeout := timeout b;
     active_connections := delete connection_id (active_connections b) |}.

(** The frame of a running [send_request] coroutine: its locals, and its
    return value once it has returned. *)
Record Call := mkCall {
  connection_id : string;
  request_id : string;
  start_time : Z;
  call_timeout : Z;
  returned : option (option pydict)
}.

Definition finish (r : option pydict) (c : Call) : Call :=
  {| connection_id := connection_id c; request_id := request_id c;
     start_time := start_time c; call_timeout := call_timeout c;
     returned := Some r |}.

(** [timeout or self.timeout] *)
Definition timeout_or (t : option Z) (b : MCPStdioBridge) : Z :=
  match t with
  | Some t => if Z.eqb t 0 then timeout b else t
  | None => timeout b
  end.

(** [send_request] up to the [while] loop.  [uuid] is [str(uuid.uuid4())],
    [now] the loop clock read into [start_time]. *)
Definition send_request_begin (cid : string) (uuid : string) (m : string)
    (ps : pyval) (t : option Z) (exec_ok : bool) (now : Z)
    (b : MCPStdioBridge) : MCPStdioBridge * Call :=
  let request_id := uuid in
  let request :=
    [("jsonrpc", PStr "2.0"); ("id", PStr request_id); ("method", PStr m)] in
  let request := if truthy ps then dict_set "params" ps request else request in
  let '(b, success) := send_message cid request exec_ok b in
  let call := {| connection_id := cid; request_id := request_id;
                 start_time := now; call_timeout := timeout_or t b;
                 returned := None |} in
  if negb success then (b, finish None call) else (b, call).

(** [response and response.get("id") == request_id] *)
Definition matches (request_id : string) (response : option pydict) : bool :=
  match response with
  | Some ((_ :: _) as d) =>
      match dict_get "id" d with
      | Some (PStr i) => String.eqb i request_id
      | _ => false
      end
  | _ => false
  end.

(** One evaluation of the loop condition at clock reading [now], followed
    by one pass through the loop body when the condition holds. *)
Definition send_request_iter (now : Z) (c : Call) (b : MCPStdioBridge)
  : MCPStdioBridge * Call :=
  match returned c with
  | Some _ => (b, c)
  | None =>
      if now - start_time c <? call_timeout c then
        let '(b, response) := receive_message (connection_id c) b in
        if matches (request_id c) response then (b, finish response c)
        else (b, c)
      else (b, finish None c)
  end.

(** Interleavings of coroutines on one event loop: a connection is
    created, the stdout reader puts a line, a connection is closed, a new
    [send_request] starts, or the [send_request] numbered [i] runs to its
    next suspension point. *)
Inductive Event :=
| EvConnect (pod : string) (loop_time : Z)
| EvPut (connection_id : string) (line : Line)
| EvClose (connection_id : string)
| EvBegin (connection_id uuid method : string) (ps : pyval) (t : option Z)
          (exec_ok : bool) (now : Z)
| EvIter (i : nat) (now : Z).

Definition System : Type := MCPStdioBridge * list Call.

Definition step (s : System) (e : Event) : System :=
  let '(b, calls) := s in
  match e with
  | EvConnect pod loop_time =>
      ((create_stdio_connection pod loop_time b).1, calls)
  | EvPut cid line => (put_stdout cid line b, calls)
  | EvClose cid => (close_stdio_connection cid b, calls)
  | EvBegin cid uuid m ps t exec_ok now =>
      let '(b, c) := send_request_begin cid uuid m ps t exec_ok now b in
      (b, (calls ++ [c])%list)
  | EvIter i now =>
      match calls !! i with
      | None => s
      | Some c =>
          let '(b, c) := send_request_iter now c b in
          (b, <[i := c]> calls)
      end
  end.

Definition run (s : System) (es : list Event) : System := fold_left step es s.

(** The lines the stdout reader put during [es], oldest first. *)
Definition puts (es : list Event) : list Line :=
  omap (fun e => match e with EvPut _ l => Some l | _ => None end) es.

(** The values of [str(uuid.uuid4())] drawn during [es], oldest first. *)
Definition uuids (es : list Event) : list string :=
  omap (fun e => match e with
                 | EvBegin _ u _ _ _ _ _ => Some u
                 | _ => None
                 end) es.

End Bridge.

(** ** sidecar/pod_manager.py *)

Module Pods.

(** A pod as the Kubernetes API lists it.  Only what the readers below look
    at is kept; every key they read with [.get] is optional, the name
    ([pod["metadata"]["name"]], always set by the API) is not. *)
Record Condition := mkCondition {
  cond_type : option string;
  cond_status : option string
}.

(** [state.waiting]: a dict that may carry [reason] and [message]. *)
Record Waiting := mkWaiting {
  reason : option string;
  message : option string
}.

Record ContainerStatus := mkContainerStatus {
  state_waiting : option Waiting
}.

Record Pod := mkPod {
  name : string;
  phase : option string;
  conditions : list Condition;
  containerStatuses : list ContainerStatus
}.

(** Truth value of the [waiting] dict: empty means false. *)
Definition waiting_truthy (w : Waiting) : bool :=
  match reason w, message w with
  | None, None => false
  | _, _ => true
  end.

Definition opt_str_eqb (o : option string) (s : string) : bool :=
  match o with Some x => String.eqb x s | None => false end.

(** The loop of [is_pod_ready] over the conditions. *)
Fixpoint ready_condition (cs : list Condition) : bool :=
  match cs with
  | [] => false
  | condition :: cs' =>
      if opt_str_eqb (cond_type condition) "Ready"
      then opt_str_eqb (cond_status condition) "True"
      else ready_condition cs'
  end.

(** [PodManager.is_pod_ready] *)
Definition is_pod_ready (pod : Pod) : bool :=
  if negb (opt_str_eqb (phase pod) "Running") then false
  else ready_condition (conditions pod).

(** The loop of [get_pod_status] over the container statuses of a pending
    pod. *)
Fixpoint pending_status (cs : list ContainerStatus) : string :=
  match cs with
  | [] => "Pending"
  | container_status :: cs' =>
      match state_waiting container_status with
      | Some waiting =>
          if waiting_truthy waiting
          then "Pending (" +:+ default "Unknown" (reason waiting) +:+ ")"
          else pending_status cs'
      | None => pending_status cs'
      end
  end.

(** [PodManager.get_pod_status] *)
Definition get_pod_status (pod : Pod) : string :=
  let phase := default "Unknown" (phase pod) in
  if String.eqb phase "Pending" then pending_status (containerStatuses pod)
  else if String.eqb phase "Running" then
    if is_pod_ready pod then "Running" else "Starting"
  else if String.eqb phase "Succeeded" then "Completed"
  else if String.eqb phase "Failed" then "Failed"
  else phase.

End Pods.

(** ** sidecar/config.py and sidecar/manager.py *)

Module Sidecar.
Import Py.

(** [ServerConfig] *)
Record ServerConfig := mkServerConfig {
  server_type : string;
  name : option string;
  package : option string;
  command : option string;
  args : list string;
  env : list (string * string);
  transport : string;
  image : option string;
  port : option Z;
  timeout : Z
}.

(** [ServerConfig()] *)
Definition default_server_config : ServerConfig :=
  {| server_type := "archon"; name := None; package := None; command := None;
     args := []; env := []; transport := "sse"; image := None; port := None;
     timeout := 300 |}.

Definition valid_types : list string := ["archon"; "npx"; "uv"; "python"; "docker"].
Definition valid_transports : list string := ["stdio"; "sse"; "http"; "websocket"].

Definition str_in (s : string) (l : list string) : bool :=
  existsb (String.eqb s) l.

(** [validate_port_for_transport] *)
Definition validate_port_for_transport (c : ServerConfig) : option Z :=
  let falsy := match port c with None => true | Some v => Z.eqb v 0 end in
  if str_in (transport c) ["sse"; "http"] && falsy then
    if String.eqb (server_type c) "archon" then Some 8051 else Some 8080
  else port c.

(** Building a [ServerConfig] anew from the dump of [server_config]: the
    validators, run on every field; [None] stands for the
    [ValidationError]. *)
Definition validate (c : ServerConfig) : option ServerConfig :=
  if negb (str_in (server_type c) valid_types) then None
  else if str_in (server_type c) ["npx"; "uv"] && negb (truthy_str (package c))
  then None
  else if String.eqb (server_type c) "docker" && negb (truthy_str (command c))
  then None
  else if negb (str_in (transport c) valid_transports) then None
  else Some {| server_type := server_type c; name := name c;
               package := package c; command := command c; args := args c;
               env := env c; transport := transport c; image := image c;
               port := validate_port_for_transport c; timeout := timeout c |}.

(** [SidecarConfig], without the pod resource and security settings that
    only the manifest uses. *)
Record SidecarConfig := mkSidecarConfig {
  namespace : string;
  pod_name_prefix : string;
  max_concurrent_servers : Z;
  cleanup_timeout : Z;
  health_check_interval : Z
}.

(** [SidecarConfig()] *)
Definition default_sidecar_config : SidecarConfig :=
  {| namespace := "archon"; pod_name_prefix := "mcp";
     max_concurrent_servers := 10; cleanup_timeout := 30;
     health_check_interval := 30 |}.

(** A value of [running_servers]; the key [ready] appears with the first
    refresh. *)
Record ServerInfo := mkServerInfo {
  info_server_id : string;
  info_pod_name : string;
  info_server_type : string;
  info_name : option string;
  info_transport : string;
  info_status : string;
  info_start_time : Z;
  info_config : ServerConfig;
  info_ready : option bool
}.

Record LogEntry := mkLogEntry {
  log_timestamp : Z;
  log_level : string;
  log_message : string
}.

(** The [data] of the responses built below. *)
Inductive ResponseData :=
| StartData (pod_name server_type transport : string)
| StatusData (sidecar_status : string) (start_time : option Z)
             (namespace : string) (running_servers : nat)
             (server_statuses : dict nat) (servers : list ServerInfo).

(** [MCPResponse]; its [timestamp], the clock at construction, is left out. *)
Record MCPResponse := mkMCPResponse {
  success : bool;
  message : string;
  status : option string;
  data : option ResponseData;
  server_id : option string
}.

(** The instance attributes of [MCPSidecarManager] that its operations
    read and write. *)
Record Manager := mkManager {
  config : SidecarConfig;
  mgr_status : string;
  mgr_start_time : option Z;
  logs : list LogEntry;
  running_servers : dict ServerInfo
}.

(** [MCPSidecarManager(config=c)] *)
Definition init (c : SidecarConfig) : Manager :=
  {| config := c; mgr_status := "stopped"; mgr_start_time := None;
     logs := []; running_servers := [] |}.

Definition set_running_servers (rs : dict ServerInfo) (m : Manager) : Manager :=
  {| config := config m; mgr_status := mgr_status m;
     mgr_start_time := mgr_start_time m; logs := logs m;
     running_servers := rs |}.

Definition set_status (s : string) (t : option Z) (m : Manager) : Manager :=
  {| config := config m; mgr_status := s; mgr_start_time := t;
     logs := logs m; running_servers := running_servers m |}.

(** [_add_log]; [now] is the clock it reads. *)
Definition _add_log (now : Z) (level message : string) (m : Manager) : Manager :=
  {| config := config m; mgr_status := mgr_status m;
     mgr_start_time := mgr_start_time m;
     logs := Protocol.deque_append 1000 (logs m)
               {| log_timestamp := now; log_level := level;
                  log_message := message |};
     running_servers := running_servers m |}.

(** How [_api_request] ends: with the name in the returned pod's metadata,
    with [httpx.HTTPStatusError], or with any other exception ([text] is its
    [str]). *)
Inductive ApiResult :=
| ApiOk (pod_name : string)
| ApiHTTPStatusError (status_code : Z)
| ApiException (text : string).

(** What one call of [start_server] obtains from outside: the text of the
    validation error should there be one, the clock at each place it is
    read, and the answer to the POST. *)
Record StartEnv := mkStartEnv {
  validation_error : string;
  clock_id : Z;
  clock_pod : Z;
  post_pod : ApiResult;
  clock_track : Z;
  clock_archon : Z;
  clock_log : Z
}.

Definition error_response (msg : string) : MCPResponse :=
  {| success := false; message := msg; status := Some "error"; data := None;
     server_id := None |}.

(** [x or y] on a [str | None] and a [str]. *)
Definition str_or (x : option string) (y : string) : string :=
  match x with
  | Some s => if String.eqb s "" then y else s
  | None => y
  end.

(** [s.get("server_type") == t and s.get("name") == n] *)
Definition same_type_and_name (t : string) (n : option string) (s : ServerInfo)
  : bool :=
  String.eqb (info_server_type s) t &&
  bool_decide (info_name s = n).

(** The configuration object as [create_pod_manifest] leaves it: for a
    python server over stdio with arguments of its own, the builder's
    [args.append("stdio")] extends the very list the configuration holds. *)
Definition after_manifest (c : ServerConfig) : ServerConfig :=
  if String.eqb (server_type c) "python" && String.eqb (transport c) "stdio"
  then
    match args c with
    | [] => c
    | own =>
        {| server_type := server_type c; name := name c;
           package := package c; command := command c;
           args := (own ++ ["stdio"])%list; env := env c;
           transport := transport c; image := image c; port := port c;
           timeout := timeout c |}
    end
  else c.

(** [MCPSidecarManager.start_server] *)
Definition start_server (server_config : option ServerConfig) (e : StartEnv)
    (m : Manager) : Manager * MCPResponse :=
  let server_config := default default_server_config server_config in
  match validate server_config with
  | None =>
      (m, error_response
            ("Invalid server configuration: " +:+ validation_error e))
  | Some server_config =>
      let server_id :=
        server_type server_config +:+ "-" +:+
        str_or (name server_config) "default" +:+ "-" +:+
        pretty (unix_seconds (clock_id e)) in
      if max_concurrent_servers (config m)
           <=? Z.of_nat (length (running_servers m))
      then (m, error_response
                 ("Maximum concurrent servers (" +:+
                  pretty (max_concurrent_servers (config m)) +:+ ") reached"))
      else
        let existing_servers :=
          if truthy_str (name server_config)
          then filter (fun s => same_type_and_name (server_type server_config)
                                  (name server_config) s = true)
                      (dict_values (running_servers m))
          else [] in
        match existing_servers with
        | s :: _ =>
            (m, {| success := false;
                   message := "Server " +:+ server_type server_config +:+ ":" +:+
                              str_or (name server_config) "" +:+
                              " is already running";
                   status := Some "running"; data := None;
                   server_id := Some (info_server_id s) |})
        | [] =>
            let timestamp := unix_seconds (clock_pod e) in
            let server_name :=
              str_or (name server_config) (server_type server_config) in
            let pod_name :=
              pod_name_prefix (config m) +:+ "-" +:+ server_name +:+ "-" +:+
              pretty timestamp in
            match post_pod e with
            | ApiOk pod_name =>
                let m := set_running_servers
                  (dict_set server_id
                     {| info_server_id := server_id;
                        info_pod_name := pod_name;
                        info_server_type := server_type server_config;
                        info_name := name server_config;
                        info_transport := transport server_config;
                        info_status := "starting";
                        info_start_time := clock_track e;
                        info_config := after_manifest server_config;
                        info_ready := None |}
                     (running_servers m)) m in
                let m :=
                  if String.eqb (server_type server_config) "archon"
                  then set_status "starting" (Some (clock_archon e)) m
                  else m in
                let m := _add_log (clock_log e) "INFO"
                  ("Created " +:+ server_type server_config +:+
                   " MCP pod: " +:+ pod_name) m in
                (m, {| success := true;
                       message := server_type server_config +:+ " MCP pod " +:+
                                  pod_name +:+ " created successfully";
                       status := Some "starting";
                       data := Some (StartData pod_name
                                       (server_type server_config)
                                       (transport server_config));
                       server_id := Some server_id |})
            | ApiHTTPStatusError status_code =>
                let error_msg := "Kubernetes API error: " +:+ pretty status_code in
                (_add_log (clock_log e) "ERROR" error_msg m,
                 error_response error_msg)
            | ApiException text =>
                let error_msg := "Failed to start MCP pod: " +:+ text in
                (_add_log (clock_log e) "ERROR" error_msg m,
                 error_response error_msg)
            end
        end
  end.

(** What one call of [stop_server] obtains from outside: for each pod name
    how the DELETE ends ([None]: deleted, [Some text]: an exception whose
    [str] is [text]), and the clock read by [_add_log]. *)
Record StopEnv := mkStopEnv {
  delete_pod : string -> option string;
  stop_clock_log : Z
}.

(** The loop of the stop-all branch over [list(self.running_servers.items())]:
    the manager, [stopped_count] and [errors] after each entry. *)
Fixpoint stop_each (e : StopEnv) (items : dict ServerInfo)
    (acc : Manager * nat * list string) : Manager * nat * list string :=
  match items with
  | [] => acc
  | (sid, server_info) :: items' =>
      let '(m, stopped_count, errors) := acc in
      let pod_name := info_pod_name server_info in
      stop_each e items'
        match delete_pod e pod_name with
        | None =>
            (_add_log (stop_clock_log e) "INFO"
               ("Deleted " +:+ info_server_type server_info +:+ " pod: " +:+
                pod_name) m,
             S stopped_count, errors)
        | Some text =>
            (m, stopped_count,
             (errors ++ ["Failed to stop " +:+ sid +:+ ": " +:+ text])%list)
        end
  end.

(** ['; '.join(errors)] *)
Fixpoint join (sep : string) (l : list string) : string :=
  match l with
  | [] => ""
  | [x] => x
  | x :: l' => x +:+ sep +:+ join sep l'
  end.

(** [MCPSidecarManager.stop_server] *)
Definition stop_server (server_id : option string) (e : StopEnv) (m : Manager)
  : Manager * MCPResponse :=
  if truthy_str server_id then
    let server_id := default "" server_id in
    match dict_get server_id (running_servers m) with
    | None =>
        (m, {| success := false;
               message := "Server " +:+ server_id +:+ " not found";
               status := Some "not_found"; data := None; server_id := None |})
    | Some server_info =>
        let pod_name := info_pod_name server_info in
        match delete_pod e pod_name with
        | Some text =>
            let error_msg := "Failed to stop servers: " +:+ text in
            (_add_log (stop_clock_log e) "ERROR" error_msg m,
             error_response error_msg)
        | None =>
            let m := set_running_servers
                       (dict_del server_id (running_servers m)) m in
            let m := if String.eqb (info_server_type server_info) "archon"
                     then set_status "stopped" None m else m in
            let m := _add_log (stop_clock_log e) "INFO"
                       ("Deleted " +:+ info_server_type server_info +:+
                        " pod: " +:+ pod_name) m in
            (m, {| success := true;
                   message := "Server " +:+ server_id +:+
                              " stopped successfully";
                   status := Some "stopped"; data := None;
                   server_id := Some server_id |})
        end
    end
  else
    let '(m, stopped_count, errors) :=
      stop_each e (running_servers m) (m, 0%nat, []) in
    let m := set_running_servers [] m in
    let m := set_status "stopped" None m in
    match errors with
    | _ :: _ =>
        (m, {| success := (0 <? stopped_count)%nat;
               message := "Stopped " +:+ pretty stopped_count +:+
                          " servers with " +:+ pretty (length errors) +:+
                          " errors: " +:+ join "; " errors;
               status := Some "partial"; data := None; server_id := None |})
    | [] =>
        (m, {| success := true;
               message := "All " +:+ pretty stopped_count +:+
                          " servers stopped successfully";
               status := Some "stopped"; data := None; server_id := None |})
    end.

(** [next((p for p in pods if p["metadata"]["name"] == pod_name), None)] *)
Definition find_pod (pods : list Pods.Pod) (pod_name : string)
  : option Pods.Pod :=
  List.find (fun p => String.eqb (Pods.name p) pod_name) pods.

(** The body of the loop of [_refresh_server_statuses] for one entry. *)
Definition refresh_one (pods : list Pods.Pod) (server_info : ServerInfo)
  : ServerInfo :=
  let '(st, rd) :=
    match find_pod pods (info_pod_name server_info) with
    | Some pod => (Pods.get_pod_status pod, Pods.is_pod_ready pod)
    | None => ("not_found", false)
    end in
  {| info_server_id := info_server_id server_info;
     info_pod_name := info_pod_name server_info;
     info_server_type := info_server_type server_info;
     info_name := info_name server_info;
     info_transport := info_transport server_info;
     info_status := st;
     info_start_time := info_start_time server_info;
     info_config := info_config server_info;
     info_ready := Some rd |}.

(** [_refresh_server_statuses]; [pods] is what [_get_pods] returned, the
    empty list when the listing failed. *)
Definition _refresh_server_statuses (pods : list Pods.Pod) (m : Manager)
  : Manager :=
  set_running_servers
    (map (fun kv => (fst kv, refresh_one pods (snd kv))) (running_servers m)) m.

(** The count of servers by status made by [get_status]. *)
Fixpoint count_statuses (servers : list ServerInfo) (status_counts : dict nat)
  : dict nat :=
  match servers with
  | [] => status_counts
  | server :: servers' =>
      let status := info_status server in
      count_statuses servers'
        (dict_set status (default 0%nat (dict_get status status_counts) + 1)%nat
                  status_counts)
  end.

(** [MCPSidecarManager.get_status] *)
Definition get_status (pods : list Pods.Pod) (m : Manager)
  : Manager * MCPResponse :=
  let m := _refresh_server_statuses pods m in
  let servers := dict_values (running_servers m) in
  (m, {| success := true;
         message := "Sidecar status: " +:+ mgr_status m;
         status := Some (mgr_status m);
         data := Some (StatusData (mgr_status m) (mgr_start_time m)
                         (namespace (config m)) (length (running_servers m))
                         (count_statuses servers []) servers);
         server_id := None |}).

(** The calls a client can make, each with what it obtains from outside. *)
Inductive Op :=
| OpStart (server_config : option ServerConfig) (e : StartEnv)
| OpStop (server_id : option string) (e : StopEnv)
| OpStatus (pods : list Pods.Pod).

Definition step (m : Manager) (o : Op) : Manager * MCPResponse :=
  match o with
  | OpStart c e => start_server c e m
  | OpStop i e => stop_server i e m
  | OpStatus pods => get_status pods m
  end.

(** The manager after a sequence of calls, with their responses. *)
Fixpoint run (m : Manager) (os : list Op) : Manager * list MCPResponse :=
  match os with
  | [] => (m, [])
  | o :: os' =>
      let '(m1, r) := step m o in
      let '(m2, rs) := run m1 os' in
      (m2, r :: rs)
  end.

(** *** Calls in flight

    The routes of sidecar/main.py run as coroutines on one event loop and
    share one manager, which holds no lock: a call gives way to the others
    at each [await self._api_request(...)], and only there. *)

(** The locals of a [start_server] that waits for the answer to its POST. *)
Record StartFrame := mkStartFrame {
  frame_config : ServerConfig;
  frame_server_id : string
}.

(** [start_server] up to [await self._api_request("POST", path, manifest)]:
    the answer of a call that returns before, or the frame of a call that
    waits.  The manager is not written to. *)
Definition start_server_begin (server_config : option ServerConfig)
    (e : StartEnv) (m : Manager) : MCPResponse + StartFrame :=
  let server_config := default default_server_config server_config in
  match validate server_config with
  | None =>
      inl (error_response
             ("Invalid server configuration: " +:+ validation_error e))
  | Some server_config =>
      let server_id :=
        server_type server_config +:+ "-" +:+
        str_or (name server_config) "default" +:+ "-" +:+
        pretty (unix_seconds (clock_id e)) in
      if max_concurrent_servers (config m)
           <=? Z.of_nat (length (running_servers m))
      then inl (error_response
                  ("Maximum concurrent servers (" +:+
                   pretty (max_concurrent_servers (config m)) +:+ ") reached"))
      else
        let existing_servers :=
          if truthy_str (name server_config)
          then filter (fun s => same_type_and_name (server_type server_config)
                                  (name server_config) s = true)
                      (dict_values (running_servers m))
          else [] in
        match existing_servers with
        | s :: _ =>
            inl {| success := false;
                   message := "Server " +:+ server_type server_config +:+ ":" +:+
                              str_or (name server_config) "" +:+
                              " is already running";
                   status := Some "running"; data := None;
                   server_id := Some (info_server_id s) |}
        | [] =>
            inr {| frame_config := server_config;
                   frame_server_id := server_id |}
        end
  end.

(** [start_server] from the answer to the POST on. *)
Definition start_server_end (fr : StartFrame) (e : StartEnv) (m : Manager)
  : Manager * MCPResponse :=
  let server_config := frame_config fr in
  let server_id := frame_server_id fr in
  match post_pod e with
  | ApiOk pod_name =>
      let m := set_running_servers
        (dict_set server_id
           {| info_server_id := server_id;
              info_pod_name := pod_name;
              info_server_type := server_type server_config;
              info_name := name server_config;
              info_transport := transport server_config;
              info_status := "starting";
              info_start_time := clock_track e;
              info_config := after_manifest server_config;
              info_ready := None |}
           (running_servers m)) m in
      let m :=
        if String.eqb (server_type server_config) "archon"
        then set_status "starting" (Some (clock_archon e)) m
        else m in
      let m := _add_log (clock_log e) "INFO"
        ("Created " +:+ server_type server_config +:+
         " MCP pod: " +:+ pod_name) m in
      (m, {| success := true;
             message := server_type server_config +:+ " MCP pod " +:+
                        pod_name +:+ " created successfully";
             status := Some "starting";
             data := Some (StartData pod_name
                             (server_type server_config)
                             (transport server_config));
             server_id := Some server_id |})
  | ApiHTTPStatusError status_code =>
      let error_msg := "Kubernetes API error: " +:+ pretty status_code in
      (_add_log (clock_log e) "ERROR" error_msg m, error_response error_msg)
  | ApiException text =>
      let error_msg := "Failed to start MCP pod: " +:+ text in
      (_add_log (clock_log e) "ERROR" error_msg m, error_response error_msg)
  end.

(** The locals of a [stop_server] that waits for the answer to a DELETE:
    of the branch that stops one server, or of the loop of the branch that
    stops all, with the entry whose pod is being deleted and the entries of
    the snapshot still to come. *)
Inductive StopFrame :=
| StopOne (server_id : string) (server_info : ServerInfo)
| StopAll (sid : string) (server_info : ServerInfo) (rest : dict ServerInfo)
          (stopped_count : nat) (errors : list string).

(** The stop-all branch past its loop. *)
Definition stop_all_finish (stopped_count : nat) (errors : list string)
    (m : Manager) : Manager * MCPResponse :=
  let m := set_running_servers [] m in
  let m := set_status "stopped" None m in
  match errors with
  | _ :: _ =>
      (m, {| success := (0 <? stopped_count)%nat;
             message := "Stopped " +:+ pretty stopped_count +:+
                        " servers with " +:+ pretty (length errors) +:+
                        " errors: " +:+ join "; " errors;
             status := Some "partial"; data := None; server_id := None |})
  | [] =>
      (m, {| success := true;
             message := "All " +:+ pretty stopped_count +:+
                        " servers stopped successfully";
             status := Some "stopped"; data := None; server_id := None |})
  end.

(** [stop_server] up to its first [await self._api_request("DELETE", path)];
    with nothing tracked, the stop-all branch has no pod to delete and ends
    at once. *)
Definition stop_server_begin (server_id : option string) (m : Manager)
  : Manager * (MCPResponse + StopFrame) :=
  if truthy_str server_id then
    let server_id := default "" server_id in
    match dict_get server_id (running_servers m) with
    | None =>
        (m, inl {| success := false;
                   message := "Server " +:+ server_id +:+ " not found";
                   status := Some "not_found"; data := None;
                   server_id := None |})
    | Some server_info => (m, inr (StopOne server_id server_info))
    end
  else
    match running_servers m with
    | [] => let '(m, r) := stop_all_finish 0 [] m in (m, inl r)
    | (sid, server_info) :: rest => (m, inr (StopAll sid server_info rest 0 []))
    end.

(** [stop_server] from the answer to a DELETE up to the next one, or to its
    end.  [key_error] is the text of the KeyError that [del] raises when the
    entry is gone by then, the [repr] of the server id. *)
Definition stop_server_end (fr : StopFrame) (e : StopEnv) (key_error : string)
    (m : Manager) : Manager * (MCPResponse + StopFrame) :=
  match fr with
  | StopOne server_id server_info =>
      let pod_name := info_pod_name server_info in
      match delete_pod e pod_name with
      | Some text =>
          let error_msg := "Failed to stop servers: " +:+ text in
          (_add_log (stop_clock_log e) "ERROR" error_msg m,
           inl (error_response error_msg))
      | None =>
          if dict_mem server_id (running_servers m) then
            let m := set_running_servers
                       (dict_del server_id (running_servers m)) m in
            let m := if String.eqb (info_server_type server_info) "archon"
                     then set_status "stopped" None m else m in
            let m := _add_log (stop_clock_log e) "INFO"
                       ("Deleted " +:+ info_server_type server_info +:+
                        " pod: " +:+ pod_name) m in
            (m, inl {| success := true;
                       message := "Server " +:+ server_id +:+
                                  " stopped successfully";
                       status := Some "stopped"; data := None;
                       server_id := Some server_id |})
          else
            let error_msg := "Failed to stop servers: " +:+ key_error in
            (_add_log (stop_clock_log e) "ERROR" error_msg m,
             inl (error_response error_msg))
      end
  | StopAll sid server_info rest stopped_count errors =>
      let pod_name := info_pod_name server_info in
      let '(m, stopped_count, errors) :=
        match delete_pod e pod_name with
        | None =>
            (_add_log (stop_clock_log e) "INFO"
               ("Deleted " +:+ info_server_type server_info +:+ " pod: " +:+
                pod_name) m,
             S stopped_count, errors)
        | Some text =>
            (m, stopped_count,
             (errors ++ ["Failed to stop " +:+ sid +:+ ": " +:+ text])%list)
        end in
      match rest with
      | [] => let '(m, r) := stop_all_finish stopped_count errors m in (m, inl r)
      | (sid', server_info') :: rest' =>
          (m, inr (StopAll sid' server_info' rest' stopped_count errors))
      end
  end.

(** A call: waiting for the Kubernetes API, or answered. *)
Inductive Task :=
| StartWaiting (fr : StartFrame) (e : StartEnv)
| StopWaiting (fr : StopFrame) (e : StopEnv)
| Answered (r : MCPResponse).

(** What happens on the event loop: a call of [start_server] or
    [stop_server] begins and runs to its first [await] or to its end; a
    [get_status] resumes with the pods listed and runs to its end; the
    request that the call numbered [i] waits for is answered, and the call
    runs to its next [await] or to its end. *)
Inductive Event :=
| EvStart (server_config : option ServerConfig) (e : StartEnv)
| EvStop (server_id : option string) (e : StopEnv)
| EvStatus (pods : list Pods.Pod)
| EvAnswer (i : nat) (key_error : string).

Definition World : Type := Manager * list Task.

Definition advance (w : World) (ev : Event) : World :=
  let '(m, tasks) := w in
  match ev with
  | EvStart server_config e =>
      match start_server_begin server_config e m with
      | inl r => (m, (tasks ++ [Answered r])%list)
      | inr fr => (m, (tasks ++ [StartWaiting fr e])%list)
      end
  | EvStop server_id e =>
      match stop_server_begin server_id m with
      | (m, inl r) => (m, (tasks ++ [Answered r])%list)
      | (m, inr fr) => (m, (tasks ++ [StopWaiting fr e])%list)
      end
  | EvStatus pods =>
      let '(m, r) := get_status pods m in (m, (tasks ++ [Answered r])%list)
  | EvAnswer i key_error =>
      match tasks !! i with
      | Some (StartWaiting fr e) =>
          let '(m, r) := start_server_end fr e m in
          (m, <[i := Answered r]> tasks)
      | Some (StopWaiting fr e) =>
          match stop_server_end fr e key_error m with
          | (m, inl r) => (m, <[i := Answered r]> tasks)
          | (m, inr fr) => (m, <[i := StopWaiting fr e]> tasks)
          end
      | _ => w
      end
  end.

Definition interleave (w : World) (evs : list Event) : World :=
  fold_left advance evs w.

Definition is_start_waiting (t : Task) : bool :=
  match t with StartWaiting _ _ => true | _ => false end.

(** The number of [start_server] calls that wait for their POST. *)
Definition waiting_starts (tasks : list Task) : nat :=
  length (List.filter is_start_waiting tasks).

(** During [evs], from [w] on, start calls do not overlap: never do two of
    them wait for their POST at the same time. *)
Fixpoint serial (w : World) (evs : list Event) : bool :=
  match evs with
  | [] => true
  | ev :: evs' =>
      (waiting_starts (advance w ev).2 <=? 1)%nat && serial (advance w ev) evs'
  end.

(** [MCPSidecarManager.get_logs]: [list(self.logs)[-limit:]] *)
Definition get_logs (limit : Z) (m : Manager) : list LogEntry :=
  slice_from (- limit) (logs m).

(** The response of [list_external_servers]: an [MCPResponse] whose [data]
    holds [servers] and [total_count]. *)
Record ListResponse := mkListResponse {
  list_success : bool;
  list_status : string;
  list_message : string;
  list_servers : list ServerInfo;
  list_total_count : nat
}.

(** [MCPSidecarManager.list_external_servers] *)
Definition list_external_servers (pods : list Pods.Pod) (m : Manager)
  : Manager * ListResponse :=
  let m := _refresh_server_statuses pods m in
  let external_servers :=
    List.filter (fun server => negb (String.eqb (info_server_type server) "archon"))
                (dict_values (running_servers m)) in
  (m, {| list_success := true; list_status := "ok";
         list_message := "Found " +:+ pretty (length external_servers) +:+
                         " external servers";
         list_servers := external_servers;
         list_total_count := length external_servers |}).

(** The response of [health_check]: an [MCPResponse] whose [data] holds
    [kubernetes_api], [total_servers] and [healthy_servers] beside the
    namespace and the presence of the credentials. *)
Record HealthResponse := mkHealthResponse {
  health_success : bool;
  health_status : string;
  health_message : string;
  kubernetes_api : bool;
  total_servers : nat;
  healthy_servers : nat
}.

(** [server.get("ready", False)] *)
Definition is_ready (server : ServerInfo) : bool :=
  match info_ready server with Some b => b | None => false end.

(** [MCPSidecarManager.health_check]; [k8s_healthy] tells whether the GET
    of the namespace returned, [pods] is what [_get_pods] returned. *)
Definition health_check (k8s_healthy : bool) (pods : list Pods.Pod)
    (m : Manager) : Manager * HealthResponse :=
  let total_servers := length (running_servers m) in
  let m := if (0 <? total_servers)%nat
           then _refresh_server_statuses pods m else m in
  let healthy_servers :=
    if (0 <? total_servers)%nat
    then length (List.filter is_ready (dict_values (running_servers m)))
    else 0%nat in
  let overall_healthy :=
    k8s_healthy && ((total_servers =? 0)%nat || (0 <? healthy_servers)%nat) in
  (m, {| health_success := overall_healthy;
         health_status := if overall_healthy then "healthy" else "unhealthy";
         health_message := "Sidecar health check: " +:+
                           (if overall_healthy then "passed" else "failed");
         kubernetes_api := k8s_healthy;
         total_servers := total_servers;
         healthy_servers := healthy_servers |}).

End Sidecar.

(** ** api_routes/mcp_api.py: DockerManager *)

Module Docker.
Import Py.

(** The exceptions that cross the methods below.  [NotFound] is a subclass
    of [APIError] in [docker.errors]. *)
Inductive exn :=
| AttributeError (text : string)
| APIError (text : string)
| NotFound (text : string)
| OtherError (text : string).

Definition is_APIError (e : exn) : bool :=
  match e with APIError _ | NotFound _ => true | _ => false end.

Definition is_NotFound (e : exn) : bool :=
  match e with NotFound _ => true | _ => false end.

(** [str(e)] *)
Definition exn_text (e : exn) : string :=
  match e with
  | AttributeError t | APIError t | NotFound t | OtherError t => t
  end.

(** What the name [datetime] can be bound to, and the attributes each
    object has.  The module imports it with
    [from datetime import datetime]: the name is the class. *)
Inductive PyObject := DatetimeModule | DatetimeClass.

Definition global_datetime : PyObject := DatetimeClass.

Definition attributes (o : PyObject) : list string :=
  match o with
  | DatetimeModule =>
      ["MINYEAR"; "MAXYEAR"; "UTC"; "date"; "datetime"; "time"; "timedelta";
       "timezone"; "tzinfo"]
  | DatetimeClass =>
      ["astimezone"; "combine"; "ctime"; "date"; "day"; "dst"; "fold";
       "fromisocalendar"; "fromisoformat"; "fromordinal"; "fromtimestamp";
       "hour"; "isocalendar"; "isoformat"; "isoweekday"; "max"; "microsecond";
       "min"; "minute"; "month"; "now"; "replace"; "resolution"; "second";
       "strftime"; "strptime"; "time"; "timestamp"; "timetuple"; "timetz";
       "today"; "toordinal"; "tzinfo"; "tzname"; "utcfromtimestamp";
       "utcnow"; "utcoffset"; "utctimetuple"; "weekday"; "year"]
  end.

Definition has_attribute (o : PyObject) (a : string) : bool :=
  existsb (String.eqb a) (attributes o).

Record LogEntry := mkLogEntry {
  log_timestamp : Z;
  log_level : string;
  log_message : string
}.

(** The instance attributes of [DockerManager].  [docker_client] tells
    whether the client is set; [container] is the container object, seen as
    the status it last loaded from the daemon; [log_reader_task] tells whether
    a task is set. *)
Record Manager := mkManager {
  container_name : option string;
  docker_client : bool;
  container : option string;
  status : string;
  start_time : option Z;
  logs : list LogEntry;
  log_reader_task : bool;
  _last_operation_time : Z;
  _min_operation_interval : Z;
  _docker_initialized : bool
}.

(** [DockerManager()] *)
Definition init : Manager :=
  {| container_name := None; docker_client := false; container := None;
     status := "stopped"; start_time := None; logs := [];
     log_reader_task := false; _last_operation_time := 0;
     _min_operation_interval := 2000; _docker_initialized := false |}.

(** A statement either completes with a value or raises. *)
Inductive Result (A : Type) :=
| Ok (a : A)
| Raise (e : exn).
Arguments Ok {A} a.
Arguments Raise {A} e.

(** Methods: the manager goes in, the manager and the outcome come out. *)
Definition M (A : Type) : Type := Manager -> Manager * Result A.

Definition ret {A} (a : A) : M A := fun m => (m, Ok a).
Definition raise {A} (e : exn) : M A := fun m => (m, Raise e).
Definition bind {A B} (c : M A) (k : A -> M B) : M B :=
  fun m => match c m with
           | (m', Ok a) => k a m'
           | (m', Raise e) => (m', Raise e)
           end.
Definition get : M Manager := fun m => (m, Ok m).
Definition modify (f : Manager -> Manager) : M unit := fun m => (f m, Ok tt).

(** The first [except] clause whose class test accepts [e]. *)
Fixpoint find_clause {A} (clauses : list ((exn -> bool) * (exn -> M A)))
    (e : exn) : option (exn -> M A) :=
  match clauses with
  | [] => None
  | (catches, handler) :: clauses' =>
      if catches e then Some handler else find_clause clauses' e
  end.

(** [try: c] followed by [except] clauses: an exception of [c] goes to the
    first clause that accepts it; what a handler raises is not caught. *)
Definition try_except {A} (c : M A)
    (clauses : list ((exn -> bool) * (exn -> M A))) : M A :=
  fun m => match c m with
           | (m', Raise e) =>
               match find_clause clauses e with
               | Some handler => handler e m'
               | None => (m', Raise e)
               end
           | r => r
           end.

Definition any_Exception (e : exn) : bool := true.

Notation "'let!' x ':=' c 'in' k" := (bind c (fun x => k))
  (at level 10, x name, c at level 100, k at level 200).
Notation "'do!' c 'in' k" := (bind c (fun _ => k))
  (at level 10, c at level 100, k at level 200).

Definition set_status (s : string) (m : Manager) : Manager :=
  {| container_name := container_name m; docker_client := docker_client m;
     container := container m; status := s; start_time := start_time m;
     logs := logs m; log_reader_task := log_reader_task m;
     _last_operation_time := _last_operation_time m;
     _min_operation_interval := _min_operation_interval m;
     _docker_initialized := _docker_initialized m |}.

Definition set_start_time (t : option Z) (m : Manager) : Manager :=
  {| container_name := container_name m; docker_client := docker_client m;
     container := container m; status := status m; start_time := t;
     logs := logs m; log_reader_task := log_reader_task m;
     _last_operation_time := _last_operation_time m;
     _min_operation_interval := _min_operation_interval m;
     _docker_initialized := _docker_initialized m |}.

Definition set_last_operation_time (t : Z) (m : Manager) : Manager :=
  {| container_name := container_name m; docker_client := docker_client m;
     container := container m; status := status m; start_time := start_time m;
     logs := logs m; log_reader_task := log_reader_task m;
     _last_operation_time := t;
     _min_operation_interval := _min_operation_interval m;
     _docker_initialized := _docker_initialized m |}.

Definition set_container (c : option string) (m : Manager) : Manager :=
  {| container_name := container_name m; docker_client := docker_client m;
     container := c; status := status m; start_time := start_time m;
     logs := logs m; log_reader_task := log_reader_task m;
     _last_operation_time := _last_operation_time m;
     _min_operation_interval := _min_operation_interval m;
     _docker_initialized := _docker_initialized m |}.

Definition set_container_name (n : string) (m : Manager) : Manager :=
  {| container_name := Some n; docker_client := docker_client m;
     container := container m; status := status m; start_time := start_time m;
     logs := logs m; log_reader_task := log_reader_task m;
     _last_operation_time := _last_operation_time m;
     _min_operation_interval := _min_operation_interval m;
     _docker_initialized := _docker_initialized m |}.

Definition set_client (c initialized : bool) (m : Manager) : Manager :=
  {| container_name := container_name m; docker_client := c;
     container := container m; status := status m; start_time := start_time m;
     logs := logs m; log_reader_task := log_reader_task m;
     _last_operation_time := _last_operation_time m;
     _min_operation_interval := _min_operation_interval m;
     _docker_initialized := initialized |}.

Definition set_log_reader_task (t : bool) (m : Manager) : Manager :=
  {| container_name := container_name m; docker_client := docker_client m;
     container := container m; status := status m; start_time := start_time m;
     logs := logs m; log_reader_task := t;
     _last_operation_time := _last_operation_time m;
     _min_operation_interval := _min_operation_interval m;
     _docker_initialized := _docker_initialized m |}.

Definition append_log (l : LogEntry) (m : Manager) : Manager :=
  {| container_name := container_name m; docker_client := docker_client m;
     container := container m; status := status m; start_time := start_time m;
     logs := Protocol.deque_append 1000 (logs m) l;
     log_reader_task := log_reader_task m;
     _last_operation_time := _last_operation_time m;
     _min_operation_interval := _min_operation_interval m;
     _docker_initialized := _docker_initialized m |}.

(** [getattr(o, a)]: nothing when present, [AttributeError] when not. *)
Definition getattr (o : PyObject) (a : string) : M unit :=
  if has_attribute o a then ret tt
  else raise (AttributeError
                ("type object 'datetime.datetime' has no attribute '"
                 +:+ a +:+ "'")).

(** [DockerManager._add_log].  The dict display evaluates
    [datetime.now(datetime.timezone.utc)] first: the attribute [now] of the
    name [datetime], then, for the argument, its attribute [timezone].
    [now] is what the clock would give. *)
Definition _add_log (now : Z) (level message : string) : M unit :=
  do! getattr global_datetime "now" in
  do! getattr global_datetime "timezone" in
  modify (append_log {| log_timestamp := now; log_level := level;
                        log_message := message |}).

(** How [docker_client.containers.get("archon-mcp")] ends: with a
    container in the given status, or with an exception. *)
Inductive GetOutcome :=
| GetFound (container_status : string)
| GetRaises (e : exn).

(** How [container.reload()] ends: the status it loaded, or an exception. *)
Inductive ReloadOutcome :=
| Reloaded (container_status : string)
| ReloadRaises (e : exn).

(** What one call of [start_server] or [stop_server] obtains from outside,
    in the order in which it is asked for. *)
Record Env := mkEnv {
  current_time : Z;                (* time.time() of the throttle check *)
  deployment_mode : string;        (* DEPLOYMENT_MODE, lower-cased *)
  from_env_ok : bool;              (* docker.from_env() returns *)
  get_at_init : GetOutcome;        (* in _initialize_docker_client *)
  reload_at_status : ReloadOutcome;(* in _get_container_status *)
  get_at_status : GetOutcome;      (* in _get_container_status *)
  action_raises : option exn;      (* container.start() / container.stop() *)
  time_started : Z;                (* time.time() stored in start_time *)
  time_operation : Z;              (* time.time() stored in _last_operation_time *)
  time_log : Z;                    (* the clock as _add_log would read it *)
  reload_after_start : ReloadOutcome;
  container_id : string;
  span_suppresses : bool           (* safe_span's exit swallows exceptions *)
}.

(** [_resolve_container] *)
Definition _resolve_container (g : GetOutcome) : M (option string) :=
  let! m := get in
  if negb (docker_client m) then ret None
  else
    match g with
    | GetFound s =>
        do! modify (set_container_name "archon-mcp") in ret (Some s)
    | GetRaises e =>
        if is_NotFound e
        then do! modify (set_container_name "archon-mcp") in ret None
        else raise e
    end.

(** [_initialize_docker_client] *)
Definition _initialize_docker_client (e : Env) : M bool :=
  let! m := get in
  if _docker_initialized m then ret (docker_client m)
  else if String.eqb (deployment_mode e) "kubernetes" then
    do! modify (set_client (docker_client m) true) in ret false
  else
    try_except
      (do! (if from_env_ok e then modify (set_client true false)
            else raise (OtherError "docker.from_env")) in
       let! c := _resolve_container (get_at_init e) in
       do! modify (set_container c) in
       do! modify (fun m => set_client (docker_client m) true m) in
       ret true)
      [(any_Exception,
        fun _ => do! modify (set_client false true) in ret false)].

(** [_get_container_status] *)
Definition _get_container_status (e : Env) : M string :=
  let! ok := _initialize_docker_client e in
  if negb ok then ret "docker_unavailable"
  else
    let! m := get in
    if negb (docker_client m) then ret "docker_unavailable"
    else
      try_except
        (match container m with
         | Some _ =>
             match reload_at_status e with
             | Reloaded s => do! modify (set_container (Some s)) in ret s
             | ReloadRaises x => raise x
             end
         | None =>
             let! c := _resolve_container (get_at_status e) in
             do! modify (set_container c) in
             match c with
             | None => ret "not_found"
             | Some s => ret s
             end
         end)
        [(is_NotFound,
          fun _ =>
            let! c := _resolve_container (get_at_status e) in
            do! modify (set_container c) in
            match c with
            | Some s => ret s
            | None => ret "not_found"
            end);
         (any_Exception, fun _ => ret "error")].

(** The text of a response: a literal, or the throttle message
    "Please wait {wait_time:.1f}s before {action} server again", kept with
    the number it prints. *)
Inductive Message :=
| Text (s : string)
| PleaseWait (wait_time : Z) (action : string).

(** The dict that [start_server] and [stop_server] return. *)
Record Response := mkResponse {
  success : bool;
  resp_status : string;
  message : Message;
  resp_container_id : option string
}.

Definition failure (st : string) (msg : Message) : Response :=
  {| success := false; resp_status := st; message := msg;
     resp_container_id := None |}.

(** [container.start()] / [container.stop(timeout=10)] on [self.container]. *)
Definition container_action (e : Env) : M unit :=
  let! m := get in
  match container m with
  | None => raise (AttributeError "'NoneType' object has no attribute")
  | Some _ =>
      match action_raises e with
      | Some x => raise x
      | None => ret tt
      end
  end.

(** [self.container.reload()] after the two-second sleep. *)
Definition container_reload (e : Env) : M string :=
  let! m := get in
  match container m with
  | None => raise (AttributeError "'NoneType' object has no attribute")
  | Some _ =>
      match reload_after_start e with
      | Reloaded s => do! modify (set_container (Some s)) in ret s
      | ReloadRaises x => raise x
      end
  end.

(** The [with safe_span(...)] block: an exception leaving [body] leaves the
    block too, unless the context manager suppresses it, in which case the
    method ends without a [return], that is with [None]. *)
Definition with_safe_span (e : Env) (body : M Response) : M (option Response) :=
  fun m => match body m with
           | (m', Ok r) => (m', Ok (Some r))
           | (m', Raise x) =>
               if span_suppresses e then (m', Ok None) else (m', Raise x)
           end.

(** The part of both methods between the throttle check and the status
    check: [Some r] when it returns [r]. *)
Definition docker_available (e : Env) (unavailable : string)
  : M (option Response) :=
  let! ok := _initialize_docker_client e in
  if negb ok then
    if String.eqb (deployment_mode e) "kubernetes"
    then ret (Some (failure "kubernetes_mode"
             (Text "In Kubernetes mode - MCP management handled by sidecar")))
    else ret (Some (failure "docker_unavailable" (Text unavailable)))
  else
    let! m := get in
    if negb (docker_client m)
    then ret (Some (failure "docker_unavailable" (Text unavailable)))
    else ret None.

(** The [try] statement that ends [start_server]. *)
Definition start_container (e : Env) : M Response :=
  try_except
    (do! container_action e in
     do! modify (set_status "starting") in
     do! modify (set_start_time (Some (time_started e))) in
     do! modify (set_last_operation_time (time_operation e)) in
     do! _add_log (time_log e) "INFO" "MCP container starting..." in
     do! modify (set_log_reader_task true) in
     let! s := container_reload e in
     if String.eqb s "running" then
       do! modify (set_status "running") in
       do! _add_log (time_log e) "INFO" "MCP container started successfully" in
       let! m := get in
       ret {| success := true; resp_status := status m;
              message := Text "MCP server started successfully";
              resp_container_id :=
                Some (String.substring 0 12 (container_id e)) |}
     else
       do! modify (set_status "failed") in
       do! _add_log (time_log e) "ERROR"
             ("MCP container failed to start. Status: " +:+ s) in
       let! m := get in
       ret (failure (status m)
              (Text ("MCP container failed to start. Status: " +:+ s))))
    [(is_APIError,
      fun x =>
        do! modify (set_status "failed") in
        do! _add_log (time_log e) "ERROR"
              ("Docker API error: " +:+ exn_text x) in
        let! m := get in
        ret (failure (status m) (Text ("Docker API error: " +:+ exn_text x))));
     (any_Exception,
      fun x =>
        do! modify (set_status "failed") in
        do! _add_log (time_log e) "ERROR"
              ("Failed to start MCP server: " +:+ exn_text x) in
        let! m := get in
        ret (failure (status m)
               (Text ("Failed to start MCP server: " +:+ exn_text x))))].

(** [DockerManager.start_server] *)
Definition start_server (e : Env) : M (option Response) :=
  let! m := get in
  if current_time e - _last_operation_time m <? _min_operation_interval m then
    let wait_time :=
      _min_operation_interval m - (current_time e - _last_operation_time m) in
    ret (Some (failure (status m) (PleaseWait wait_time "starting")))
  else
  with_safe_span e (
    let! early :=
      docker_available e "Docker is not available. Is Docker socket mounted?" in
    match early with
    | Some r => ret r
    | None =>
    let! container_status := _get_container_status e in
    let! m := get in
    if String.eqb container_status "not_found" then
      ret (failure "not_found"
             (Text ("MCP container " +:+ default "None" (container_name m) +:+
                    " not found. Run docker-compose up -d archon-mcp")))
    else if String.eqb container_status "running" then
      ret (failure "running" (Text "MCP server is already running"))
    else start_container e
    end).

(** The [try] statement that ends [stop_server]. *)
Definition stop_container (e : Env) : M Response :=
  try_except
    (do! modify (set_status "stopping") in
     do! _add_log (time_log e) "INFO" "Stopping MCP container..." in
     do! container_action e in
     do! modify (set_status "stopped") in
     do! modify (set_start_time None) in
     do! modify (set_last_operation_time (time_operation e)) in
     do! _add_log (time_log e) "INFO" "MCP container stopped" in
     let! m := get in
     ret {| success := true; resp_status := status m;
            message := Text "MCP server stopped successfully";
            resp_container_id := None |})
    [(is_APIError,
      fun x =>
        do! _add_log (time_log e) "ERROR"
              ("Docker API error: " +:+ exn_text x) in
        let! m := get in
        ret (failure (status m) (Text ("Docker API error: " +:+ exn_text x))));
     (any_Exception,
      fun x =>
        do! _add_log (time_log e) "ERROR"
              ("Error stopping MCP server: " +:+ exn_text x) in
        let! m := get in
        ret (failure (status m)
               (Text ("Error stopping MCP server: " +:+ exn_text x))))].

(** [DockerManager.stop_server] *)
Definition stop_server (e : Env) : M (option Response) :=
  let! m := get in
  if current_time e - _last_operation_time m <? _min_operation_interval m then
    let wait_time :=
      _min_operation_interval m - (current_time e - _last_operation_time m) in
    ret (Some (failure (status m) (PleaseWait wait_time "stopping")))
  else
  with_safe_span e (
    let! early := docker_available e "Docker is not available" in
    match early with
    | Some r => ret r
    | None =>
    let! container_status := _get_container_status e in
    if negb (existsb (String.eqb container_status) ["running"; "restarting"])
    then
      ret (failure container_status
             (Text ("MCP server is not running (status: " +:+
                    container_status +:+ ")")))
    else stop_container e
    end).

(** The calls a client can make on the manager. *)
Inductive Op :=
| OpStart (e : Env)
| OpStop (e : Env).

Definition op_env (o : Op) : Env :=
  match o with OpStart e | OpStop e => e end.

Definition step (o : Op) : M (option Response) :=
  match o with
  | OpStart e => start_server e
  | OpStop e => stop_server e
  end.

(** The manager after a sequence of calls made one after the other, with
    how each ended. *)
Fixpoint run (m : Manager) (os : list Op)
  : Manager * list (Result (option Response)) :=
  match os with
  | [] => (m, [])
  | o :: os' =>
      let '(m1, r) := step o m in
      let '(m2, rs) := run m1 os' in
      (m2, r :: rs)
  end.

(** A call returned the throttle failure. *)
Definition throttled (r : Result (option Response)) : bool :=
  match r with
  | Ok (Some {| success := false; message := PleaseWait _ _ |}) => true
  | _ => false
  end.

Definition set_logs (l : list LogEntry) (m : Manager) : Manager :=
  {| container_name := container_name m; docker_client := docker_client m;
     container := container m; status := status m; start_time := start_time m;
     logs := l; log_reader_task := log_reader_task m;
     _last_operation_time := _last_operation_time m;
     _min_operation_interval := _min_operation_interval m;
     _docker_initialized := _docker_initialized m |}.

(** [DockerManager.get_logs] *)
Definition get_logs (limit : Z) (m : Manager) : list LogEntry :=
  let logs := logs m in
  if 0 <? limit then slice_from (- limit) logs else logs.

(** [DockerManager.clear_logs]; [now] is what the clock would give. *)
Definition clear_logs (now : Z) : M unit :=
  do! modify (set_logs []) in
  _add_log now "INFO" "Logs cleared".

End Docker.

(** ** sidecar/pod_manager.py: the pod manifest *)

Module Manifest.
Import Py Sidecar.

(** [PodResourceConfig] and [SecurityConfig] of sidecar/config.py. *)
Record PodResourceConfig := mkPodResourceConfig {
  cpu_request : string;
  cpu_limit : string;
  memory_request : string;
  memory_limit : string
}.

Definition default_resources : PodResourceConfig :=
  {| cpu_request := "250m"; cpu_limit := "500m"; memory_request := "256Mi";
     memory_limit := "512Mi" |}.

Record SecurityConfig := mkSecurityConfig {
  run_as_non_root : bool;
  run_as_user : Z;
  run_as_group : Z;
  read_only_root_filesystem : bool;
  allow_privilege_escalation : bool;
  capabilities_drop : list string
}.

Definition default_security : SecurityConfig :=
  {| run_as_non_root := true; run_as_user := 1001; run_as_group := 1001;
     read_only_root_filesystem := false; allow_privilege_escalation := false;
     capabilities_drop := ["ALL"] |}.

Record PodManager := mkPodManager {
  pm_namespace : string;
  pm_pod_name_prefix : string
}.

(** An entry of the container's [env] list. *)
Record EnvVar := mkEnvVar {
  env_name : string;
  env_value : string
}.

(** What the manifest builder obtains from outside: the two environment
    variables it reads and the clock. *)
Record OsEnv := mkOsEnv {
  ARCHON_MCP_IMAGE : option string;
  LOG_LEVEL : option string;
  time_now : Z
}.

Definition set_args (a : list string) (c : ServerConfig) : ServerConfig :=
  {| server_type := server_type c; name := name c; package := package c;
     command := command c; args := a; env := env c; transport := transport c;
     image := image c; port := port c; timeout := timeout c |}.

(** [x or y] on an [int | None] and an [int]. *)
Definition int_or (x : option Z) (y : Z) : Z :=
  match x with
  | Some v => if Z.eqb v 0 then y else v
  | None => y
  end.

(** What [get_server_image_and_config] returns, together with the
    configuration object as the call leaves it: for a python server with
    arguments of its own, [args] is the list held by the configuration, and
    [args.append] changes that list. *)
Record ImageConfig := mkImageConfig {
  ic_image : string;
  ic_env_vars : list EnvVar;
  ic_command : list string;
  ic_args : list string;
  ic_config : ServerConfig
}.

(** [PodManager.get_server_image_and_config] *)
Definition get_server_image_and_config (self : PodManager) (os : OsEnv)
    (server_config : ServerConfig) : ImageConfig :=
  let server_type := server_type server_config in
  let stdio := String.eqb (transport server_config) "stdio" in
  let custom :=
    map (fun kv => {| env_name := fst kv; env_value := snd kv |})
        (env server_config) in
  if String.eqb server_type "npx" then
    let args := ["-y"; str_or (package server_config) ""] in
    let args := if stdio then (args ++ ["stdio"])%list else args in
    {| ic_image := "node:18-alpine";
       ic_env_vars :=
         ([{| env_name := "NODE_ENV"; env_value := "production" |};
           {| env_name := "NPM_CONFIG_UPDATE_NOTIFIER"; env_value := "false" |}]
          ++ custom)%list;
       ic_command := ["npx"]; ic_args := args; ic_config := server_config |}
  else if String.eqb server_type "uv" then
    let install_cmd :=
      "pip install uv && uv run --with " +:+ str_or (package server_config) "" in
    let install_cmd := if stdio then install_cmd +:+ " stdio" else install_cmd in
    {| ic_image := "python:3.12-slim";
       ic_env_vars :=
         ([{| env_name := "PYTHONUNBUFFERED"; env_value := "1" |};
           {| env_name := "UV_NO_CACHE"; env_value := "1" |}] ++ custom)%list;
       ic_command := ["sh"; "-c"]; ic_args := [install_cmd];
       ic_config := server_config |}
  else if String.eqb server_type "python" then
    let env_vars :=
      ([{| env_name := "PYTHONUNBUFFERED"; env_value := "1" |}] ++ custom)%list in
    match args server_config with
    | [] =>
        let args := ["-m"; str_or (package server_config) ""] in
        let args := if stdio then (args ++ ["stdio"])%list else args in
        {| ic_image := "python:3.12-slim"; ic_env_vars := env_vars;
           ic_command := ["python"]; ic_args := args;
           ic_config := server_config |}
    | own =>
        let args := if stdio then (own ++ ["stdio"])%list else own in
        {| ic_image := "python:3.12-slim"; ic_env_vars := env_vars;
           ic_command := ["python"]; ic_args := args;
           ic_config := set_args args server_config |}
    end
  else if String.eqb server_type "docker" then
    {| ic_image := str_or (image server_config) "alpine:latest";
       ic_env_vars := custom;
       ic_command := if truthy_str (command server_config)
                     then [default "" (command server_config)] else [];
       ic_args := args server_config; ic_config := server_config |}
  else
    {| ic_image := default "archon-mcp:latest" (ARCHON_MCP_IMAGE os);
       ic_env_vars :=
         ([{| env_name := "ARCHON_MCP_HOST"; env_value := "0.0.0.0" |};
           {| env_name := "ARCHON_MCP_PORT";
              env_value := pretty (int_or (port server_config) 8051) |};
           {| env_name := "LOG_LEVEL";
              env_value := default "INFO" (LOG_LEVEL os) |};
           {| env_name := "DEPLOYMENT_MODE"; env_value := "kubernetes" |};
           {| env_name := "SERVICE_DISCOVERY_MODE"; env_value := "kubernetes" |};
           {| env_name := "KUBERNETES_NAMESPACE";
              env_value := pm_namespace self |}] ++ custom)%list;
       ic_command := ["python"; "-m"; "src.mcp.mcp_server"]; ic_args := [];
       ic_config := server_config |}.

(** An [httpGet] probe on the path [/health]. *)
Record Probe := mkProbe {
  probe_port : Z;
  initialDelaySeconds : Z;
  periodSeconds : Z
}.

(** The container spec; a key that the builder sets only in some cases is
    an option. *)
Record ContainerSpec := mkContainerSpec {
  c_name : string;
  c_image : string;
  c_env : list EnvVar;
  c_resources : PodResourceConfig;
  c_security : SecurityConfig;
  c_command : option (list string);
  c_args : option (list string);
  c_ports : option Z;
  c_livenessProbe : option Probe;
  c_readinessProbe : option Probe;
  c_stdin : option bool;
  c_stdinOnce : option bool;
  c_tty : option bool
}.

(** The manifest.  The annotation [server-config] is the JSON dump of the
    configuration object, kept here as the configuration it dumps. *)
Record PodManifest := mkPodManifest {
  meta_name : string;
  meta_namespace : string;
  labels : list (string * string);
  annotation_server_config : ServerConfig;
  restartPolicy : string;
  fsGroup : Z;
  containers : list ContainerSpec
}.

Definition nonempty {A} (l : list A) : option (list A) :=
  match l with [] => None | _ => Some l end.

(** [PodManager.create_pod_manifest]; the first component is the
    configuration object as the call leaves it. *)
Definition create_pod_manifest (self : PodManager) (os : OsEnv)
    (pod_name : string) (server_config : ServerConfig)
    (resources : option PodResourceConfig) (security : option SecurityConfig)
  : ServerConfig * PodManifest :=
  let resources := default default_resources resources in
  let security := default default_security security in
  let ic := get_server_image_and_config self os server_config in
  let server_config := ic_config ic in
  let server_name := str_or (name server_config) (server_type server_config) in
  let pod_name :=
    if String.eqb pod_name ""
    then pm_pod_name_prefix self +:+ "-" +:+ server_name +:+ "-" +:+
         pretty (unix_seconds (time_now os))
    else pod_name in
  let http :=
    str_in (transport server_config) ["sse"; "http"] &&
    negb (Z.eqb (int_or (port server_config) 0) 0) in
  let probes := http && String.eqb (server_type server_config) "archon" in
  let stdio := String.eqb (transport server_config) "stdio" in
  let container_spec :=
    {| c_name := "mcp-" +:+ server_name;
       c_image := ic_image ic;
       c_env := ic_env_vars ic;
       c_resources := resources;
       c_security := security;
       c_command := nonempty (ic_command ic);
       c_args := nonempty (ic_args ic);
       c_ports := if http then port server_config else None;
       c_livenessProbe :=
         if probes
         then Some {| probe_port := int_or (port server_config) 0;
                      initialDelaySeconds := 30; periodSeconds := 10 |}
         else None;
       c_readinessProbe :=
         if probes
         then Some {| probe_port := int_or (port server_config) 0;
                      initialDelaySeconds := 5; periodSeconds := 5 |}
         else None;
       c_stdin := if stdio then Some true else None;
       c_stdinOnce := if stdio then Some false else None;
       c_tty := if stdio then Some false else None |} in
  (server_config,
   {| meta_name := pod_name;
      meta_namespace := pm_namespace self;
      labels := [("app", pm_pod_name_prefix self);
                 ("component", "mcp-server");
                 ("server-type", server_type server_config);
                 ("transport", transport server_config);
                 ("created-by", "archon-sidecar")];
      annotation_server_config := server_config;
      restartPolicy := "Never";
      fsGroup := run_as_group security;
      containers := [container_spec] |}).

End Manifest.

(** ** stdio/exec_handler.py *)

Module Exec.
Import Py.

(** What [connection["websocket"]] holds: [None], the string
    "simulated_websocket", or a websocket object. *)
Inductive Websocket := NoWebsocket | Simulated | Real.

(** The entries of the connection dict that the handler reads and writes
    after creating it. *)
Record ExecConnection := mkExecConnection {
  exec_url : string;
  exec_status : string;
  websocket : Websocket;
  stdin_buffer : list string;
  stdout_buffer : list string;
  stderr_buffer : list string
}.

Definition set_exec_status (s : string) (c : ExecConnection) : ExecConnection :=
  {| exec_url := exec_url c; exec_status := s; websocket := websocket c;
     stdin_buffer := stdin_buffer c; stdout_buffer := stdout_buffer c;
     stderr_buffer := stderr_buffer c |}.

(** The handler's own attributes. *)
Record KubernetesExecHandler := mkHandler {
  namespace : string;
  k8s_host : string;
  k8s_port : string
}.

(** The loop that appends the command parts to the URL. *)
Fixpoint command_params (command : list string) : string :=
  match command with
  | [] => ""
  | cmd_part :: command' => "&command=" +:+ cmd_part +:+ command_params command'
  end.

(** [create_exec_connection] *)
Definition create_exec_connection (self : KubernetesExecHandler)
    (pod_name : string) (container_name : option string)
    (command : option (list string)) : ExecConnection :=
  let command := default ["/bin/sh"] command in
  let exec_url :=
    "wss://" +:+ k8s_host self +:+ ":" +:+ k8s_port self +:+
    "/api/v1/namespaces/" +:+ namespace self +:+ "/pods/" +:+ pod_name +:+
    "/exec" +:+ "?stdin=true&stdout=true&stderr=true&tty=false" in
  let exec_url :=
    if truthy_str container_name
    then exec_url +:+ "&container=" +:+ default "" container_name
    else exec_url in
  let exec_url := exec_url +:+ command_params command in
  {| exec_url := exec_url; exec_status := "connected";
     websocket := Simulated; stdin_buffer := []; stdout_buffer := [];
     stderr_buffer := [] |}.

(** [close_exec_connection] on a connection whose websocket, if it is one,
    closes without raising. *)
Definition close_exec_connection (c : ExecConnection) : ExecConnection * bool :=
  (set_exec_status "closed" c, true).

(** [send_stdin] *)
Definition send_stdin (data : string) (c : ExecConnection)
  : ExecConnection * bool :=
  if negb (String.eqb (exec_status c) "connected") then (c, false)
  else
    ({| exec_url := exec_url c; exec_status := exec_status c;
        websocket := websocket c;
        stdin_buffer := (stdin_buffer c ++ [data])%list;
        stdout_buffer := stdout_buffer c;
        stderr_buffer := stderr_buffer c |}, true).

(** [read_stdout]: the wait ends with the oldest buffered item when there
    is one and with [TimeoutError] otherwise. *)
Definition read_stdout (c : ExecConnection) : ExecConnection * option string :=
  if negb (String.eqb (exec_status c) "connected") then (c, None)
  else
    match stdout_buffer c with
    | [] => (c, None)
    | data :: rest =>
        ({| exec_url := exec_url c; exec_status := exec_status c;
            websocket := websocket c; stdin_buffer := stdin_buffer c;
            stdout_buffer := rest; stderr_buffer := stderr_buffer c |},
         Some data)
    end.

(** [read_stderr] *)
Definition read_stderr (c : ExecConnection) : ExecConnection * option string :=
  if negb (String.eqb (exec_status c) "connected") then (c, None)
  else
    match stderr_buffer c with
    | [] => (c, None)
    | data :: rest =>
        ({| exec_url := exec_url c; exec_status := exec_status c;
            websocket := websocket c; stdin_buffer := stdin_buffer c;
            stdout_buffer := stdout_buffer c; stderr_buffer := rest |},
         Some data)
    end.

(** [_decode_exec_frame]; the channel is the first byte as an int. *)
Definition _decode_exec_frame (frame : list Byte.byte) : Z * list Byte.byte :=
  match frame with
  | [] => (0, [])
  | channel :: data => (Z.of_N (Byte.to_N channel), data)
  end.

(** [_encode_exec_frame]; [bytes([channel])] raises ValueError, here
    [None], unless [0 <= channel < 256]. *)
Definition _encode_exec_frame (channel : Z) (data : list Byte.byte)
  : option (list Byte.byte) :=
  if channel <? 0 then None
  else match Byte.of_N (Z.to_N channel) with
       | Some b => Some (b :: data)
       | None => None
       end.

(** A message received on the websocket: bytes or text. *)
Inductive WsMessage :=
| Binary (frame : list Byte.byte)
| TextMessage (text : string).

(** The body of the loop of [_handle_websocket_messages] for one message;
    [decode] is [bytes.decode('utf-8', errors='ignore')]. *)
Definition route (decode : list Byte.byte -> string) (c : ExecConnection)
    (message : WsMessage) : ExecConnection :=
  match message with
  | Binary frame =>
      let '(channel, data) := _decode_exec_frame frame in
      if channel =? 1 then
        {| exec_url := exec_url c; exec_status := exec_status c;
           websocket := websocket c; stdin_buffer := stdin_buffer c;
           stdout_buffer := (stdout_buffer c ++ [decode data])%list;
           stderr_buffer := stderr_buffer c |}
      else if channel =? 2 then
        {| exec_url := exec_url c; exec_status := exec_status c;
           websocket := websocket c; stdin_buffer := stdin_buffer c;
           stdout_buffer := stdout_buffer c;
           stderr_buffer := (stderr_buffer c ++ [decode data])%list |}
      else c
  | TextMessage _ => c
  end.

(** [_handle_websocket_messages] over the messages the websocket yields. *)
Definition _handle_websocket_messages (decode : list Byte.byte -> string)
    (messages : list WsMessage) (c : ExecConnection) : ExecConnection :=
  match websocket c with
  | NoWebsocket | Simulated => c
  | Real => fold_left (route decode) messages c
  end.

(** What can be done with a connection. *)
Inductive Op :=
| OpSend (data : string)
| OpReadStdout
| OpReadStderr
| OpClose
| OpHandle (decode : list Byte.byte -> string) (messages : list WsMessage).

(** What a call returned: the flag of [send_stdin] and
    [close_exec_connection], the data of a read, nothing for the handler
    task. *)
Inductive Output :=
| Flag (b : bool)
| Data (d : option string)
| Done.

Definition step (c : ExecConnection) (o : Op) : ExecConnection * Output :=
  match o with
  | OpSend data => let '(c, b) := send_stdin data c in (c, Flag b)
  | OpReadStdout => let '(c, d) := read_stdout c in (c, Data d)
  | OpReadStderr => let '(c, d) := read_stderr c in (c, Data d)
  | OpClose => let '(c, b) := close_exec_connection c in (c, Flag b)
  | OpHandle decode messages => (_handle_websocket_messages decode messages c, Done)
  end.

Fixpoint run (c : ExecConnection) (os : list Op)
  : ExecConnection * list Output :=
  match os with
  | [] => (c, [])
  | o :: os' =>
      let '(c1, r) := step c o in
      let '(c2, rs) := run c1 os' in
      (c2, r :: rs)
  end.

End Exec.

(** ** sidecar/main.py: the HTTP routes *)

Module Routes.
Import Py Sidecar.

(** How a route ends: with a value, sent as the JSON body of a 200
    response, or with an [HTTPException]. *)
Inductive Http (A : Type) :=
| Answer (body : A)
| HTTPException (status_code : Z) (detail : string).
Arguments Answer {A} body.
Arguments HTTPException {A} status_code detail.

(** [StartServerRequest] *)
Record StartServerRequest := mkStartServerRequest {
  req_server_type : string;
  req_name : option string;
  req_transport : string;
  req_image : option string;
  req_port : option Z;
  req_env : option (list (string * string))
}.

(** [StartServerRequest()] *)
Definition default_request : StartServerRequest :=
  {| req_server_type := "archon"; req_name := None; req_transport := "sse";
     req_image := None; req_port := None; req_env := None |}.

(** The texts a route obtains from exceptions: [str(e)] of the
    [ValidationError] of the request's configuration and of an
    [HTTPException] with the given status code and detail. *)
Record RouteEnv := mkRouteEnv {
  construct_error : string;
  str_http : Z -> string -> string
}.

(** [ServerConfig(server_type=..., name=..., transport=..., image=...,
    port=..., env=request.env or {})]: the validators of the fields that
    are passed run; [package], [command], [args] and [timeout] take their
    defaults, which are not validated.  [None] stands for the
    [ValidationError]. *)
Definition request_config (request : StartServerRequest) : option ServerConfig :=
  let c := {| server_type := req_server_type request;
              name := req_name request; package := None; command := None;
              args := []; env := default [] (req_env request);
              transport := req_transport request;
              image := req_image request; port := req_port request;
              timeout := 300 |} in
  if negb (str_in (server_type c) valid_types) then None
  else if negb (str_in (transport c) valid_transports) then None
  else Some {| server_type := server_type c; name := name c;
               package := package c; command := command c; args := args c;
               env := env c; transport := transport c; image := image c;
               port := validate_port_for_transport c;
               timeout := timeout c |}.

(** The body of a successful start. *)
Record StartBody := mkStartBody {
  body_server_id : option string;
  body_message : string;
  body_data : option ResponseData
}.

(** [POST /servers/start].  An [HTTPException] raised inside the [try] is
    caught by its [except Exception] clause, which raises the one that
    leaves the route. *)
Definition start_server (re : RouteEnv) (request : StartServerRequest)
    (e : StartEnv) (sidecar_manager : option Manager)
  : option Manager * Http StartBody :=
  match sidecar_manager with
  | None =>
      (None,
       HTTPException 500 (str_http re 503 "Sidecar manager not initialized"))
  | Some m =>
      match request_config request with
      | None => (Some m, HTTPException 500 (construct_error re))
      | Some server_config =>
          let '(m, result) := Sidecar.start_server (Some server_config) e m in
          if success result
          then (Some m, Answer {| body_server_id := server_id result;
                                  body_message := message result;
                                  body_data := data result |})
          else (Some m, HTTPException 500 (str_http re 400 (message result)))
      end
  end.

(** [POST /servers/stop]; the body of a success is its message. *)
Definition stop_server (re : RouteEnv) (request_server_id : option string)
    (e : StopEnv) (sidecar_manager : option Manager)
  : option Manager * Http string :=
  match sidecar_manager with
  | None =>
      (None,
       HTTPException 500 (str_http re 503 "Sidecar manager not initialized"))
  | Some m =>
      let '(m, result) := Sidecar.stop_server request_server_id e m in
      if success result then (Some m, Answer (message result))
      else (Some m, HTTPException 500 (str_http re 400 (message result)))
  end.

(** [GET /health] *)
Definition health_check (re : RouteEnv) (k8s_healthy : bool)
    (pods : list Pods.Pod) (sidecar_manager : option Manager)
  : option Manager * Http pydict :=
  match sidecar_manager with
  | None =>
      (None,
       HTTPException 503 (str_http re 503 "Sidecar manager not initialized"))
  | Some m =>
      let '(m, result) := Sidecar.health_check k8s_healthy pods m in
      if health_success result
      then (Some m, Answer [("status", PStr "healthy");
                            ("message", PStr (health_message result))])
      else (Some m,
            HTTPException 503 (str_http re 503 (health_message result)))
  end.

End Routes.

(** ** client/sidecar_client.py *)

Module Client.
Import Py Routes.

(** How the GET of the client went: no connection, another failure below
    HTTP ([text] is its [str]), or a response was received. *)
Inductive Exchange :=
| ConnectError
| RequestFailed (text : string)
| Delivered.

(** [MCPSidecarClient.health_check] against a service that ends the route
    with [answer]; [status_error] is the [str] of the [HTTPStatusError]
    that [raise_for_status] raises for an error status. *)
Definition health_check (sidecar_url : string) (x : Exchange)
    (answer : Http pydict) (status_error : Z -> string) : pydict :=
  match x with
  | ConnectError =>
      [("success", PBool false); ("status", PStr "unreachable");
       ("message", PStr ("Cannot connect to sidecar at " +:+ sidecar_url))]
  | RequestFailed text =>
      [("success", PBool false); ("status", PStr "error");
       ("message", PStr text)]
  | Delivered =>
      match answer with
      | Answer body => body
      | HTTPException status_code _ =>
          [("success", PBool false); ("status", PStr "error");
           ("message", PStr (status_error status_code))]
      end
  end.

(** [is_available], given the dict that [health_check] returned. *)
Definition is_available (health : pydict) : pyval :=
  match dict_get "success" health with
  | Some v => v
  | None => PBool false
  end.

(** The loop of [wait_for_availability] from attempt [attempt] on, with
    [remaining] attempts to go; [available i] is what [is_available]
    returns at attempt [i]. *)
Fixpoint wait_from (available : nat -> pyval) (attempt remaining : nat) : bool :=
  match remaining with
  | O => false
  | S remaining' =>
      if truthy (available attempt) then true
      else wait_from available (S attempt) remaining'
  end.

(** [wait_for_availability] *)
Definition wait_for_availability (max_attempts : nat)
    (available : nat -> pyval) : bool :=
  wait_from available 0 max_attempts.

End Client.

(** ** api_routes/mcp_api.py: MCPServerManager *)

Module Dispatcher.
Import Py.

(** The object bound to [self.manager]. *)
Inductive Backend := SidecarClient | KubernetesMCPManager | DockerManager.

Record MCPServerManager := mkMCPServerManager {
  manager : option Backend;
  _manager_type : string;
  _initialized : bool
}.

(** [MCPServerManager()] *)
Definition init : MCPServerManager :=
  {| manager := None; _manager_type := "unknown"; _initialized := false |}.

(** [_ensure_initialized]; [sidecar_available] is what
    [sidecar_client.is_available()] returns and [deployment_mode] the
    lower-cased DEPLOYMENT_MODE, both as they are at this call. *)
Definition _ensure_initialized (sidecar_available : bool)
    (deployment_mode : string) (self : MCPServerManager) : MCPServerManager :=
  if _initialized self then self
  else if sidecar_available then
    {| manager := Some SidecarClient; _manager_type := "sidecar";
       _initialized := true |}
  else if String.eqb deployment_mode "kubernetes" then
    {| manager := Some KubernetesMCPManager; _manager_type := "kubernetes";
       _initialized := true |}
  else
    {| manager := Some DockerManager; _manager_type := "docker";
       _initialized := true |}.

(** Where [start_server] and [stop_server] go after [_ensure_initialized]:
    to the bound manager, or to the answer "unavailable". *)
Definition dispatch (sidecar_available : bool) (deployment_mode : string)
    (self : MCPServerManager) : MCPServerManager * option Backend :=
  let self := _ensure_initialized sidecar_available deployment_mode self in
  (self, manager self).

(** The status that [get_status] reports without asking a manager. *)
Definition get_status (self : MCPServerManager) : option string :=
  if negb (_initialized self) then Some "initializing"
  else match manager self with
       | None => Some "unavailable"
       | Some _ => None
       end.

(** The manager after a sequence of calls of [start_server] or
    [stop_server], each with the environment it finds. *)
Definition run (self : MCPServerManager) (calls : list (bool * string))
  : MCPServerManager :=
  fold_left (fun self c => (dispatch (fst c) (snd c) self).1) calls self.

End Dispatcher.

(** * Properties *)

Import Py.

(** ** JSON-RPC round trip *)

Section RoundTrip.
Import Protocol.

(** What [to_jsonrpc] followed by [from_jsonrpc] makes of a message. *)
Definition round_trip_image (uuid : string) (now : Z) (m : MCPMessage)
  : MCPMessage :=
  match type m with
  | REQUEST =>
      {| id := id m; type := REQUEST; method := method m;
         params := if truthy (params m) then params m else PNone;
         result := PNone; error := PNone;
         timestamp := now; protocol := Some STDIO |}
  | RESPONSE =>
      {| id := id m; type := RESPONSE; method := PNone; params := PNone;
         result := if truthy (error m) then PNone else result m;
         error := if truthy (error m) then error m else PNone;
         timestamp := now; protocol := Some STDIO |}
  | NOTIFICATION =>
      {| id := PStr uuid; type := NOTIFICATION; method := method m;
         params := if truthy (params m) then params m else PNone;
         result := PNone; error := PNone;
         timestamp := now; protocol := Some STDIO |}
  | ERROR =>
      {| id := id m; type := RESPONSE; method := PNone; params := PNone;
         result := PNone; error := PNone;
         timestamp := now; protocol := Some STDIO |}
  end.

Lemma from_to_jsonrpc uuid now m :
  from_jsonrpc uuid now (to_jsonrpc m) = round_trip_image uuid now m.
Proof.
  unfold to_jsonrpc, round_trip_image.
  destruct m as [i t me ps r er ts pr]; simpl.
  destruct t; simpl.
  - destruct (truthy ps) eqn:Hp; reflexivity.
  - destruct (truthy er) eqn:He; reflexivity.
  - destruct (truthy ps) eqn:Hp; reflexivity.
  - reflexivity.
Qed.

(** The fields a message must leave empty, and the emptiness it must avoid,
    for [to_jsonrpc] to carry all of it. *)
Definition carried (m : MCPMessage) : Prop :=
  match type m with
  | REQUEST | NOTIFICATION =>
      result m = PNone /\ error m = PNone /\
      (truthy (params m) = true \/ params m = PNone)
  | RESPONSE =>
      method m = PNone /\ params m = PNone /\
      if truthy (error m) then result m = PNone else error m = PNone
  | ERROR => False
  end.

End RoundTrip.

Section RoundTripTheorems.
Import Protocol.

Lemma truthy_not_none v : truthy v = true -> v <> PNone.
Proof. intros H ->. discriminate. Qed.

Lemma round_trip_payload uuid now m :
  same_payload (round_trip_image uuid now m) m <-> carried m.
Proof.
  unfold same_payload, round_trip_image, carried.
  destruct m as [i t me ps r er ts pr]; simpl.
  destruct t; simpl.
  - destruct (truthy ps) eqn:Hp; split.
    + intros (_ & _ & _ & <- & <-). auto.
    + intros (-> & -> & _). auto.
    + intros (_ & _ & <- & <- & <-). auto.
    + intros (-> & -> & [H | ->]); [discriminate | auto].
  - destruct (truthy er) eqn:He; split.
    + intros (_ & <- & <- & <- & _). auto.
    + intros (-> & -> & ->). auto.
    + intros (_ & <- & <- & _ & <-). auto.
    + intros (-> & -> & ->). auto.
  - destruct (truthy ps) eqn:Hp; split.
    + intros (_ & _ & _ & <- & <-). auto.
    + intros (-> & -> & _). auto.
    + intros (_ & _ & <- & <- & <-). auto.
    + intros (-> & -> & [H | ->]); [discriminate | auto].
  - split; [intros (H & _); discriminate | tauto].
Qed.

(** C2, as the code has it.  [from_jsonrpc (to_jsonrpc m)] is always a
    message, whatever values [m] holds under its id and method.  It agrees
    with [m] on type, method, params, result and error exactly when [m] is a
    Request or a Notification whose result and error are None and whose
    params are None or truthy, or a Response whose method and params are None
    and which has either a truthy error and no result, or no error; an Error
    message never does (it comes back as a Response).  The id comes back
    unchanged, except that a Notification comes back with a fresh uuid as
    its id. *)
Theorem jsonrpc_round_trip (m : MCPMessage) (uuid : string) (now : Z) :
  exists m',
    from_jsonrpc uuid now (to_jsonrpc m) = m' /\
    (same_payload m' m <-> carried m) /\
    id m' = match type m with NOTIFICATION => PStr uuid | _ => id m end.
Proof.
  exists (round_trip_image uuid now m). split; [apply from_to_jsonrpc |].
  split; [apply round_trip_payload |].
  unfold round_trip_image. destruct (type m); reflexivity.
Qed.

(** C2 as stated fails: an Error message with every optional field empty
    comes back as a Response. *)
Lemma jsonrpc_round_trip_counterexample :
  let m := {| id := PStr "1"; type := ERROR; method := PNone;
              params := PNone; result := PNone; error := PNone;
              timestamp := 0; protocol := None |} in
  exists m', from_jsonrpc "u" 5 (to_jsonrpc m) = m' /\
             type m' = RESPONSE /\ ~ same_content m' m.
Proof.
  simpl. eexists. split; [reflexivity |]. split; [reflexivity |].
  intros (_ & H & _). discriminate.
Qed.

End RoundTripTheorems.

(** ** Dispatch of incoming messages *)

Section Dispatch.
Import Protocol.

(** What the handler of a message is called with: [message.params or {}]. *)
Definition handler_argument (message : MCPMessage) : pyval :=
  if truthy (params message) then params message else PDict [].

(** [reply] is a Response to [message] that carries nothing but [r] as its
    result and [e] as its error. *)
Definition replies_to (message reply : MCPMessage) (r e : pyval) : Prop :=
  type reply = RESPONSE /\ id reply = id message /\
  method reply = PNone /\ params reply = PNone /\
  result reply = r /\ error reply = e.

(** The JSON-RPC error object with code [code] whose message is [prefix]
    followed by [text]. *)
Definition error_with (code : Z) (prefix text : string) : pyval :=
  PDict [("code", PInt code); ("message", PStr (prefix +:+ text))].

Lemma handle_request_registered now message a s (h : Handler) :
  method message = PStr s -> message_handlers a !! s = Some h ->
  _handle_request now message a =
  (send_message
     match h (handler_argument message) with
     | Returns r => response_result now (id message) r
     | Raises text =>
         response_error now (id message)
           (error_object (-32603) ("Internal error: " +:+ text))
     end a, Completed).
Proof.
  intros Hm Hh. unfold _handle_request, lookup_handler, handler_argument, py_or.
  rewrite Hm. cbn [str_of_key lookup_key]. rewrite Hh.
  destruct (h _); reflexivity.
Qed.

Lemma handle_request_unregistered now message a text :
  str_of_key (method message) = Some text ->
  (forall s, method message = PStr s -> message_handlers a !! s = None) ->
  _handle_request now message a =
  (send_message
     (response_error now (id message)
        (error_object (-32601) ("Method not found: " +:+ text))) a,
   Completed).
Proof.
  intros Ht Hn. unfold _handle_request, lookup_handler. rewrite Ht.
  destruct (method message) as [| b | n | s | l | d];
    cbn [lookup_key]; try reflexivity.
  rewrite (Hn s eq_refl). reflexivity.
Qed.

Lemma hashable_str_of_key v :
  hashable v = true -> exists text, str_of_key v = Some text.
Proof. destruct v as [| [|] | | | |]; simpl; eauto; discriminate. Qed.

(** C5, as the code has it.  A Request whose method is a string with a
    registered handler is answered with exactly one Response, bearing the
    request's id and, as its result, what the handler returned for
    [params or {}] or, when the handler raised, as its error the object with
    code -32603 and the message "Internal error: " followed by the
    exception's text.  A Request whose method can be looked up (a string,
    None, a bool or an int) and has no registered handler is answered with
    exactly one Response bearing the request's id and the error object with
    code -32601, whose message names the method.  A Request whose method is
    a list or a dict is not answered: the lookup raises TypeError.  In none
    of these cases [pending_requests] or a future changes.  A Response whose
    id is not in [pending_requests] is answered with nothing and leaves
    [pending_requests] and every future as they were. *)
Theorem incoming_message_dispatch (now : Z) (message : MCPMessage)
    (a : Adapter) :
  let a' := (handle_incoming_message now message a).1 in
  (type message = REQUEST ->
   (forall s (h : Handler),
      method message = PStr s -> message_handlers a !! s = Some h ->
      exists reply,
        sent a' = (sent a ++ [reply])%list /\
        match h (handler_argument message) with
        | Returns r => replies_to message reply r PNone
        | Raises text =>
            replies_to message reply PNone
              (error_with (-32603) "Internal error: " text)
        end) /\
   (hashable (method message) = true ->
    (forall s, method message = PStr s -> message_handlers a !! s = None) ->
    exists reply text,
      sent a' = (sent a ++ [reply])%list /\
      replies_to message reply PNone
        (error_with (-32601) "Method not found: " text) /\
      (forall s, method message = PStr s -> text = s) /\
      (method message = PNone -> text = "None")) /\
   (hashable (method message) = true ->
    (handle_incoming_message now message a).2 = Completed) /\
   (hashable (method message) = false ->
    sent a' = sent a /\
    (handle_incoming_message now message a).2 = RaisedTypeError) /\
   pending_requests a' = pending_requests a /\ futures a' = futures a) /\
  (type message = RESPONSE ->
   (forall s, id message = PStr s -> pending_requests a !! s = None) ->
   sent a' = sent a /\ pending_requests a' = pending_requests a /\
   futures a' = futures a /\
   (hashable (id message) = true ->
    (handle_incoming_message now message a).2 = Completed)).
Proof.
  unfold handle_incoming_message. split.
  - intros ->.
    set (a0 := set_message_queue _ a).
    assert (Hh0 : message_handlers a0 = message_handlers a) by reflexivity.
    split; [| split; [| split; [| split]]].
    + intros s h Hm Hh.
      rewrite (handle_request_registered now message a0 s h Hm);
        [| rewrite Hh0; exact Hh].
      eexists. split; [reflexivity |].
      destruct (h _); repeat split.
    + intros Hhash Hn.
      destruct (hashable_str_of_key _ Hhash) as [text Ht].
      rewrite (handle_request_unregistered now message a0 text Ht);
        [| rewrite Hh0; exact Hn].
      eexists. exists text. split; [reflexivity |].
      split; [repeat split |]. split.
      * intros s Hs. rewrite Hs in Ht. simpl in Ht. congruence.
      * intros Hs. rewrite Hs in Ht. simpl in Ht. congruence.
    + intros Hhash. destruct (hashable_str_of_key _ Hhash) as [text Ht].
      unfold _handle_request. rewrite Ht.
      destruct (lookup_handler _ _) as [h |]; [destruct (h _) |]; reflexivity.
    + intros Hhash. unfold _handle_request.
      destruct (method message); try discriminate; split; reflexivity.
    + unfold _handle_request.
      destruct (str_of_key _); [| split; reflexivity].
      destruct (lookup_handler _ _) as [h |]; [destruct (h _) |];
        split; reflexivity.
  - intros -> Hnone. unfold _handle_response.
    destruct (id message) as [| b | n | s | l | d]; simpl;
      try (repeat split; try reflexivity; discriminate).
    rewrite (Hnone s eq_refl). repeat split; reflexivity.
Qed.

(** A Request as [from_jsonrpc] hands it over: JSON-RPC 2.0 with the
    integer id 1. *)
Definition list_request (m : pyval) : MCPMessage :=
  from_jsonrpc "u" 0 [("jsonrpc", PStr "2.0"); ("id", PInt 1); ("method", m)].

(** The theorem at work: on an adapter with a handler for "tools/list" that
    always returns 7, a Request with the integer id 1 for that method, a
    Request for a method nobody handles, and a Response nobody waits for. *)
Lemma incoming_message_dispatch_witness :
  let a := register_handler "tools/list" (fun _ => Returns (PInt 7))
             (init "c") in
  let late := response_result 0 (PStr "gone") (PInt 1) in
  (exists reply,
     sent (handle_incoming_message 1 (list_request (PStr "tools/list")) a).1
       = [reply] /\
     id reply = PInt 1 /\ result reply = PInt 7 /\ error reply = PNone) /\
  (exists reply,
     sent (handle_incoming_message 1 (list_request (PStr "prompts/list")) a).1
       = [reply] /\
     id reply = PInt 1 /\ result reply = PNone /\
     error reply = PDict [("code", PInt (-32601));
                          ("message",
                           PStr "Method not found: prompts/list")]) /\
  sent (handle_incoming_message 2 late a).1 = [].
Proof.
  intros a late. split; [| split].
  - destruct (proj1 (incoming_message_dispatch 1
                       (list_request (PStr "tools/list")) a) eq_refl)
      as (H & _).
    destruct (H "tools/list" (fun _ => Returns (PInt 7)) eq_refl eq_refl)
      as (reply & Hs & _ & Hid & _ & _ & Hr & He).
    exists reply. auto.
  - destruct (proj1 (incoming_message_dispatch 1
                       (list_request (PStr "prompts/list")) a) eq_refl)
      as (_ & H & _).
    destruct H as (reply & text & Hs & (_ & Hid & _ & _ & Hr & He) & Ht & _).
    + reflexivity.
    + intros s [= <-]. reflexivity.
    + exists reply. rewrite (Ht "prompts/list" eq_refl) in He. auto.
  - destruct (proj2 (incoming_message_dispatch 2 late a) eq_refl)
      as (H & _); [| exact H].
    intros s [= <-]. reflexivity.
Defined.

(** C5 as stated fails: a Request whose method is a list, for which no
    handler is registered, is not answered; the membership test raises
    TypeError, with nothing sent. *)
Lemma incoming_message_dispatch_counterexample :
  let a := register_handler "tools/list" (fun _ => Returns (PInt 7))
             (init "c") in
  let request := list_request (PList [PStr "tools/list"]) in
  type request = REQUEST /\
  (forall s, method request = PStr s -> message_handlers a !! s = None) /\
  sent (handle_incoming_message 1 request a).1 = [] /\
  (handle_incoming_message 1 request a).2 = RaisedTypeError.
Proof.
  simpl. split; [reflexivity |]. split; [discriminate |].
  split; reflexivity.
Qed.

End Dispatch.

(** ** Reconciliation of the recorded statuses *)

Section Reconcile.
Import Pods Sidecar.

Lemma get_pod_status_phase pod :
  get_pod_status pod =
  match phase pod with
  | None => "Unknown"
  | Some p =>
      if String.eqb p "Pending" then pending_status (containerStatuses pod)
      else if String.eqb p "Running" then
        if ready_condition (conditions pod) then "Running" else "Starting"
      else if String.eqb p "Succeeded" then "Completed"
      else if String.eqb p "Failed" then "Failed"
      else p
  end.
Proof.
  unfold get_pod_status, is_pod_ready.
  destruct (phase pod) as [p |] eqn:Hp; simpl; [| reflexivity].
  destruct (String.eqb p "Pending") eqn:E1; [reflexivity |].
  destruct (String.eqb p "Running") eqn:E2; [| reflexivity].
  reflexivity.
Qed.

(** No container of [cs] is in a waiting state that counts. *)
Definition none_waiting (cs : list ContainerStatus) : Prop :=
  Forall (fun c => match state_waiting c with
                   | Some w => waiting_truthy w = false
                   | None => True
                   end) cs.

Lemma pending_status_none cs : none_waiting cs -> pending_status cs = "Pending".
Proof.
  induction 1 as [| c cs Hc _ IH]; simpl; [reflexivity |].
  destruct (state_waiting c) as [w |]; [rewrite Hc |]; exact IH.
Qed.

Lemma pending_status_first pre w post :
  none_waiting pre -> waiting_truthy w = true ->
  pending_status (pre ++ {| state_waiting := Some w |} :: post) =
  "Pending (" +:+ default "Unknown" (reason w) +:+ ")".
Proof.
  intros Hpre Hw. induction Hpre as [| c cs Hc _ IH]; simpl.
  - rewrite Hw. reflexivity.
  - destruct (state_waiting c) as [w' |]; [rewrite Hc |]; exact IH.
Qed.

Lemma lookup_map {A B} (f : A -> B) (l : list A) (i : nat) :
  map f l !! i = f <$> (l !! i).
Proof. revert i. induction l as [| x l IH]; intros [| i]; simpl; auto. Qed.

(** No condition of [cs] is of type Ready. *)
Definition no_ready (cs : list Condition) : Prop :=
  Forall (fun c => cond_type c <> Some "Ready") cs.

Lemma opt_str_eqb_true o s : opt_str_eqb o s = true <-> o = Some s.
Proof.
  destruct o as [x |]; simpl; [| split; discriminate].
  rewrite String.eqb_eq. split; [intros -> | intros [= ->]]; reflexivity.
Qed.

Lemma opt_str_eqb_false o s : opt_str_eqb o s = false <-> o <> Some s.
Proof.
  rewrite <- opt_str_eqb_true. destruct (opt_str_eqb o s); split;
    congruence.
Qed.

Lemma ready_condition_none cs : no_ready cs -> ready_condition cs = false.
Proof.
  induction 1 as [| c cs Hc _ IH]; simpl; [reflexivity |].
  apply opt_str_eqb_false in Hc. rewrite Hc. exact IH.
Qed.

Lemma ready_condition_first pre c post :
  no_ready pre -> cond_type c = Some "Ready" ->
  ready_condition (pre ++ c :: post) = opt_str_eqb (cond_status c) "True".
Proof.
  intros Hpre Hc. induction Hpre as [| c' cs Hc' _ IH]; simpl.
  - apply opt_str_eqb_true in Hc. rewrite Hc. reflexivity.
  - apply opt_str_eqb_false in Hc'. rewrite Hc'. exact IH.
Qed.

(** C4, as the code has it.  After [get_status], every tracked instance
    sits where it sat, with the status of the listed pod that bears its pod
    name: "not_found" when there is none; for phase Running, "Running" when
    the first condition of type Ready has status True, and "Starting" when
    it has another status or no condition is of type Ready; for phase
    Succeeded, "Completed"; for phase Failed, "Failed"; for phase Pending,
    "Pending (reason)" with the reason of the first container that is
    waiting, and plain "Pending" when no container is. *)
Theorem reconcile_status (pods : list Pod) (m : Manager) (i : nat)
    (k : string) (info : ServerInfo) :
  running_servers m !! i = Some (k, info) ->
  exists info',
    running_servers (fst (get_status pods m)) !! i = Some (k, info') /\
    info_server_id info' = info_server_id info /\
    info_pod_name info' = info_pod_name info /\
    match find_pod pods (info_pod_name info) with
    | None => info_status info' = "not_found"
    | Some pod =>
        Pods.name pod = info_pod_name info /\
        (phase pod = Some "Running" ->
         (no_ready (conditions pod) -> info_status info' = "Starting") /\
         (forall pre c post,
            conditions pod = (pre ++ c :: post)%list ->
            no_ready pre -> cond_type c = Some "Ready" ->
            (cond_status c = Some "True" ->
             info_status info' = "Running") /\
            (cond_status c <> Some "True" ->
             info_status info' = "Starting"))) /\
        (phase pod = Some "Succeeded" -> info_status info' = "Completed") /\
        (phase pod = Some "Failed" -> info_status info' = "Failed") /\
        (phase pod = Some "Pending" ->
         (none_waiting (containerStatuses pod) ->
          info_status info' = "Pending") /\
         (forall pre w post,
            containerStatuses pod =
              (pre ++ {| state_waiting := Some w |} :: post)%list ->
            none_waiting pre -> waiting_truthy w = true ->
            info_status info' =
            "Pending (" +:+ default "Unknown" (reason w) +:+ ")"))
    end.
Proof.
  intros Hi. exists (refresh_one pods info). split.
  - unfold get_status, _refresh_server_statuses, set_running_servers.
    cbn [fst running_servers]. rewrite lookup_map, Hi. reflexivity.
  - unfold refresh_one.
    destruct (find_pod pods (info_pod_name info)) as [pod |] eqn:Hf; simpl;
      [| auto].
    split; [reflexivity |]. split; [reflexivity |].
    split.
    { apply find_some in Hf. destruct Hf as [_ Hf].
      apply String.eqb_eq in Hf. exact Hf. }
    rewrite get_pod_status_phase.
    split.
    { intros ->. simpl. split.
      - intros Hn. rewrite (ready_condition_none _ Hn). reflexivity.
      - intros pre c post -> Hpre Hc.
        rewrite (ready_condition_first pre c post Hpre Hc). split.
        + intros Hs. apply opt_str_eqb_true in Hs. rewrite Hs. reflexivity.
        + intros Hs. apply opt_str_eqb_false in Hs. rewrite Hs.
          reflexivity. }
    split; [intros ->; reflexivity |].
    split; [intros ->; reflexivity |].
    intros ->. simpl. split.
    + apply pending_status_none.
    + intros pre w post -> Hpre Hw. apply pending_status_first; assumption.
Qed.

End Reconcile.

Section ReconcileExamples.
Import Pods Sidecar.

(** The start request of the specification's first scenario. *)
Definition brave_config : ServerConfig :=
  {| server_type := "npx"; name := Some "brave";
     package := Some "@modelcontextprotocol/server-brave-search";
     command := None; args := []; env := [("BRAVE_API_KEY", "X")];
     transport := "stdio"; image := None; port := None; timeout := 300 |}.

(** A start at clock [t] (milliseconds) that the API accepts, echoing the
    pod name it was given. *)
Definition accepted (t : Z) (pod_name : string) : StartEnv :=
  {| validation_error := ""; clock_id := t; clock_pod := t;
     post_pod := ApiOk pod_name; clock_track := t; clock_archon := t;
     clock_log := t |}.

Definition one_brave : Manager :=
  fst (start_server (Some brave_config) (accepted 100000 "mcp-brave-100")
         (init default_sidecar_config)).

Definition succeeded_pod : Pod :=
  {| Pods.name := "mcp-brave-100"; phase := Some "Succeeded";
     conditions := []; containerStatuses := [] |}.

(** C4 as stated fails: a tracked instance whose pod is in phase Succeeded
    is recorded as "Completed", not as Stopped. *)
Lemma reconcile_status_counterexample :
  exists info,
    running_servers (fst (get_status [succeeded_pod] one_brave)) !! 0%nat
      = Some ("npx-brave-100", info) /\
    info_pod_name info = "mcp-brave-100" /\
    info_status info = "Completed" /\
    info_status info <> "Stopped" /\ info_status info <> "stopped".
Proof.
  eexists. split; [vm_compute; reflexivity |]. simpl.
  repeat split; discriminate.
Qed.

(** A pod in phase Running whose first condition of type Ready, the
    second of its conditions, has status True. *)
Definition running_pod : Pod :=
  {| Pods.name := "mcp-brave-100"; phase := Some "Running";
     conditions := [ {| cond_type := Some "PodScheduled";
                        cond_status := Some "True" |};
                     {| cond_type := Some "Ready";
                        cond_status := Some "True" |};
                     {| cond_type := Some "Ready";
                        cond_status := Some "False" |} ];
     containerStatuses := [] |}.

Lemma reconcile_status_witness :
  exists info',
    running_servers (fst (get_status [running_pod] one_brave)) !! 0%nat
      = Some ("npx-brave-100", info') /\
    info_status info' = "Running".
Proof.
  destruct (reconcile_status [running_pod] one_brave 0 "npx-brave-100"
              (snd (hd ("", {| info_server_id := ""; info_pod_name := "";
                               info_server_type := ""; info_name := None;
                               info_transport := ""; info_status := "";
                               info_start_time := 0;
                               info_config := brave_config;
                               info_ready := None |})
                       (running_servers one_brave))))
    as (info' & Hl & _ & _ & H).
  - vm_compute. reflexivity.
  - exists info'. split; [exact Hl |].
    destruct H as (_ & H & _).
    destruct (H eq_refl) as [_ H'].
    apply (H' [ {| cond_type := Some "PodScheduled";
                   cond_status := Some "True" |} ]
              {| cond_type := Some "Ready"; cond_status := Some "True" |}
              [ {| cond_type := Some "Ready";
                   cond_status := Some "False" |} ]);
      [reflexivity | | reflexivity | reflexivity].
    constructor; [discriminate | constructor].
Defined.

End ReconcileExamples.

(** ** The sidecar supervisor *)

Section Supervisor.
Import Sidecar.

Lemma running_servers_add_log now level msg m :
  running_servers (_add_log now level msg m) = running_servers m.
Proof. reflexivity. Qed.

Lemma running_servers_set_status s t m :
  running_servers (set_status s t m) = running_servers m.
Proof. reflexivity. Qed.

Lemma config_add_log now level msg m : config (_add_log now level msg m) = config m.
Proof. reflexivity. Qed.

(** Assignment to a dict either replaces the value at the first entry that
    has the key, or appends a new entry. *)
Lemma dict_set_cases {V} (k : string) (v : V) (d : list (string * V)) :
  (dict_get k d = None /\ dict_set k v d = (d ++ [(k, v)])%list) \/
  (exists d1 old d2,
     d = (d1 ++ (k, old) :: d2)%list /\
     dict_set k v d = (d1 ++ (k, v) :: d2)%list).
Proof.
  induction d as [| [k' v'] d IH]; simpl.
  - left. auto.
  - destruct (String.eqb k k') eqn:E.
    + apply String.eqb_eq in E. subst k'. right.
      exists [], v', d. auto.
    + destruct IH as [[Hn Hs] | (d1 & old & d2 & Hd & Hs)].
      * left. rewrite Hs. auto.
      * right. exists ((k', v') :: d1), old, d2. rewrite Hs, Hd. auto.
Qed.

(** Deletion removes at most the first entry that has the key. *)
Lemma dict_del_cases {V} (k : string) (d : list (string * V)) :
  dict_del k d = d \/
  (exists d1 old d2,
     d = (d1 ++ (k, old) :: d2)%list /\ dict_del k d = (d1 ++ d2)%list).
Proof.
  induction d as [| [k' v'] d IH]; simpl.
  - left. auto.
  - destruct (String.eqb k k') eqn:E.
    + apply String.eqb_eq in E. subst k'. right. exists [], v', d. auto.
    + destruct IH as [Hs | (d1 & old & d2 & Hd & Hs)].
      * left. rewrite Hs. auto.
      * right. exists ((k', v') :: d1), old, d2. rewrite Hs, Hd. auto.
Qed.

Lemma dict_set_length {V} (k : string) (v : V) (d : list (string * V)) :
  (length (dict_set k v d) <= S (length d))%nat.
Proof.
  destruct (dict_set_cases k v d) as [[_ ->] | (d1 & old & d2 & -> & ->)];
    rewrite ?length_app; simpl; lia.
Qed.

Lemma dict_del_length {V} (k : string) (d : list (string * V)) :
  (length (dict_del k d) <= length d)%nat.
Proof.
  destruct (dict_del_cases k d) as [-> | (d1 & old & d2 & -> & ->)];
    rewrite ?length_app; simpl; lia.
Qed.

(** [start_server] either leaves the tracked set alone or, below the limit,
    assigns one entry. *)
Lemma start_server_tracked cfg e m :
  running_servers (fst (start_server cfg e m)) = running_servers m \/
  (Z.of_nat (length (running_servers m)) < max_concurrent_servers (config m) /\
   exists k v,
     running_servers (fst (start_server cfg e m)) =
     dict_set k v (running_servers m)).
Proof.
  unfold start_server.
  destruct (validate _) as [c |]; [| left; reflexivity].
  destruct (Z.leb_spec (max_concurrent_servers (config m))
              (Z.of_nat (length (running_servers m)))) as [Hle | Hlt];
    [left; reflexivity |].
  destruct (if truthy_str (name c) then _ else _) as [| s ss];
    [| left; reflexivity].
  destruct (post_pod e) as [pn | code | text]; [| left; reflexivity ..].
  right. split; [exact Hlt |].
  eexists _, _. destruct (String.eqb (server_type c) "archon"); reflexivity.
Qed.

Lemma config_start_server cfg e m : config (fst (start_server cfg e m)) = config m.
Proof.
  unfold start_server.
  destruct (validate _) as [c |]; [| reflexivity].
  destruct (_ <=? _); [reflexivity |].
  destruct (if truthy_str (name c) then _ else _) as [| s ss]; [| reflexivity].
  destruct (post_pod e); [| reflexivity ..].
  destruct (String.eqb (server_type c) "archon"); reflexivity.
Qed.

Lemma config_stop_each e items acc :
  config (fst (fst (stop_each e items acc))) = config (fst (fst acc)).
Proof.
  revert acc. induction items as [| [sid info] items IH]; intros [[m n] errs];
    simpl; [reflexivity |].
  destruct (delete_pod e (info_pod_name info)); rewrite IH; reflexivity.
Qed.

Lemma stop_server_tracked sid e m :
  (exists k, running_servers (fst (stop_server sid e m)) =
             dict_del k (running_servers m)) \/
  running_servers (fst (stop_server sid e m)) = [] \/
  running_servers (fst (stop_server sid e m)) = running_servers m.
Proof.
  unfold stop_server. destruct (truthy_str sid).
  - destruct (dict_get _ _) as [info |]; [| right; right; reflexivity].
    destruct (delete_pod e _); [right; right; reflexivity |].
    left. exists (default "" sid).
    destruct (String.eqb (info_server_type info) "archon"); reflexivity.
  - right. left. destruct (stop_each _ _ _) as [[m' n] errs].
    destruct errs; reflexivity.
Qed.

Lemma config_stop_server sid e m : config (fst (stop_server sid e m)) = config m.
Proof.
  unfold stop_server. destruct (truthy_str sid).
  - destruct (dict_get _ _) as [info |]; [| reflexivity].
    destruct (delete_pod e _); [reflexivity |].
    destruct (String.eqb (info_server_type info) "archon"); reflexivity.
  - pose proof (config_stop_each e (running_servers m) (m, 0%nat, [])) as H.
    destruct (stop_each _ _ _) as [[m' n] errs]. simpl in H.
    destruct errs; simpl; exact H.
Qed.

Lemma config_step m o : config (fst (step m o)) = config m.
Proof.
  destruct o; simpl;
    [apply config_start_server | apply config_stop_server | reflexivity].
Qed.

Lemma run_snoc m os o :
  fst (run m (os ++ [o])) = fst (step (fst (run m os)) o).
Proof.
  revert m. induction os as [| o' os IH]; intros m; simpl.
  - destruct (step m o). reflexivity.
  - destruct (step m o') as [m1 r]. specialize (IH m1).
    destruct (run m1 (os ++ [o])), (run m1 os). simpl in *. exact IH.
Qed.

(** Induction over the states a sequence of calls goes through. *)
Lemma run_invariant (P : Manager -> Prop) m :
  P m -> (forall m o, P m -> P (fst (step m o))) ->
  forall os, P (fst (run m os)).
Proof.
  intros H0 Hstep os. induction os as [| o os IH] using rev_ind.
  - exact H0.
  - rewrite run_snoc. apply Hstep, IH.
Qed.

Lemma step_cap m o :
  Z.of_nat (length (running_servers m)) <= max_concurrent_servers (config m) ->
  0 <= max_concurrent_servers (config m) ->
  Z.of_nat (length (running_servers (fst (step m o))))
  <= max_concurrent_servers (config m).
Proof.
  intros Hm H0. destruct o as [cfg e | sid e | pods]; simpl.
  - destruct (start_server_tracked cfg e m) as [-> | (Hlt & k & v & ->)];
      [exact Hm |].
    pose proof (dict_set_length k v (running_servers m)). lia.
  - destruct (stop_server_tracked sid e m) as [(k & ->) | [-> | ->]];
      [| simpl; lia | exact Hm].
    pose proof (dict_del_length k (running_servers m)). lia.
  - rewrite length_map. exact Hm.
Qed.

End Supervisor.

(** ** Calls of the supervisor in flight *)

Section Interleaving.
Import Sidecar.

(** A call that nothing interrupts is its beginning followed by its end. *)
Lemma start_server_split cfg e m :
  start_server cfg e m =
  match start_server_begin cfg e m with
  | inl r => (m, r)
  | inr fr => start_server_end fr e m
  end.
Proof.
  unfold start_server, start_server_begin, start_server_end.
  destruct (validate _) as [c |]; [| reflexivity].
  destruct (_ <=? _); [reflexivity |].
  destruct (if truthy_str (name c) then _ else _) as [| s ss]; reflexivity.
Qed.

Lemma stop_one_split sid e key_error m :
  truthy_str (Some sid) = true ->
  stop_server (Some sid) e m =
  match stop_server_begin (Some sid) m with
  | (m', inl r) => (m', r)
  | (m', inr fr) =>
      match stop_server_end fr e key_error m' with
      | (m'', inl r) => (m'', r)
      | (m'', inr _) => (m'', error_response "")
      end
  end.
Proof.
  intros Ht. unfold stop_server, stop_server_begin. rewrite Ht.
  change (default "" (Some sid)) with sid.
  destruct (dict_get sid (running_servers m)) as [info |] eqn:Hg;
    [| reflexivity].
  unfold stop_server_end, dict_mem. rewrite Hg.
  destruct (delete_pod e _); reflexivity.
Qed.

(** What a frame tells of the manager it was made from. *)
Lemma start_server_begin_frame cfg e m fr :
  start_server_begin cfg e m = inr fr ->
  validate (default default_server_config cfg) = Some (frame_config fr) /\
  Z.of_nat (length (running_servers m)) < max_concurrent_servers (config m) /\
  (truthy_str (name (frame_config fr)) = true ->
   forall s, s ∈ dict_values (running_servers m) ->
             ~ (info_server_type s = server_type (frame_config fr) /\
                info_name s = name (frame_config fr))).
Proof.
  unfold start_server_begin.
  destruct (validate _) as [c |]; [| discriminate].
  destruct (Z.leb_spec (max_concurrent_servers (config m))
              (Z.of_nat (length (running_servers m)))) as [Hle | Hlt];
    [discriminate |].
  destruct (if truthy_str (name c) then _ else _) as [| s ss] eqn:Hex;
    [| discriminate].
  intros [= <-]. simpl. split; [reflexivity |]. split; [exact Hlt |].
  intros Ht s Hs [H1 H2]. rewrite Ht in Hex.
  assert (Hf : s ∈ filter
            (fun s => same_type_and_name (server_type c) (name c) s = true)
            (dict_values (running_servers m))).
  { apply list_elem_of_filter. split; [| exact Hs].
    unfold same_type_and_name.
    rewrite andb_true_iff, String.eqb_eq, bool_decide_eq_true. auto. }
  rewrite Hex in Hf. inversion Hf.
Qed.

(** The tracked set after a step that inserts nothing: as it was, without
    one entry, empty, or refreshed. *)
Definition shrinks (rs rs' : list (string * ServerInfo)) : Prop :=
  rs' = rs \/ (exists k, rs' = dict_del k rs) \/ rs' = [] \/
  (exists pods, rs' = map (fun kv => (fst kv, refresh_one pods (snd kv))) rs).

Lemma shrinks_length rs rs' : shrinks rs rs' -> (length rs' <= length rs)%nat.
Proof.
  intros [-> | [[k ->] | [-> | [pods ->]]]].
  - lia.
  - apply dict_del_length.
  - simpl. lia.
  - rewrite length_map. lia.
Qed.

Lemma stop_all_finish_effect n errs m :
  running_servers (stop_all_finish n errs m).1 = [] /\
  config (stop_all_finish n errs m).1 = config m.
Proof. unfold stop_all_finish. destruct errs; split; reflexivity. Qed.

Lemma stop_server_begin_effect sid m :
  config (stop_server_begin sid m).1 = config m /\
  shrinks (running_servers m) (running_servers (stop_server_begin sid m).1).
Proof.
  unfold stop_server_begin. destruct (truthy_str sid).
  - destruct (dict_get _ _); split; try reflexivity; left; reflexivity.
  - destruct (running_servers m) as [| [k info] rest] eqn:Hrs.
    + pose proof (stop_all_finish_effect 0 [] m) as [H1 H2].
      destruct (stop_all_finish 0 [] m) as [m' r]. simpl in *.
      split; [exact H2 |]. right. right. left. exact H1.
    + simpl. split; [reflexivity |]. left. exact Hrs.
Qed.

Lemma stop_server_end_effect fr e key_error m :
  config (stop_server_end fr e key_error m).1 = config m /\
  shrinks (running_servers m)
    (running_servers (stop_server_end fr e key_error m).1).
Proof.
  destruct fr as [sid info | sid info rest n errs]; simpl.
  - destruct (delete_pod e _); [split; [reflexivity | left; reflexivity] |].
    destruct (dict_mem sid (running_servers m));
      [| split; [reflexivity | left; reflexivity]].
    destruct (String.eqb (info_server_type info) "archon"); simpl;
      (split; [reflexivity | right; left; exists sid; reflexivity]).
  - destruct (delete_pod e _) as [text |].
    + destruct rest as [| [sid' info'] rest'].
      * pose proof (stop_all_finish_effect n
                      (errs ++ ["Failed to stop " +:+ sid +:+ ": " +:+ text])
                      m) as [H1 H2].
        destruct (stop_all_finish _ _ m) as [m' r]. simpl in *.
        split; [exact H2 |]. right. right. left. exact H1.
      * simpl. split; [reflexivity | left; reflexivity].
    + destruct rest as [| [sid' info'] rest'].
      * match goal with
        | |- context [stop_all_finish ?a ?b ?c] =>
            pose proof (stop_all_finish_effect a b c) as [H1 H2];
            destruct (stop_all_finish a b c) as [m' r]
        end.
        simpl in *. split; [exact H2 |]. right. right. left. exact H1.
      * simpl. split; [reflexivity | left; reflexivity].
Qed.

Lemma lookup_snoc {A} (l : list A) (x : A) (i : nat) (y : A) :
  (l ++ [x])%list !! i = Some y ->
  l !! i = Some y \/ (i = length l /\ y = x).
Proof.
  intros H. destruct (decide (i < length l)%nat) as [Hlt | Hge].
  - rewrite lookup_app_l in H by exact Hlt. left. exact H.
  - rewrite lookup_app_r in H by lia.
    destruct (i - length l)%nat eqn:E; simpl in H; [| discriminate].
    right. split; [lia | congruence].
Qed.

Lemma lookup_insert_other {A} (l : list A) (i j : nat) (x y : A) :
  <[i := x]> l !! j = Some y -> y <> x -> l !! j = Some y.
Proof.
  intros H Hne. destruct (decide (i = j)) as [<- | Hij].
  - destruct (decide (i < length l)%nat) as [Hlt | Hge].
    + rewrite list_lookup_insert_eq in H by exact Hlt. congruence.
    + rewrite list_insert_ge in H by lia. exact H.
  - rewrite list_lookup_insert_ne in H by exact Hij. exact H.
Qed.

(** One step either inserts nothing, and a start that waits after it
    waited before or has just begun; or it is the end of a start that
    waited, which assigns one entry of the type and name of its frame. *)
Lemma advance_cases m tasks ev :
  let w' := advance (m, tasks) ev in
  config w'.1 = config m /\
  ((shrinks (running_servers m) (running_servers w'.1) /\
    forall j fr e,
      w'.2 !! j = Some (StartWaiting fr e) ->
      tasks !! j = Some (StartWaiting fr e) \/
      (running_servers w'.1 = running_servers m /\
       exists cfg, start_server_begin cfg e m = inr fr)) \/
   (exists i fr e v r,
      tasks !! i = Some (StartWaiting fr e) /\
      running_servers w'.1 =
        dict_set (frame_server_id fr) v (running_servers m) /\
      info_server_type v = server_type (frame_config fr) /\
      info_name v = name (frame_config fr) /\
      w'.2 = <[i := Answered r]> tasks)).
Proof.
  destruct ev as [cfg e | sid e | pods | i key_error]; simpl.
  - destruct (start_server_begin cfg e m) as [r | fr] eqn:Hb; simpl;
      (split; [reflexivity |]); left; (split; [left; reflexivity |]);
      intros j fr' e' Hj; apply lookup_snoc in Hj;
      destruct Hj as [Hj | [_ Hj]]; auto; [discriminate |].
    inversion Hj; subst fr' e'. right. split; [reflexivity |].
    exists cfg. exact Hb.
  - pose proof (stop_server_begin_effect sid m) as [H1 H2].
    destruct (stop_server_begin sid m) as [m' [r | fr]]; simpl in *;
      (split; [exact H1 |]); left; (split; [exact H2 |]);
      intros j fr' e' Hj; apply lookup_snoc in Hj;
      destruct Hj as [Hj | [_ Hj]]; auto; discriminate.
  - split; [reflexivity |]. left. split.
    + right. right. right. exists pods. reflexivity.
    + intros j fr' e' Hj. apply lookup_snoc in Hj.
      destruct Hj as [Hj | [_ Hj]]; auto; discriminate.
  - destruct (tasks !! i) as [[fr e | fr e | r] |] eqn:Hi; simpl.
    + unfold start_server_end.
      destruct (post_pod e) as [pn | code | text]; simpl.
      * split; [destruct (String.eqb _ "archon"); reflexivity |].
        right. eexists i, fr, e, _, _. split; [exact Hi |].
        split; [destruct (String.eqb _ "archon"); reflexivity |].
        split; [reflexivity |]. split; reflexivity.
      * split; [reflexivity |]. left. split; [left; reflexivity |].
        intros j fr' e' Hj. left. eapply lookup_insert_other; [exact Hj |].
        discriminate.
      * split; [reflexivity |]. left. split; [left; reflexivity |].
        intros j fr' e' Hj. left. eapply lookup_insert_other; [exact Hj |].
        discriminate.
    + pose proof (stop_server_end_effect fr e key_error m) as [H1 H2].
      destruct (stop_server_end fr e key_error m) as [m' [r | fr2]];
        simpl in *; (split; [exact H1 |]); left; (split; [exact H2 |]);
        intros j fr' e' Hj; left;
        (eapply lookup_insert_other; [exact Hj | discriminate]).
    + split; [reflexivity |]. left. split; [left; reflexivity |]. auto.
    + split; [reflexivity |]. left. split; [left; reflexivity |]. auto.
Qed.

Lemma waiting_starts_cons t tasks :
  waiting_starts (t :: tasks) =
  ((if is_start_waiting t then 1 else 0) + waiting_starts tasks)%nat.
Proof. unfold waiting_starts. simpl. destruct (is_start_waiting t); reflexivity. Qed.

Lemma waiting_starts_pos tasks j fr e :
  tasks !! j = Some (StartWaiting fr e) -> (1 <= waiting_starts tasks)%nat.
Proof.
  revert j. induction tasks as [| t tasks IH]; intros [| j] Hj;
    try discriminate; rewrite waiting_starts_cons.
  - simpl in Hj. inversion Hj. simpl. lia.
  - simpl in Hj. specialize (IH j Hj). lia.
Qed.

(** Where at most one start waits, two waiting starts are the same call. *)
Lemma waiting_starts_unique tasks i j fr e fr' e' :
  (waiting_starts tasks <= 1)%nat ->
  tasks !! i = Some (StartWaiting fr e) ->
  tasks !! j = Some (StartWaiting fr' e') -> i = j.
Proof.
  revert i j. induction tasks as [| t tasks IH]; intros i j Hw Hi Hj;
    [destruct i; discriminate |].
  rewrite waiting_starts_cons in Hw.
  destruct i as [| i], j as [| j]; simpl in Hi, Hj.
  - reflexivity.
  - inversion Hi; subst t. simpl in Hw.
    pose proof (waiting_starts_pos tasks j fr' e' Hj). lia.
  - inversion Hj; subst t. simpl in Hw.
    pose proof (waiting_starts_pos tasks i fr e Hi). lia.
  - f_equal. apply IH; [lia | exact Hi | exact Hj].
Qed.

(** Induction over the states an interleaving goes through in which start
    calls do not overlap. *)
Lemma interleave_invariant (P : World -> Prop) :
  (forall w ev,
     P w -> (waiting_starts w.2 <= 1)%nat ->
     (waiting_starts (advance w ev).2 <= 1)%nat -> P (advance w ev)) ->
  forall evs w,
    P w -> (waiting_starts w.2 <= 1)%nat -> serial w evs = true ->
    P (interleave w evs).
Proof.
  intros Hstep evs. induction evs as [| ev evs IH]; intros w Hw Hc Hs;
    [exact Hw |].
  simpl in Hs. apply andb_true_iff in Hs. destruct Hs as [H1 H2].
  apply Nat.leb_le in H1. simpl. apply IH; [| exact H1 | exact H2].
  apply Hstep; assumption.
Qed.

(** Below the limit, with every waiting start having found the tracked set
    below the limit and nothing inserted since. *)
Definition cap_held (c : SidecarConfig) (w : World) : Prop :=
  config w.1 = c /\
  Z.of_nat (length (running_servers w.1)) <= max_concurrent_servers c /\
  forall j fr e,
    w.2 !! j = Some (StartWaiting fr e) ->
    Z.of_nat (length (running_servers w.1)) < max_concurrent_servers c.

Lemma cap_held_advance c w ev :
  cap_held c w -> (waiting_starts w.2 <= 1)%nat ->
  (waiting_starts (advance w ev).2 <= 1)%nat -> cap_held c (advance w ev).
Proof.
  destruct w as [m tasks]. intros (Hc & Hlen & Hwait) Hw _. simpl in *.
  destruct (advance_cases m tasks ev) as [Hcfg Hcases]. simpl in Hcfg, Hcases.
  split; [congruence |].
  destruct Hcases as [[Hsh Hold] | (i & fr & e & v & r & Hi & Hrs & _ & _ & Ht)].
  - pose proof (shrinks_length _ _ Hsh) as Hle. split; [lia |].
    intros j fr e Hj. destruct (Hold j fr e Hj) as [Hj' | [Heq [cfg Hb]]].
    + specialize (Hwait j fr e Hj'). lia.
    + apply start_server_begin_frame in Hb. destruct Hb as (_ & Hb & _).
      rewrite Heq. congruence.
  - pose proof (Hwait i fr e Hi) as Hlt. rewrite Hrs.
    pose proof (dict_set_length (frame_server_id fr) v (running_servers m)).
    split; [lia |].
    intros j fr' e' Hj. exfalso. rewrite Ht in Hj.
    assert (Hj' : tasks !! j = Some (StartWaiting fr' e'))
      by (eapply lookup_insert_other; [exact Hj | discriminate]).
    assert (i = j) by (eapply waiting_starts_unique; eassumption). subst j.
    rewrite list_lookup_insert_eq in Hj by (eapply lookup_lt_Some, Hi).
    discriminate.
Qed.

End Interleaving.

Section SupervisorCap.
Import Sidecar.

(** C7, as the code has it.  With a limit that is not negative, the tracked
    set has at most [max_concurrent_servers] entries after any interleaving
    of start, stop and status calls on a new manager in which start calls do
    not overlap (never do two of them wait for their pod-creation request at
    the same time), and so after any sequence of calls each of which ends
    before the next begins.  A start with a valid configuration that begins
    when the tracked set has reached the limit returns at once, changes
    nothing and answers success=false, status "error", message
    "Maximum concurrent servers (<limit>) reached". *)
Theorem concurrency_cap (c : SidecarConfig) :
  (0 <= max_concurrent_servers c ->
   (forall evs,
      serial (init c, []) evs = true ->
      Z.of_nat (length (running_servers (interleave (init c, []) evs).1))
      <= max_concurrent_servers c) /\
   (forall os,
      Z.of_nat (length (running_servers (fst (run (init c) os))))
      <= max_concurrent_servers c)) /\
  (forall m tasks cfg e,
     config m = c ->
     is_Some (validate (default default_server_config cfg)) ->
     max_concurrent_servers c <= Z.of_nat (length (running_servers m)) ->
     let r := {| success := false;
                 message := "Maximum concurrent servers (" +:+
                            pretty (max_concurrent_servers c) +:+ ") reached";
                 status := Some "error"; data := None; server_id := None |} in
     advance (m, tasks) (EvStart cfg e) = (m, (tasks ++ [Answered r])%list) /\
     start_server cfg e m = (m, r)).
Proof.
  split.
  - intros H0. split.
    + intros evs Hs.
      assert (H : cap_held c (interleave (init c, []) evs)).
      { apply (interleave_invariant (cap_held c)).
        - intros w ev. apply cap_held_advance.
        - split; [reflexivity |]. split; [simpl; lia |].
          intros j fr e Hj. discriminate.
        - simpl. unfold waiting_starts. simpl. lia.
        - exact Hs. }
      destruct H as (_ & H & _). exact H.
    + intros os.
      apply (run_invariant
               (fun m => config m = c /\
                         Z.of_nat (length (running_servers m))
                         <= max_concurrent_servers c)).
      * split; [reflexivity | simpl; lia].
      * intros m o [Hc Hm]. split.
        -- rewrite config_step. exact Hc.
        -- rewrite <- Hc in *. apply step_cap; assumption.
  - intros m tasks cfg e Hc [c' Hv] Hmax r.
    assert (Hb : start_server_begin cfg e m = inl r).
    { unfold start_server_begin. rewrite Hv, Hc.
      destruct (Z.leb_spec (max_concurrent_servers c)
                  (Z.of_nat (length (running_servers m)))); [| lia].
      reflexivity. }
    split.
    + simpl. rewrite Hb. reflexivity.
    + rewrite start_server_split, Hb. reflexivity.
Qed.

End SupervisorCap.

Section SupervisorCapExample.
Import Sidecar.

Definition cap_two : SidecarConfig :=
  {| namespace := "archon"; pod_name_prefix := "mcp";
     max_concurrent_servers := 2; cleanup_timeout := 30;
     health_check_interval := 30 |}.

Definition cap_one : SidecarConfig :=
  {| namespace := "archon"; pod_name_prefix := "mcp";
     max_concurrent_servers := 1; cleanup_timeout := 30;
     health_check_interval := 30 |}.

Definition named (t n p : string) : ServerConfig :=
  {| server_type := t; name := Some n; package := Some p; command := None;
     args := []; env := []; transport := "stdio"; image := None;
     port := None; timeout := 300 |}.

(** How each call was answered: with which success, or not yet. *)
Definition answer (t : Task) : option bool :=
  match t with Answered r => Some (success r) | _ => None end.

(** Two starts, the second beginning after the first has ended. *)
Definition one_by_one : list Event :=
  [EvStart (Some brave_config) (accepted 100000 "mcp-brave-100");
   EvAnswer 0 "";
   EvStart (Some (named "uv" "fetch" "mcp-server-fetch"))
           (accepted 103000 "mcp-fetch-103");
   EvAnswer 1 ""].

(** Two starts, the second beginning while the first waits for its POST. *)
Definition overlapping : list Event :=
  [EvStart (Some brave_config) (accepted 100000 "mcp-brave-100");
   EvStart (Some (named "uv" "fetch" "mcp-server-fetch"))
           (accepted 100400 "mcp-fetch-100");
   EvAnswer 0 ""; EvAnswer 1 ""].

(** The specification's second scenario: a limit of two, two servers
    running, a third start. *)
Lemma concurrency_cap_witness :
  let w := interleave (init cap_two, []) one_by_one in
  length (running_servers w.1) = 2%nat /\
  Z.of_nat (length (running_servers w.1)) <= 2 /\
  start_server (Some (named "npx" "git" "server-git"))
    (accepted 106000 "mcp-git-106") w.1 =
  (w.1, {| success := false;
           message := "Maximum concurrent servers (2) reached";
           status := Some "error"; data := None; server_id := None |}).
Proof.
  intros w.
  destruct (concurrency_cap cap_two) as [H1 H2].
  split; [vm_compute; reflexivity |]. split.
  - assert (H0 : 0 <= max_concurrent_servers cap_two) by (simpl; lia).
    destruct (H1 H0) as [H _]. apply (H one_by_one).
    vm_compute. reflexivity.
  - apply (H2 w.1 []).
    + vm_compute; reflexivity.
    + eexists. vm_compute. reflexivity.
    + vm_compute. discriminate.
Defined.

(** C7 as stated fails.  With a limit of one, two starts that overlap both
    find the tracked set empty and both insert: two instances are tracked
    and both calls answer success.  At the limit, a start with an invalid
    configuration (an npx server without a package) is answered with the
    validation error, not with the limit.  And a manager made with a negative
    limit tracks more than the limit from the outset. *)
Lemma concurrency_cap_counterexample :
  (let w := interleave (init cap_one, []) overlapping in
   max_concurrent_servers (config w.1) = 1 /\
   length (running_servers w.1) = 2%nat /\
   map answer w.2 = [Some true; Some true]) /\
  (let m := (interleave (init cap_one, [])
               [EvStart (Some brave_config) (accepted 100000 "mcp-brave-100");
                EvAnswer 0 ""]).1 in
   let invalid :=
     {| server_type := "npx"; name := Some "git"; package := None;
        command := None; args := []; env := []; transport := "stdio";
        image := None; port := None; timeout := 300 |} in
   let e := {| validation_error := "package is required for npx servers";
               clock_id := 106000; clock_pod := 106000;
               post_pod := ApiOk "mcp-git-106"; clock_track := 106000;
               clock_archon := 106000; clock_log := 106000 |} in
   Z.of_nat (length (running_servers m)) = max_concurrent_servers (config m) /\
   start_server (Some invalid) e m =
   (m, {| success := false;
          message := "Invalid server configuration: " +:+
                     "package is required for npx servers";
          status := Some "error"; data := None; server_id := None |})) /\
  (let c := {| namespace := "archon"; pod_name_prefix := "mcp";
               max_concurrent_servers := -1; cleanup_timeout := 30;
               health_check_interval := 30 |} in
   max_concurrent_servers (config (init c))
   < Z.of_nat (length (running_servers (init c)))).
Proof.
  split; [| split].
  - vm_compute. repeat split.
  - vm_compute. repeat split.
  - vm_compute. reflexivity.
Qed.

End SupervisorCapExample.

Section StartFailure.
Import Sidecar.

(** The POST of the pod ended with an exception. *)
Definition post_raises (e : StartEnv) : Prop :=
  match post_pod e with ApiOk _ => False | _ => True end.

(** C9.  When the pod-creation request raises, be it an HTTP status error
    or any other exception, [start_server] answers success=false, the
    tracked set is what it was before the call, and no server id other
    than that of an instance already tracked appears in the answer. *)
Theorem start_atomic_on_backend_failure (cfg : option ServerConfig)
    (e : StartEnv) (m : Manager) :
  post_raises e ->
  let (m', r) := start_server cfg e m in
  success r = false /\
  running_servers m' = running_servers m /\
  (server_id r = None \/
   exists s, In s (dict_values (running_servers m)) /\
             server_id r = Some (info_server_id s)).
Proof.
  unfold post_raises, start_server. intros Hp.
  destruct (validate _) as [c |]; [| simpl; auto].
  destruct (_ <=? _); [simpl; auto |].
  destruct (if truthy_str (name c) then _ else _) as [| s ss] eqn:Hex.
  - destruct (post_pod e); [contradiction | simpl; auto ..].
  - simpl. split; [reflexivity |]. split; [reflexivity |]. right.
    exists s. split; [| reflexivity].
    destruct (truthy_str (name c)); [| discriminate].
    assert (Hin : s ∈ filter
              (fun s => same_type_and_name (server_type c) (name c) s = true)
              (dict_values (running_servers m)))
      by (rewrite Hex; left).
    apply list_elem_of_filter in Hin. destruct Hin as [_ Hin].
    apply list_elem_of_In. exact Hin.
Qed.

(** The theorem at work: the API answers 403 and, on another try, the
    connection times out. *)
Lemma start_atomic_on_backend_failure_witness :
  let denied := {| validation_error := ""; clock_id := 200000;
                   clock_pod := 200000; post_pod := ApiHTTPStatusError 403;
                   clock_track := 200000; clock_archon := 200000;
                   clock_log := 200000 |} in
  let r := start_server (Some (named "uv" "fetch" "mcp-server-fetch")) denied
             one_brave in
  success (snd r) = false /\
  message (snd r) = "Kubernetes API error: 403" /\
  running_servers (fst r) = running_servers one_brave.
Proof.
  intros denied r.
  pose proof (start_atomic_on_backend_failure
                (Some (named "uv" "fetch" "mcp-server-fetch")) denied
                one_brave I) as H.
  fold r in H. destruct r as [m' resp] eqn:Hr.
  destruct H as (Hs & Ht & _).
  split; [exact Hs |]. split; [| exact Ht].
  assert (Hm : resp = snd r) by (rewrite Hr; reflexivity).
  rewrite Hm. vm_compute. reflexivity.
Defined.

End StartFailure.

Section SupervisorNames.
Import Sidecar.

(** The (type, name) under which an instance counts for the duplicate
    check: instances with no name, or the empty name, do not count. *)
Definition name_key (kv : string * ServerInfo) : option (string * string) :=
  match info_name (snd kv) with
  | Some n => if String.eqb n "" then None
              else Some (info_server_type (snd kv), n)
  | None => None
  end.

Definition names_distinct (rs : list (string * ServerInfo)) : Prop :=
  NoDup (omap name_key rs).

Lemma omap_map_same {A B} (f : A -> option B) (g : A -> A) (l : list A) :
  (forall x, f (g x) = f x) -> omap f (map g l) = omap f l.
Proof.
  intros H. induction l as [| x l IH]; simpl; [reflexivity |].
  rewrite H. destruct (f x); [f_equal |]; exact IH.
Qed.

Lemma names_distinct_refresh pods rs :
  names_distinct rs ->
  names_distinct (map (fun kv => (fst kv, refresh_one pods (snd kv))) rs).
Proof.
  unfold names_distinct. intros H. rewrite omap_map_same; [exact H |].
  intros [k s]. unfold name_key, refresh_one. simpl.
  destruct (find_pod _ _); reflexivity.
Qed.

Lemma names_distinct_del k rs :
  names_distinct rs -> names_distinct (dict_del k rs).
Proof.
  unfold names_distinct. intros H.
  destruct (dict_del_cases k rs) as [-> | (d1 & old & d2 & -> & ->)];
    [exact H |].
  rewrite omap_app in *. simpl in H.
  apply NoDup_app in H. destruct H as (H1 & H2 & H3).
  apply NoDup_app. split; [exact H1 |].
  destruct (name_key (k, old)).
  - apply NoDup_cons in H3. destruct H3 as [_ H3]. split; [| exact H3].
    intros x Hx Hx2. apply (H2 x Hx). right. exact Hx2.
  - split; [exact H2 | exact H3].
Qed.

Lemma names_distinct_set k v rs :
  names_distinct rs ->
  (forall z, name_key (k, v) = Some z -> z ∉ omap name_key rs) ->
  names_distinct (dict_set k v rs).
Proof.
  unfold names_distinct. intros H Hnew.
  destruct (dict_set_cases k v rs) as [[_ ->] | (d1 & old & d2 & -> & ->)].
  - rewrite omap_app. simpl. apply NoDup_app. split; [exact H |].
    destruct (name_key (k, v)) as [z |] eqn:Hz.
    + split; [| apply NoDup_singleton].
      intros x Hx Hx2. apply list_elem_of_singleton in Hx2. subst x.
      exact (Hnew z eq_refl Hx).
    + split; [| apply NoDup_nil_2]. intros x _ Hx. inversion Hx.
  - rewrite omap_app in *. simpl in *.
    assert (Hrest : NoDup (omap name_key d1 ++ omap name_key d2)).
    { apply NoDup_app in H. destruct H as (H1 & H2 & H3).
      apply NoDup_app. split; [exact H1 |].
      destruct (name_key (k, old)).
      - apply NoDup_cons in H3. destruct H3 as [_ H3]. split; [| exact H3].
        intros x Hx Hx2. apply (H2 x Hx). right. exact Hx2.
      - split; [exact H2 | exact H3]. }
    destruct (name_key (k, v)) as [z |] eqn:Hz; [| exact Hrest].
    assert (Hz1 : z ∉ omap name_key d1).
    { intros Hin. apply (Hnew z eq_refl). apply elem_of_app. left. exact Hin. }
    assert (Hz2 : z ∉ omap name_key d2).
    { intros Hin. apply (Hnew z eq_refl). apply elem_of_app. right.
      destruct (name_key (k, old)); [right |]; exact Hin. }
    apply NoDup_app in Hrest. destruct Hrest as (H1 & H2 & H3).
    apply NoDup_app. split; [exact H1 |]. split.
    + intros x Hx Hx2. apply elem_of_cons in Hx2. destruct Hx2 as [-> | Hx2].
      * exact (Hz1 Hx).
      * exact (H2 x Hx Hx2).
    + apply NoDup_cons. split; [exact Hz2 | exact H3].
Qed.

End SupervisorNames.

Section SupervisorDuplicates.
Import Sidecar.

Lemma same_type_and_name_spec t n s :
  same_type_and_name t n s = true <->
  info_server_type s = t /\ info_name s = n.
Proof.
  unfold same_type_and_name.
  rewrite andb_true_iff, String.eqb_eq, bool_decide_eq_true. tauto.
Qed.

Lemma name_key_some kv z :
  name_key kv = Some z <->
  exists n, info_name (snd kv) = Some n /\ truthy_str (Some n) = true /\
            z = (info_server_type (snd kv), n).
Proof.
  unfold name_key. destruct (info_name (snd kv)) as [n |]; simpl.
  - destruct (String.eqb n "") eqn:E; simpl; split.
    + discriminate.
    + intros (n' & Hn & Ht & _). inversion Hn; subst n'.
      rewrite E in Ht. discriminate.
    + intros [= <-]. exists n. rewrite E. auto.
    + intros (n' & Hn & _ & ->). inversion Hn; subst n'. reflexivity.
  - split; [discriminate | intros (n & Hn & _); discriminate].
Qed.

Lemma start_server_names cfg e m :
  names_distinct (running_servers m) ->
  names_distinct (running_servers (fst (start_server cfg e m))).
Proof.
  intros Hm. unfold start_server.
  destruct (validate _) as [c |]; [| exact Hm].
  destruct (_ <=? _); [exact Hm |].
  destruct (if truthy_str (name c) then _ else _) as [| s ss] eqn:Hex;
    [| exact Hm].
  destruct (post_pod e) as [pn | code | text]; [| exact Hm ..].
  match goal with
  | |- names_distinct (running_servers (fst (_add_log _ _ _ ?m', _))) =>
      change (names_distinct (running_servers m'))
  end.
  assert (Hset : forall k v,
            info_server_type v = server_type c -> info_name v = name c ->
            names_distinct (dict_set k v (running_servers m))).
  { intros k v Ht Hn. apply names_distinct_set; [exact Hm |].
    intros z Hz Hin.
    apply name_key_some in Hz. destruct Hz as (n & Hvn & Htr & ->).
    simpl in Hvn. rewrite Hn in Hvn.
    apply list_elem_of_omap in Hin. destruct Hin as (kv & Hkv & Hk).
    apply name_key_some in Hk. destruct Hk as (n' & Hn' & _ & Heq).
    inversion Heq; subst n'. clear Heq.
    rewrite Hvn in Hex. rewrite Htr in Hex.
    assert (Hf : snd kv ∈ filter
              (fun s => same_type_and_name (server_type c) (Some n) s = true)
              (dict_values (running_servers m))).
    { apply list_elem_of_filter. split.
      - apply same_type_and_name_spec. split; [congruence | exact Hn'].
      - apply list_elem_of_In. apply in_map. apply list_elem_of_In. exact Hkv. }
    rewrite Hex in Hf. inversion Hf. }
  destruct (String.eqb (server_type c) "archon"); apply Hset; reflexivity.
Qed.

Lemma stop_server_names sid e m :
  names_distinct (running_servers m) ->
  names_distinct (running_servers (fst (stop_server sid e m))).
Proof.
  intros Hm.
  destruct (stop_server_tracked sid e m) as [(k & ->) | [-> | ->]].
  - apply names_distinct_del, Hm.
  - apply NoDup_nil_2.
  - exact Hm.
Qed.

Lemma step_names m o :
  names_distinct (running_servers m) ->
  names_distinct (running_servers (fst (step m o))).
Proof.
  destruct o as [cfg e | sid e | pods]; simpl.
  - apply start_server_names.
  - apply stop_server_names.
  - apply names_distinct_refresh.
Qed.

(** Two entries with the same key of a list whose keys are distinct sit at
    the same place. *)
Lemma NoDup_omap_lookup {A B} (f : A -> option B) (l : list A) i j x y z :
  NoDup (omap f l) -> l !! i = Some x -> l !! j = Some y ->
  f x = Some z -> f y = Some z -> i = j.
Proof.
  revert i j. induction l as [| a l IH]; intros i j Hnd Hi Hj Hx Hy.
  - destruct i; discriminate.
  - assert (Hin : forall k w, l !! k = Some w -> f w = Some z ->
                              z ∈ omap f l).
    { intros k w Hk Hw. apply list_elem_of_omap. exists w. split; [| exact Hw].
      apply list_elem_of_lookup. exists k. exact Hk. }
    simpl in Hnd. destruct i as [| i], j as [| j]; simpl in Hi, Hj.
    + reflexivity.
    + inversion Hi; subst a. rewrite Hx in Hnd.
      apply NoDup_cons in Hnd. destruct Hnd as [Hnd _].
      exfalso. apply Hnd. eapply Hin; eassumption.
    + inversion Hj; subst a. rewrite Hy in Hnd.
      apply NoDup_cons in Hnd. destruct Hnd as [Hnd _].
      exfalso. apply Hnd. eapply Hin; eassumption.
    + f_equal. apply IH; try assumption.
      destruct (f a); [apply NoDup_cons in Hnd; tauto | exact Hnd].
Qed.

(** The (type, name) under which the instance of a waiting start will
    count for the duplicate check. *)
Definition frame_key (fr : StartFrame) : option (string * string) :=
  match name (frame_config fr) with
  | Some n => if String.eqb n "" then None
              else Some (server_type (frame_config fr), n)
  | None => None
  end.

Lemma name_key_of_frame k v fr :
  info_server_type v = server_type (frame_config fr) ->
  info_name v = name (frame_config fr) ->
  name_key (k, v) = frame_key fr.
Proof. unfold name_key, frame_key. simpl. intros -> ->. reflexivity. Qed.

Lemma absent_del k z rs :
  z ∉ omap name_key rs -> z ∉ omap name_key (dict_del k rs).
Proof.
  intros Hz Hin. apply Hz.
  destruct (dict_del_cases k rs) as [Heq | (d1 & old & d2 & Hrs & Heq)];
    rewrite Heq in Hin; [exact Hin |].
  rewrite Hrs. rewrite omap_app in *. apply elem_of_app in Hin.
  apply elem_of_app. destruct Hin as [Hin | Hin]; [left; exact Hin |].
  right. simpl. destruct (name_key (k, old)); [right |]; exact Hin.
Qed.

Lemma shrinks_names rs rs' :
  shrinks rs rs' -> names_distinct rs -> names_distinct rs'.
Proof.
  intros [-> | [[k ->] | [-> | [pods ->]]]] H.
  - exact H.
  - apply names_distinct_del, H.
  - apply NoDup_nil_2.
  - apply names_distinct_refresh, H.
Qed.

Lemma shrinks_absent rs rs' z :
  shrinks rs rs' -> z ∉ omap name_key rs -> z ∉ omap name_key rs'.
Proof.
  intros [-> | [[k ->] | [-> | [pods ->]]]] H.
  - exact H.
  - apply absent_del, H.
  - intros Hin. inversion Hin.
  - rewrite omap_map_same; [exact H |].
    intros [k s]. unfold name_key, refresh_one. simpl.
    destruct (find_pod _ _); reflexivity.
Qed.

(** A start that goes on to its POST found no tracked instance of its type
    and name. *)
Lemma start_server_begin_absent cfg e m fr z :
  start_server_begin cfg e m = inr fr -> frame_key fr = Some z ->
  z ∉ omap name_key (running_servers m).
Proof.
  intros Hb Hz Hin. apply start_server_begin_frame in Hb.
  destruct Hb as (_ & _ & Hb).
  unfold frame_key in Hz.
  destruct (name (frame_config fr)) as [n |] eqn:Hn; [| discriminate].
  destruct (String.eqb n "") eqn:En; [discriminate |].
  inversion Hz; subst z. clear Hz.
  apply list_elem_of_omap in Hin. destruct Hin as (kv & Hkv & Hk).
  apply name_key_some in Hk. destruct Hk as (n' & Hn' & _ & Heq).
  inversion Heq; subst n'. clear Heq.
  apply (Hb (f_equal negb En) (snd kv)).
  - apply list_elem_of_In. apply in_map. apply list_elem_of_In. exact Hkv.
  - split; [congruence | exact Hn'].
Qed.

(** No two tracked instances with a name share type and name, and no
    tracked instance has the type and name of a start that waits. *)
Definition names_held (w : World) : Prop :=
  names_distinct (running_servers w.1) /\
  forall j fr e z,
    w.2 !! j = Some (StartWaiting fr e) -> frame_key fr = Some z ->
    z ∉ omap name_key (running_servers w.1).

Lemma names_held_advance w ev :
  names_held w -> (waiting_starts w.2 <= 1)%nat ->
  (waiting_starts (advance w ev).2 <= 1)%nat -> names_held (advance w ev).
Proof.
  destruct w as [m tasks]. intros (Hnd & Hwait) Hw _.
  pose proof (advance_cases m tasks ev) as [_ Hcases]. cbv zeta in Hcases.
  set (w' := advance (m, tasks) ev) in *. simpl in Hnd, Hwait, Hw.
  unfold names_held.
  destruct Hcases as [[Hsh Hold] | (i & fr & e & v & r & Hi & Hrs & Hvt & Hvn & Ht)].
  - split; [eapply shrinks_names; eassumption |].
    intros j fr e z Hj Hz. destruct (Hold j fr e Hj) as [Hj' | [Heq [cfg Hb]]].
    + eapply shrinks_absent; [exact Hsh |]. eapply Hwait; eassumption.
    + rewrite Heq. eapply start_server_begin_absent; eassumption.
  - rewrite Hrs. split.
    + apply names_distinct_set; [exact Hnd |].
      intros z Hz. rewrite (name_key_of_frame _ _ fr Hvt Hvn) in Hz.
      eapply Hwait; eassumption.
    + intros j fr' e' z Hj _. exfalso. rewrite Ht in Hj.
      assert (Hj' : tasks !! j = Some (StartWaiting fr' e'))
        by (eapply lookup_insert_other; [exact Hj | discriminate]).
      assert (i = j) by (eapply waiting_starts_unique; eassumption). subst j.
      rewrite list_lookup_insert_eq in Hj by (eapply lookup_lt_Some, Hi).
      discriminate.
Qed.

(** C3, as the code has it.  A start with a valid configuration that has
    a name, beginning below the limit while an instance of that type and
    name is tracked (whatever its status), returns at once, changes nothing
    and answers success=false, status "running" and the server id of a
    tracked instance of that type and name.  Consequently no two tracked
    instances that have a name share type and name, after any interleaving
    of calls on a new manager in which start calls do not overlap (never do
    two of them wait for their pod-creation request at the same time), and
    so after any sequence of calls each of which ends before the next
    begins.  (Instances started without a name are not checked.) *)
Theorem duplicate_names (c : SidecarConfig) :
  (forall m tasks cfg cfg' e s,
     validate (default default_server_config cfg) = Some cfg' ->
     Z.of_nat (length (running_servers m)) < max_concurrent_servers (config m) ->
     truthy_str (name cfg') = true ->
     In s (dict_values (running_servers m)) ->
     info_server_type s = server_type cfg' -> info_name s = name cfg' ->
     exists s',
       In s' (dict_values (running_servers m)) /\
       info_server_type s' = server_type cfg' /\ info_name s' = name cfg' /\
       let r := {| success := false;
                   message := "Server " +:+ server_type cfg' +:+ ":" +:+
                              str_or (name cfg') "" +:+ " is already running";
                   status := Some "running"; data := None;
                   server_id := Some (info_server_id s') |} in
       advance (m, tasks) (EvStart cfg e) = (m, (tasks ++ [Answered r])%list) /\
       start_server cfg e m = (m, r)) /\
  (forall evs i j ki kj si sj,
     serial (init c, []) evs = true ->
     running_servers (interleave (init c, []) evs).1 !! i = Some (ki, si) ->
     running_servers (interleave (init c, []) evs).1 !! j = Some (kj, sj) ->
     truthy_str (info_name si) = true ->
     info_server_type si = info_server_type sj ->
     info_name si = info_name sj ->
     i = j) /\
  (forall os i j ki kj si sj,
     running_servers (fst (run (init c) os)) !! i = Some (ki, si) ->
     running_servers (fst (run (init c) os)) !! j = Some (kj, sj) ->
     truthy_str (info_name si) = true ->
     info_server_type si = info_server_type sj ->
     info_name si = info_name sj ->
     i = j).
Proof.
  assert (Hsame : forall rs i j ki kj si sj,
            names_distinct rs ->
            rs !! i = Some (ki, si) -> rs !! j = Some (kj, sj) ->
            truthy_str (info_name si) = true ->
            info_server_type si = info_server_type sj ->
            info_name si = info_name sj -> i = j).
  { intros rs i j ki kj si sj Hnd Hi Hj Htr Ht Hn.
    destruct (info_name si) as [n |] eqn:Hsi; [| discriminate].
    eapply (NoDup_omap_lookup name_key _ i j _ _ (info_server_type si, n));
      try eassumption.
    + apply name_key_some. exists n. simpl. auto.
    + apply name_key_some. exists n. simpl. rewrite <- Hn, <- Ht. auto. }
  split; [| split].
  - intros m tasks cfg cfg' e s Hv Hlt Htr Hin Ht Hn.
    assert (Hb : exists s',
              In s' (dict_values (running_servers m)) /\
              info_server_type s' = server_type cfg' /\
              info_name s' = name cfg' /\
              start_server_begin cfg e m =
              inl {| success := false;
                     message := "Server " +:+ server_type cfg' +:+ ":" +:+
                                str_or (name cfg') "" +:+
                                " is already running";
                     status := Some "running"; data := None;
                     server_id := Some (info_server_id s') |}).
    { unfold start_server_begin. rewrite Hv.
      destruct (Z.leb_spec (max_concurrent_servers (config m))
                  (Z.of_nat (length (running_servers m)))); [lia |].
      rewrite Htr.
      destruct (filter _ _) as [| s' ss] eqn:Hex.
      + exfalso.
        assert (Hf : s ∈ filter
                  (fun s => same_type_and_name (server_type cfg') (name cfg') s
                            = true)
                  (dict_values (running_servers m))).
        { apply list_elem_of_filter. split.
          - apply same_type_and_name_spec. auto.
          - apply list_elem_of_In. exact Hin. }
        rewrite Hex in Hf. inversion Hf.
      + exists s'.
        assert (Hf : s' ∈ filter
                  (fun s => same_type_and_name (server_type cfg') (name cfg') s
                            = true)
                  (dict_values (running_servers m)))
          by (rewrite Hex; left).
        apply list_elem_of_filter in Hf. destruct Hf as [Hs Hf].
        apply same_type_and_name_spec in Hs. destruct Hs as [Hs1 Hs2].
        apply list_elem_of_In in Hf. auto. }
    destruct Hb as (s' & H1 & H2 & H3 & Hb). exists s'.
    split; [exact H1 |]. split; [exact H2 |]. split; [exact H3 |].
    split.
    + simpl. rewrite Hb. reflexivity.
    + rewrite start_server_split, Hb. reflexivity.
  - intros evs i j ki kj si sj Hs. apply Hsame.
    assert (H : names_held (interleave (init c, []) evs)).
    { apply (interleave_invariant names_held).
      - apply names_held_advance.
      - split; [apply NoDup_nil_2 |]. intros j' fr e z Hj. discriminate.
      - simpl. unfold waiting_starts. simpl. lia.
      - exact Hs. }
    exact (proj1 H).
  - intros os i j ki kj si sj. apply Hsame.
    apply (run_invariant (fun m => names_distinct (running_servers m))).
    + apply NoDup_nil_2.
    + intros m o. apply step_names.
Qed.

End SupervisorDuplicates.

Section SupervisorExamples.
Import Sidecar.

Definition ready_pod (n : string) : Pods.Pod :=
  {| Pods.name := n; Pods.phase := Some "Running";
     Pods.conditions := [{| Pods.cond_type := Some "Ready";
                            Pods.cond_status := Some "True" |}];
     Pods.containerStatuses := [] |}.

(** What the examples look at in a tracked instance. *)
Definition summary (kv : string * ServerInfo)
  : string * string * string * option string * string :=
  (fst kv, info_pod_name (snd kv), info_server_type (snd kv),
   info_name (snd kv), info_status (snd kv)).

(** The specification's third scenario: (npx, "brave") is tracked and the
    same start is issued again. *)
Lemma duplicate_names_witness :
  let w := interleave (init default_sidecar_config, [])
             [EvStart (Some brave_config) (accepted 100000 "mcp-brave-100");
              EvAnswer 0 ""] in
  let r := start_server (Some brave_config) (accepted 105000 "mcp-brave-105")
             w.1 in
  (forall i j ki kj si sj,
     running_servers w.1 !! i = Some (ki, si) ->
     running_servers w.1 !! j = Some (kj, sj) ->
     truthy_str (info_name si) = true ->
     info_server_type si = info_server_type sj ->
     info_name si = info_name sj -> i = j) /\
  fst r = w.1 /\ success (snd r) = false /\
  status (snd r) = Some "running" /\
  server_id (snd r) = Some "npx-brave-100".
Proof.
  intros w r.
  destruct (duplicate_names default_sidecar_config) as (H1 & H2 & _).
  split.
  - intros i j ki kj si sj.
    apply (H2 [EvStart (Some brave_config) (accepted 100000 "mcp-brave-100");
               EvAnswer 0 ""] i j ki kj si sj).
    vm_compute. reflexivity.
  - destruct (H1 w.1 [] (Some brave_config) brave_config
                (accepted 105000 "mcp-brave-105")
                (snd (hd ("", {| info_server_id := ""; info_pod_name := "";
                                 info_server_type := ""; info_name := None;
                                 info_transport := ""; info_status := "";
                                 info_start_time := 0;
                                 info_config := brave_config;
                                 info_ready := None |})
                         (running_servers w.1))))
      as (s' & Hin & _ & _ & _ & Heq).
    + vm_compute. reflexivity.
    + vm_compute. reflexivity.
    + vm_compute. reflexivity.
    + vm_compute. left. reflexivity.
    + vm_compute. reflexivity.
    + vm_compute. reflexivity.
    + subst r. rewrite Heq. simpl.
      repeat split.
      vm_compute in Hin. destruct Hin as [<- | []]. reflexivity.
Defined.

(** C3 as stated fails.  The default Archon server (no name) is tracked and
    observed Running; a second start of the same configuration succeeds, and
    the next status call shows two Running instances of type archon with no
    name.  And two starts of (npx, "brave") that overlap, one second apart,
    both find nothing tracked and both insert: the next status call shows
    two Running instances of type npx named "brave". *)
Lemma duplicate_names_counterexample :
  (let m1 := fst (run (init default_sidecar_config)
                    [OpStart None (accepted 100000 "mcp-archon-100");
                     OpStatus [ready_pod "mcp-archon-100"]]) in
   let r := start_server None (accepted 105000 "mcp-archon-105") m1 in
   let m3 := fst (get_status [ready_pod "mcp-archon-100";
                              ready_pod "mcp-archon-105"] (fst r)) in
   map summary (running_servers m1) =
     [("archon-default-100", "mcp-archon-100", "archon", None, "Running")] /\
   success (snd r) = true /\
   server_id (snd r) = Some "archon-default-105" /\
   map summary (running_servers m3) =
     [("archon-default-100", "mcp-archon-100", "archon", None, "Running");
      ("archon-default-105", "mcp-archon-105", "archon", None, "Running")]) /\
  (let w := interleave (init default_sidecar_config, [])
              [EvStart (Some brave_config) (accepted 100000 "mcp-brave-100");
               EvStart (Some brave_config) (accepted 101000 "mcp-brave-101");
               EvAnswer 0 ""; EvAnswer 1 "";
               EvStatus [ready_pod "mcp-brave-100";
                         ready_pod "mcp-brave-101"]] in
   map answer (take 2 w.2) = [Some true; Some true] /\
   map summary (running_servers w.1) =
     [("npx-brave-100", "mcp-brave-100", "npx", Some "brave", "Running");
      ("npx-brave-101", "mcp-brave-101", "npx", Some "brave", "Running")]).
Proof. vm_compute. repeat split. Qed.

(** The id a successful start answers with. *)
Lemma server_id_format cfg cfg' e m :
  validate (default default_server_config cfg) = Some cfg' ->
  success (snd (start_server cfg e m)) = true ->
  server_id (snd (start_server cfg e m)) =
  Some (server_type cfg' +:+ "-" +:+ str_or (name cfg') "default" +:+ "-" +:+
        pretty (unix_seconds (clock_id e))).
Proof.
  unfold start_server. intros ->.
  destruct (_ <=? _); [discriminate |].
  destruct (if truthy_str (name cfg') then _ else _); [| discriminate].
  destruct (post_pod e); [reflexivity | discriminate ..].
Qed.

(** C8, the code at the failing input.  Within one second, an Archon
    server named "default" and an Archon server with no name are started;
    the API accepts both pods.  Both starts succeed and answer the same
    server id, and the tracked set holds one entry, that of the second pod:
    the first pod is no longer tracked. *)
Theorem server_id_collision :
  let named_default :=
    {| server_type := "archon"; name := Some "default"; package := None;
       command := None; args := []; env := []; transport := "sse";
       image := None; port := None; timeout := 300 |} in
  let r1 := start_server (Some named_default)
              (accepted 100200 "mcp-default-100")
              (init default_sidecar_config) in
  let r2 := start_server None (accepted 100700 "mcp-archon-100") (fst r1) in
  success (snd r1) = true /\ success (snd r2) = true /\
  server_id (snd r1) = Some "archon-default-100" /\
  server_id (snd r2) = Some "archon-default-100" /\
  map summary (running_servers (fst r1)) =
    [("archon-default-100", "mcp-default-100", "archon", Some "default",
      "starting")] /\
  map summary (running_servers (fst r2)) =
    [("archon-default-100", "mcp-archon-100", "archon", None, "starting")].
Proof. vm_compute. repeat split. Qed.

End SupervisorExamples.

(** ** The Docker manager *)

Section DockerLog.
Import Docker.

(** The exception [datetime.timezone] ends in. *)
Definition timezone_error : exn :=
  AttributeError "type object 'datetime.datetime' has no attribute 'timezone'".

Lemma add_log_raises now level msg m :
  _add_log now level msg m = (m, Raise timezone_error).
Proof. reflexivity. Qed.

(** The [try] statement of [start_server] never completes: whatever the
    container does, the handler that runs last calls [_add_log].  When the
    container was there and started, the start is on record. *)
Lemma start_container_raises e m :
  exists m',
    start_container e m = (m', Raise timezone_error) /\
    status m' = "failed" /\
    (container m <> None -> action_raises e = None ->
     _last_operation_time m' = time_operation e /\
     start_time m' = Some (time_started e)).
Proof.
  unfold start_container, try_except, container_action, bind, get. simpl.
  destruct (container m) as [c |].
  - destruct (action_raises e) as [x |]; simpl.
    + destruct (is_APIError x); simpl; eexists; split; try reflexivity;
        split; try reflexivity; intros _ [=].
    + eexists. split; [reflexivity |]. split; [reflexivity |]. auto.
  - simpl. eexists. split; [reflexivity |]. split; [reflexivity |].
    intros H. contradiction.
Qed.

Lemma stop_container_raises e m :
  stop_container e m = (set_status "stopping" m, Raise timezone_error).
Proof. reflexivity. Qed.

End DockerLog.

Section DockerFrame.
Import Docker.

(** A method that leaves the throttle interval alone and either leaves
    the recorded operation time alone or sets it to [t]. *)
Definition records {A} (t : Z) (c : M A) : Prop :=
  forall m,
    _min_operation_interval (fst (c m)) = _min_operation_interval m /\
    (_last_operation_time (fst (c m)) = _last_operation_time m \/
     _last_operation_time (fst (c m)) = t).

Lemma records_ret {A} t (a : A) : records t (ret a).
Proof. intros m. simpl. auto. Qed.

Lemma records_raise {A} t x : records t (@raise A x).
Proof. intros m. simpl. auto. Qed.

Lemma records_get t : records t get.
Proof. intros m. simpl. auto. Qed.

Lemma records_modify t f :
  (forall m, _min_operation_interval (f m) = _min_operation_interval m /\
             (_last_operation_time (f m) = _last_operation_time m \/
              _last_operation_time (f m) = t)) ->
  records t (modify f).
Proof. intros H m. simpl. apply H. Qed.

Lemma records_bind {A B} t (c : M A) (k : A -> M B) :
  records t c -> (forall a, records t (k a)) -> records t (bind c k).
Proof.
  intros Hc Hk m. unfold bind. specialize (Hc m).
  destruct (c m) as [m1 [a | x]]; simpl in *; [| exact Hc].
  specialize (Hk a m1). destruct Hc as [Hc1 Hc2], Hk as [Hk1 Hk2].
  split; [congruence |].
  destruct Hk2 as [Hk2 | Hk2]; [| right; exact Hk2].
  rewrite Hk2. exact Hc2.
Qed.

Lemma records_try {A} t (c : M A) clauses :
  records t c ->
  Forall (fun cl => forall x, records t (snd cl x)) clauses ->
  records t (try_except c clauses).
Proof.
  intros Hc Hcl m. unfold try_except. specialize (Hc m).
  destruct (c m) as [m1 [a | x]]; simpl in *; [exact Hc |].
  destruct (find_clause clauses x) as [h |] eqn:Hf; [| exact Hc].
  assert (Hh : records t (h x)).
  { clear Hc. induction Hcl as [| [p h'] cls H _ IH]; simpl in Hf;
      [discriminate |].
    destruct (p x); [inversion Hf; subst; apply H | apply IH, Hf]. }
  specialize (Hh m1). destruct Hc as [Hc1 Hc2], Hh as [Hh1 Hh2].
  split; [congruence |].
  destruct Hh2 as [Hh2 | Hh2]; [| right; exact Hh2].
  rewrite Hh2. exact Hc2.
Qed.

Lemma records_with_safe_span t e body :
  records t body -> records t (with_safe_span e body).
Proof.
  intros Hb m. unfold with_safe_span. specialize (Hb m).
  destruct (body m) as [m1 [a | x]]; simpl in *; [exact Hb |].
  destruct (span_suppresses e); exact Hb.
Qed.

Ltac records_step :=
  match goal with
  | |- records _ (ret _) => apply records_ret
  | |- records _ (raise _) => apply records_raise
  | |- records _ get => apply records_get
  | |- records _ (with_safe_span _ _) => apply records_with_safe_span
  | |- records _ (modify _) =>
      apply records_modify; intros ?; simpl; auto
  | |- records _ (bind _ _) => apply records_bind; [| intros ?]
  | |- records _ (try_except _ _) =>
      apply records_try;
      [| repeat (apply List.Forall_cons; [cbn [snd]; intros ? |]);
         try apply List.Forall_nil]
  | |- records _ (if ?b then _ else _) => destruct b
  | |- records _ (match ?x with _ => _ end) => destruct x
  end.

Lemma records_add_log t now level msg : records t (_add_log now level msg).
Proof. intros m. rewrite add_log_raises. simpl. auto. Qed.

Lemma records_resolve t g : records t (_resolve_container g).
Proof. unfold _resolve_container. repeat records_step. Qed.

Lemma records_initialize t e : records t (_initialize_docker_client e).
Proof.
  unfold _initialize_docker_client.
  repeat first [apply records_resolve | records_step].
Qed.

Lemma records_container_status t e : records t (_get_container_status e).
Proof.
  unfold _get_container_status.
  repeat first [apply records_resolve | apply records_initialize
               | records_step].
Qed.

Lemma records_docker_available t e u : records t (docker_available e u).
Proof.
  unfold docker_available.
  repeat first [apply records_initialize | records_step].
Qed.

Lemma records_start_container e :
  records (time_operation e) (start_container e).
Proof.
  unfold start_container, container_action, container_reload.
  repeat first [apply records_add_log | records_step].
Qed.

Lemma records_stop_container e :
  records (time_operation e) (stop_container e).
Proof.
  unfold stop_container, container_action.
  repeat first [apply records_add_log | records_step].
Qed.

Lemma records_step_op o : records (time_operation (op_env o)) (step o).
Proof.
  destruct o as [e | e]; simpl; unfold start_server, stop_server.
  - repeat first [apply records_docker_available
                 | apply records_container_status
                 | apply records_start_container | records_step].
  - repeat first [apply records_docker_available
                 | apply records_container_status
                 | apply records_stop_container | records_step].
Qed.

End DockerFrame.

Section DockerOutcome.
Import Docker.

(** A method that never returns a success. *)
Definition never_succeeds (c : M Response) : Prop :=
  forall m m' r, c m = (m', Ok r) -> success r = false.

(** A method that, when it moves the recorded operation time, ends with the
    exception of [_add_log]. *)
Definition raises_once_recorded {A} (c : M A) : Prop :=
  forall m m' res,
    c m = (m', res) ->
    _last_operation_time m' = _last_operation_time m \/
    res = Raise timezone_error.

Lemma never_succeeds_ret r : success r = false -> never_succeeds (ret r).
Proof. intros H m m' r' [= _ <-]. exact H. Qed.

Lemma never_succeeds_bind {A} (Q : A -> Prop) (c : M A) k :
  (forall m m1 a, c m = (m1, Ok a) -> Q a) ->
  (forall a, Q a -> never_succeeds (k a)) ->
  never_succeeds (bind c k).
Proof.
  intros Hc Hk m m' r. unfold bind.
  destruct (c m) as [m1 [a | x]] eqn:E; [| discriminate].
  apply (Hk a (Hc _ _ _ E)).
Qed.

Lemma never_succeeds_start_container e : never_succeeds (start_container e).
Proof.
  intros m m' r H. destruct (start_container_raises e m) as (m1 & E & _).
  rewrite E in H. discriminate.
Qed.

Lemma never_succeeds_stop_container e : never_succeeds (stop_container e).
Proof. intros m m' r H. rewrite stop_container_raises in H. discriminate. Qed.

Lemma docker_available_fails e u m m1 r :
  docker_available e u m = (m1, Ok (Some r)) -> success r = false.
Proof.
  unfold docker_available, bind.
  destruct (_initialize_docker_client e m) as [m0 [ok | x]]; [| discriminate].
  destruct ok; simpl.
  - destruct (docker_client m0); simpl; [discriminate |].
    intros [= _ <-]. reflexivity.
  - destruct (String.eqb _ _); intros [= _ <-]; reflexivity.
Qed.

Lemma never_succeeds_start_body e :
  never_succeeds
    (let! early :=
       docker_available e "Docker is not available. Is Docker socket mounted?"
     in match early with
        | Some r => ret r
        | None =>
            let! container_status := _get_container_status e in
            let! m := get in
            if String.eqb container_status "not_found" then
              ret (failure "not_found"
                     (Text ("MCP container " +:+
                            default "None" (container_name m) +:+
                            " not found. Run docker-compose up -d archon-mcp")))
            else if String.eqb container_status "running" then
              ret (failure "running" (Text "MCP server is already running"))
            else start_container e
        end).
Proof.
  apply (never_succeeds_bind
           (fun early => forall r, early = Some r -> success r = false)).
  - intros m m1 a H r ->. eapply docker_available_fails, H.
  - intros [r |] Hq.
    + apply never_succeeds_ret. apply Hq. reflexivity.
    + apply (never_succeeds_bind (fun _ => True)); [auto |]. intros s _.
      apply (never_succeeds_bind (fun _ => True)); [auto |]. intros m0 _.
      destruct (String.eqb s "not_found");
        [apply never_succeeds_ret; reflexivity |].
      destruct (String.eqb s "running");
        [apply never_succeeds_ret; reflexivity |].
      apply never_succeeds_start_container.
Qed.

Lemma start_server_never_succeeds e m m' r :
  start_server e m = (m', Ok (Some r)) -> success r = false.
Proof.
  unfold start_server. unfold bind at 1. unfold get at 1.
  destruct (_ <? _).
  - intros [= _ <-]. reflexivity.
  - unfold with_safe_span.
    match goal with
    | |- context [match ?body m with _ => _ end] =>
        destruct (body m) as [m1 [r1 | x]] eqn:E
    end.
    + intros [= _ <-]. eapply never_succeeds_start_body, E.
    + destruct (span_suppresses e); discriminate.
Qed.

Lemma raises_once_recorded_keeps {A} (c : M A) :
  (forall t, records t c) -> raises_once_recorded c.
Proof.
  intros H m m' res E. left.
  destruct (H (_last_operation_time m) m) as [_ Hl].
  rewrite E in Hl. simpl in Hl. tauto.
Qed.

Lemma raises_once_recorded_bind {A B} (c : M A) (k : A -> M B) :
  raises_once_recorded c -> (forall a, raises_once_recorded (k a)) ->
  raises_once_recorded (bind c k).
Proof.
  intros Hc Hk m m' res. unfold bind.
  destruct (c m) as [m1 [a | x]] eqn:E.
  - intros E2. destruct (Hc _ _ _ E) as [H1 | H1]; [| discriminate].
    destruct (Hk a _ _ _ E2) as [H2 | H2]; [left; congruence | right; exact H2].
  - intros [= <- <-]. destruct (Hc _ _ _ E) as [H | H]; [left; exact H |].
    right. inversion H. reflexivity.
Qed.

Lemma raises_once_recorded_start_container e :
  raises_once_recorded (start_container e).
Proof.
  intros m m' res E. right.
  destruct (start_container_raises e m) as (m1 & E1 & _).
  rewrite E1 in E. congruence.
Qed.

Lemma raises_once_recorded_stop_container e :
  raises_once_recorded (stop_container e).
Proof.
  intros m m' res E. right. rewrite stop_container_raises in E. congruence.
Qed.

Ltac once_recorded :=
  repeat match goal with
  | |- raises_once_recorded (start_container _) =>
      apply raises_once_recorded_start_container
  | |- raises_once_recorded (stop_container _) =>
      apply raises_once_recorded_stop_container
  | |- raises_once_recorded (docker_available _ _) =>
      apply raises_once_recorded_keeps; intros ?;
      apply records_docker_available
  | |- raises_once_recorded (_get_container_status _) =>
      apply raises_once_recorded_keeps; intros ?;
      apply records_container_status
  | |- raises_once_recorded get =>
      apply raises_once_recorded_keeps; intros ?; apply records_get
  | |- raises_once_recorded (ret _) =>
      apply raises_once_recorded_keeps; intros ?; apply records_ret
  | |- raises_once_recorded (bind _ _) =>
      apply raises_once_recorded_bind; [| intros ?]
  | |- raises_once_recorded (if ?b then _ else _) => destruct b
  | |- raises_once_recorded (match ?x with _ => _ end) => destruct x
  end.

(** Whatever a call does, if it moved the recorded operation time it did
    not return a response: the exception of [_add_log] left the block, and
    left the method unless the span swallowed it. *)
Lemma step_once_recorded o m m' res :
  step o m = (m', res) ->
  _last_operation_time m' <> _last_operation_time m ->
  res = if span_suppresses (op_env o) then Ok None else Raise timezone_error.
Proof.
  intros E Hne.
  assert (Hbody : forall body : M Response,
            raises_once_recorded body ->
            with_safe_span (op_env o) body m = (m', res) ->
            res = if span_suppresses (op_env o) then Ok None
                  else Raise timezone_error).
  { intros body Hb. unfold with_safe_span.
    destruct (body m) as [m1 [r1 | x]] eqn:Eb.
    - intros [= <- <-]. destruct (Hb _ _ _ Eb) as [H | H];
        [contradiction | discriminate].
    - destruct (Hb _ _ _ Eb) as [H | H].
      + destruct (span_suppresses _); intros [= <- <-]; contradiction.
      + inversion H; subst x.
        destruct (span_suppresses _); intros [= <- <-]; reflexivity. }
  destruct o as [e | e]; simpl in *; unfold start_server, stop_server in E;
    unfold bind at 1 in E; unfold get at 1 in E;
    (destruct (_ <? _);
     [inversion E; subst; contradiction |]);
    revert E; apply Hbody; once_recorded.
Qed.

End DockerOutcome.

Section DockerTheorems.
Import Docker.

(** A daemon that holds the container in status [s], and a call made at
    clock [t] that takes 50 ms to reach the container. *)
Definition daemon (t : Z) (s : string) : Env :=
  {| current_time := t; deployment_mode := ""; from_env_ok := true;
     get_at_init := GetFound s; reload_at_status := Reloaded s;
     get_at_status := GetFound s; action_raises := None;
     time_started := t + 50; time_operation := t + 50; time_log := t + 50;
     reload_after_start := Reloaded "running";
     container_id := "0123456789abcdef"; span_suppresses := false |}.

(** C10.  Every call of [_add_log] raises AttributeError, for [datetime]
    names the class, which has no attribute [timezone]; consequently
    [start_server] never returns a success, and its [try] statement never
    completes, whatever the container does.  The failure result that the
    claim expects, and that the [except] clauses of [start_server] build
    after their own call of [_add_log], is never returned once the
    container was reached: that call of [_add_log] raises again, so a call
    of [start_server] that put a start on record ends with the
    AttributeError (or, should the span swallow it, with None).  With the
    container stopped ("exited") and a daemon that starts it, the container
    is started, the start and the status "failed" are on record, and the
    call raises instead of returning the failure. *)
Theorem add_log_attribute_error :
  (forall now level msg m,
     _add_log now level msg m = (m, Raise timezone_error)) /\
  (forall e m m' r,
     start_server e m = (m', Ok (Some r)) -> success r = false) /\
  (forall e m,
     exists m',
       start_container e m = (m', Raise timezone_error) /\
       status m' = "failed" /\
       (container m <> None -> action_raises e = None ->
        _last_operation_time m' = time_operation e /\
        start_time m' = Some (time_started e))) /\
  (forall e m m' res,
     start_server e m = (m', res) ->
     _last_operation_time m' <> _last_operation_time m ->
     res = if span_suppresses e then Ok None else Raise timezone_error) /\
  (let r := start_server (daemon 10000 "exited") init in
   snd r = Raise timezone_error /\
   (forall resp, snd r <> Ok (Some resp)) /\
   _last_operation_time (fst r) = 10050 /\
   start_time (fst r) = Some 10050 /\
   status (fst r) = "failed").
Proof.
  split; [exact add_log_raises |].
  split; [exact start_server_never_succeeds |].
  split; [exact start_container_raises |].
  split.
  - intros e m m' res E Hne.
    exact (step_once_recorded (OpStart e) m m' res E Hne).
  - vm_compute. repeat split. intros resp. discriminate.
Qed.

Lemma add_log_attribute_error_witness :
  snd (start_server (daemon 10000 "exited") init) = Raise timezone_error.
Proof.
  destruct add_log_attribute_error as (_ & _ & _ & H & _).
  destruct (start_server (daemon 10000 "exited") init) as [m' res] eqn:E.
  simpl. apply (H (daemon 10000 "exited") init m' res E).
  assert (Hm : m' = fst (start_server (daemon 10000 "exited") init))
    by (rewrite E; reflexivity).
  rewrite Hm. vm_compute. discriminate.
Defined.

Lemma run_last_operation_time (L : Z) (os : list Op) :
  forall m,
    L <= _last_operation_time m ->
    Forall (fun o => L <= time_operation (op_env o)) os ->
    L <= _last_operation_time (fst (run m os)) /\
    _min_operation_interval (fst (run m os)) = _min_operation_interval m.
Proof.
  induction os as [| o os IH]; intros m HL Hos; simpl; [auto |].
  apply List.Forall_cons_iff in Hos. destruct Hos as [Ho Hos].
  destruct (records_step_op o m) as [Hi Hl].
  destruct (step o m) as [m1 r]. simpl in Hi, Hl.
  assert (HL1 : L <= _last_operation_time m1) by (destruct Hl; lia).
  destruct (IH m1 HL1 Hos) as [H1 H2].
  destruct (run m1 os) as [m2 rs]. simpl in *. split; [exact H1 | congruence].
Qed.

Lemma step_throttled o m :
  current_time (op_env o) - _last_operation_time m < _min_operation_interval m ->
  step o m =
  (m, Ok (Some (failure (status m)
                  (PleaseWait
                     (_min_operation_interval m -
                      (current_time (op_env o) - _last_operation_time m))
                     match o with
                     | OpStart _ => "starting"
                     | OpStop _ => "stopping"
                     end)))).
Proof.
  intros H. apply Z.ltb_lt in H.
  destruct o as [e | e]; simpl in *; unfold start_server, stop_server;
    unfold bind at 1; unfold get at 1; rewrite H; reflexivity.
Qed.

(** C1, as the code has it.  The Docker manager keeps one recorded
    operation time; a call changes it, if at all, to the clock it read on
    starting or stopping the container, and never changes the interval.
    As long as the clock does not go back behind the recorded time, a start
    or stop call that reads the clock less than the interval (2 s) after
    the recorded time, however many calls were made in between, changes
    nothing and returns the throttle failure carrying the remaining wait,
    which is positive. *)
Theorem throttle_window (m : Manager) (os : list Op) (o : Op) :
  (forall o' m0,
     _min_operation_interval (fst (step o' m0)) = _min_operation_interval m0 /\
     (_last_operation_time (fst (step o' m0)) = _last_operation_time m0 \/
      _last_operation_time (fst (step o' m0)) = time_operation (op_env o'))) /\
  (Forall (fun o' => _last_operation_time m <= time_operation (op_env o')) os ->
   current_time (op_env o) - _last_operation_time m
     < _min_operation_interval m ->
   let m' := fst (run m os) in
   let wait_time :=
     _min_operation_interval m' -
     (current_time (op_env o) - _last_operation_time m') in
   0 < wait_time /\
   step o m' =
   (m', Ok (Some (failure (status m')
                    (PleaseWait wait_time
                       match o with
                       | OpStart _ => "starting"
                       | OpStop _ => "stopping"
                       end))))).
Proof.
  split.
  - intros o' m0. apply records_step_op.
  - intros Hos Hlt m' wait_time.
    destruct (run_last_operation_time (_last_operation_time m) os m
                (Z.le_refl _) Hos) as [H1 H2].
    fold m' in H1, H2.
    assert (Hw : 0 < wait_time) by (unfold wait_time; lia).
    split; [exact Hw |].
    apply step_throttled. fold wait_time. lia.
Qed.

(** The fourth scenario of the specification on the Docker manager: a
    start that reaches the container, and 500 ms later a stop. *)
Lemma throttle_window_witness :
  let m := fst (start_server (daemon 10000 "exited") init) in
  stop_server (daemon 10500 "running") m =
  (m, Ok (Some (failure "failed" (PleaseWait 1550 "stopping")))).
Proof.
  intros m.
  destruct (throttle_window m [] (OpStop (daemon 10500 "running")))
    as [_ H].
  assert (H1 : Forall
            (fun o' => _last_operation_time m <= time_operation (op_env o'))
            []) by apply List.Forall_nil.
  assert (H2 : current_time (op_env (OpStop (daemon 10500 "running")))
               - _last_operation_time m < _min_operation_interval m)
    by (vm_compute; reflexivity).
  destruct (H H1 H2) as [_ E]. vm_compute in E. vm_compute. exact E.
Defined.

(** The claim C1 on a history: the clock readings of the calls, in order,
    and how each call ended. *)
Definition throttle_claim (times : list Z)
    (results : list (Result (option Response))) : Prop :=
  forall i j ti tj rj,
    (i < j)%nat -> times !! i = Some ti -> times !! j = Some tj ->
    results !! j = Some rj ->
    2000 <= tj - ti \/ throttled rj = true.

(** C1 as stated fails.  On the Docker manager, two starts 500 ms apart
    while the container is running both return "already running", neither
    the throttle failure; on the sidecar manager, which has no throttle, two
    starts 500 ms apart both succeed. *)
Lemma throttle_window_counterexample :
  let os := [OpStart (daemon 10000 "running");
             OpStart (daemon 10500 "running")] in
  snd (run init os) =
    [Ok (Some (failure "running" (Text "MCP server is already running")));
     Ok (Some (failure "running" (Text "MCP server is already running")))] /\
  ~ throttle_claim (map (fun o => current_time (op_env o)) os)
      (snd (run init os)) /\
  let r1 := Sidecar.start_server (Some brave_config)
              (accepted 100200 "mcp-brave-100")
              (Sidecar.init Sidecar.default_sidecar_config) in
  let r2 := Sidecar.start_server
              (Some (named "uv" "fetch" "mcp-server-fetch"))
              (accepted 100700 "mcp-fetch-100") (fst r1) in
  Sidecar.success (snd r1) = true /\ Sidecar.success (snd r2) = true.
Proof.
  intros os. split; [vm_compute; reflexivity |]. split.
  - intros H.
    destruct (H 0%nat 1%nat 10000 10500
                (Ok (Some (failure "running"
                             (Text "MCP server is already running")))))
      as [H1 | H1].
    + lia.
    + reflexivity.
    + reflexivity.
    + vm_compute. reflexivity.
    + lia.
    + discriminate.
  - vm_compute. split; reflexivity.
Qed.

End DockerTheorems.

(** ** Request/response correlation *)

Section AdapterCorrelation.
Import Protocol.

(** The state of a future is accounted for by a Response that was
    delivered with the id [x]. *)
Definition answered (log : list MCPMessage) (x : string) (f : Future) : Prop :=
  match f with
  | FResult v =>
      exists msg, msg ∈ log /\ type msg = RESPONSE /\ id msg = PStr x /\
                  result msg = v /\ truthy (error msg) = false
  | FException e =>
      exists msg, msg ∈ log /\ type msg = RESPONSE /\ id msg = PStr x /\
                  error msg = e /\ truthy e = true
  | _ => True
  end.

(** The way a call ended is accounted for: a result or an RPC error by a
    Response delivered with the call's own id, a failed send by
    [send_message] not having returned [True], a timeout by the timer having
    fired; and no call ends with CancelledError. *)
Definition outcome_answered (log : list MCPMessage) (c : Call) : Prop :=
  match call_result c with
  | Some (Returned v) => answered log (call_id c) (FResult v)
  | Some (RaisedRPCError e) => answered log (call_id c) (FException e)
  | Some RaisedSendFailed => call_sent c = false
  | Some RaisedTimeout => call_expired c = true
  | Some RaisedCancelled => False
  | None => True
  end.

(** What holds of the adapter and the calls in flight after the messages
    of [log] were delivered. *)
Record consistent (log : list MCPMessage) (s : System) : Prop := mkConsistent {
  cons_future :
    forall i c, s.2 !! i = Some c ->
    exists f, futures s.1 !! call_future c = Some f /\
              answered log (call_id c) f /\
              (f = FCancelled -> call_expired c = true);
  cons_result :
    forall i c, s.2 !! i = Some c -> outcome_answered log c;
  cons_distinct :
    forall i j ci cj, s.2 !! i = Some ci -> s.2 !! j = Some cj ->
    call_future ci = call_future cj -> i = j;
  cons_owner :
    forall x r, pending_requests s.1 !! x = Some r ->
    exists i c, s.2 !! i = Some c /\ call_future c = r /\ call_id c = x /\
                call_result c = None /\
                (futures s.1 !! r = Some FPending \/
                 futures s.1 !! r = Some FCancelled)
}.

Lemma answered_mono log l x f :
  answered log x f -> answered (log ++ l)%list x f.
Proof.
  destruct f; simpl; auto; intros (msg & Hin & H); exists msg;
    (split; [apply elem_of_app; left; exact Hin | exact H]).
Qed.

Lemma outcome_answered_mono log l c :
  outcome_answered log c -> outcome_answered (log ++ l)%list c.
Proof.
  unfold outcome_answered. destruct (call_result c) as [[v | | | e |] |]; auto;
    apply answered_mono.
Qed.

Lemma lookup_insert_cases {A} (l : list A) (i j : nat) (x y : A) :
  <[i := x]> l !! j = Some y ->
  (j = i /\ y = x) \/ (j <> i /\ l !! j = Some y).
Proof.
  intros H. destruct (decide (i = j)) as [<- | Hne].
  - left. split; [reflexivity |].
    destruct (decide (i < length l)%nat) as [Hlt | Hge].
    + rewrite list_lookup_insert_eq in H by exact Hlt. congruence.
    + rewrite list_insert_ge in H by lia.
      apply lookup_lt_Some in H. lia.
  - rewrite list_lookup_insert_ne in H by exact Hne. right. auto.
Qed.

Lemma lookup_delete_sub (x y : string) (p : gmap string nat) (f : nat) :
  delete x p !! y = Some f -> x <> y /\ p !! y = Some f.
Proof.
  intros H. destruct (decide (x = y)) as [-> | Hne].
  - rewrite lookup_delete_eq in H. discriminate.
  - rewrite lookup_delete_ne in H by exact Hne. auto.
Qed.

Lemma consistent_begin log a calls uuid now m ps :
  consistent log (a, calls) ->
  consistent log (step (a, calls) (EvBegin uuid now m ps)).
Proof.
  intros [Hf Hr Hd Ho]. simpl in *.
  assert (Hlen : forall i c, calls !! i = Some c ->
                             (call_future c < length (futures a))%nat).
  { intros i c Hc. destruct (Hf i c Hc) as (f & Hl & _).
    apply lookup_lt_Some in Hl. exact Hl. }
  constructor; simpl.
  - intros i c Hc. apply lookup_snoc in Hc. destruct Hc as [Hc | [-> ->]].
    + destruct (Hf i c Hc) as (f & Hl & Ha & Hcan). exists f.
      split; [| auto]. rewrite lookup_app_l; [exact Hl |].
      apply lookup_lt_Some in Hl. exact Hl.
    + exists FPending. simpl. split; [| split; [exact I | discriminate]].
      rewrite lookup_app_r by lia. rewrite Nat.sub_diag. reflexivity.
  - intros i c Hc. apply lookup_snoc in Hc. destruct Hc as [Hc | [-> ->]].
    + eapply Hr, Hc.
    + exact I.
  - intros i j ci cj Hi Hj Heq.
    apply lookup_snoc in Hi. apply lookup_snoc in Hj.
    destruct Hi as [Hi | [-> ->]], Hj as [Hj | [-> ->]].
    + eapply Hd; eassumption.
    + simpl in Heq. pose proof (Hlen i ci Hi). lia.
    + simpl in Heq. pose proof (Hlen j cj Hj). lia.
    + reflexivity.
  - intros x r Hx. destruct (decide (uuid = x)) as [<- | Hne].
    + rewrite lookup_insert_eq in Hx. inversion Hx; subst r.
      exists (length calls). eexists. split.
      { rewrite lookup_app_r by lia. rewrite Nat.sub_diag. reflexivity. }
      simpl. repeat split. left.
      rewrite lookup_app_r by lia. rewrite Nat.sub_diag. reflexivity.
    + rewrite lookup_insert_ne in Hx by exact Hne.
      destruct (Ho x r Hx) as (i & c & Hc & H1 & H2 & H3 & H4).
      exists i, c. split; [apply lookup_app_l_Some; exact Hc |].
      repeat split; try assumption.
      destruct H4 as [H4 | H4]; [left | right];
        apply lookup_app_l_Some; exact H4.
Qed.

(** One call is replaced by a frame with the same id and future, the
    futures of the other calls stay as they are, and no entry is added. *)
Lemma consistent_replace log a a' calls i c c' :
  consistent log (a, calls) -> calls !! i = Some c ->
  call_id c' = call_id c -> call_future c' = call_future c ->
  (exists f, futures a' !! call_future c = Some f /\
             answered log (call_id c) f /\
             (f = FCancelled -> call_expired c' = true)) ->
  (forall r, r <> call_future c -> futures a' !! r = futures a !! r) ->
  outcome_answered log c' ->
  (forall x r, pending_requests a' !! x = Some r ->
     pending_requests a !! x = Some r /\
     (r = call_future c ->
      call_result c' = None /\
      (futures a' !! r = Some FPending \/
       futures a' !! r = Some FCancelled))) ->
  consistent log (a', <[i := c']> calls).
Proof.
  intros [Hf Hr Hd Ho] Hi Hid Hfu H1 H2 H3 H4. simpl in *.
  constructor; simpl.
  - intros j cj Hj. apply lookup_insert_cases in Hj.
    destruct Hj as [[-> ->] | [Hne Hj]].
    + rewrite Hid, Hfu. exact H1.
    + destruct (Hf j cj Hj) as (f & Hl & Ha & Hcan). exists f.
      split; [| auto]. rewrite H2; [exact Hl |].
      intros Heq. apply Hne. eapply Hd; eassumption.
  - intros j cj Hj. apply lookup_insert_cases in Hj.
    destruct Hj as [[-> ->] | [Hne Hj]]; [exact H3 | eapply Hr, Hj].
  - intros j k cj ck Hj Hk Heq.
    apply lookup_insert_cases in Hj. apply lookup_insert_cases in Hk.
    destruct Hj as [[-> ->] | [Hj1 Hj2]], Hk as [[-> ->] | [Hk1 Hk2]].
    + reflexivity.
    + rewrite Hfu in Heq. eapply Hd; eassumption.
    + rewrite Hfu in Heq. eapply Hd; eassumption.
    + eapply Hd; eassumption.
  - intros x r Hx. destruct (H4 x r Hx) as [Hx' Hown].
    destruct (Ho x r Hx') as (k & ck & Hk & Hk1 & Hk2 & Hk3 & Hk4).
    destruct (decide (k = i)) as [-> | Hne].
    + rewrite Hi in Hk. inversion Hk; subst ck. clear Hk.
      destruct (Hown (eq_sym Hk1)) as [Hres Hst].
      exists i, c'. split.
      { apply list_lookup_insert_eq. eapply lookup_lt_Some, Hi. }
      repeat split; congruence.
    + exists k, ck. rewrite list_lookup_insert_ne by auto.
      repeat split; try assumption.
      rewrite H2; [exact Hk4 |].
      intros Heq. apply Hne. eapply Hd; [exact Hk | exact Hi | congruence].
Qed.

End AdapterCorrelation.

Section AdapterCorrelationSteps.
Import Protocol.

Lemma consistent_sent log a calls i success :
  consistent log (a, calls) ->
  consistent log (step (a, calls) (EvSent i success)).
Proof.
  intros Hc. pose proof Hc as [Hf Hr Hd Ho]. simpl in *.
  destruct (calls !! i) as [c |] eqn:Hi; [| exact Hc].
  destruct (call_result c) eqn:Hres; [exact Hc |].
  destruct (call_sent c) eqn:Hsent; [exact Hc |].
  destruct (Hf i c Hi) as (f & Hl & Ha & Hcan).
  unfold send_request_sent. destruct success; simpl.
  - apply (consistent_replace log a a calls i c (set_sent c) Hc Hi);
      try reflexivity.
    + exists f. auto.
    + unfold outcome_answered. simpl. rewrite Hres. exact I.
    + intros x r Hx. split; [exact Hx |]. intros ->.
      destruct (Ho x _ Hx) as (k & ck & Hk & Hk1 & Hk2 & Hk3 & Hk4).
      simpl. split; [exact Hres | exact Hk4].
  - apply (consistent_replace log a _ calls i c
             (end_call RaisedSendFailed c) Hc Hi); try reflexivity.
    + exists f. auto.
    + exact Hsent.
    + simpl. intros x r Hx. apply lookup_delete_sub in Hx.
      destruct Hx as [Hne Hx]. split; [exact Hx |]. intros ->.
      destruct (Ho x _ Hx) as (k & ck & Hk & Hk1 & Hk2 & Hk3 & Hk4).
      assert (k = i) by (eapply Hd; eassumption). subst k.
      rewrite Hi in Hk. inversion Hk; subst ck. congruence.
Qed.

Lemma consistent_timeout log a calls i :
  consistent log (a, calls) ->
  consistent log (step (a, calls) (EvTimeout i)).
Proof.
  intros Hc. pose proof Hc as [Hf Hr Hd Ho]. simpl in *.
  destruct (calls !! i) as [c |] eqn:Hi; [| exact Hc].
  destruct (call_result c) eqn:Hres; [exact Hc |].
  destruct (call_sent c) eqn:Hsent; [| exact Hc].
  destruct (call_expired c) eqn:Hexp; [exact Hc |].
  destruct (Hf i c Hi) as (f & Hl & Ha & Hcan).
  assert (Hlt : (call_future c < length (futures a))%nat)
    by (eapply lookup_lt_Some, Hl).
  unfold wait_for_timeout. rewrite Hl.
  assert (Hsame :
    consistent log (a, <[i := set_expired c]> calls)).
  { apply (consistent_replace log a a calls i c (set_expired c) Hc Hi);
      try reflexivity.
    - exists f. auto.
    - unfold outcome_answered. simpl. rewrite Hres. exact I.
    - intros x r Hx. split; [exact Hx |]. intros ->.
      destruct (Ho x _ Hx) as (k & ck & Hk & Hk1 & Hk2 & Hk3 & Hk4).
      simpl. split; [exact Hres | exact Hk4]. }
  destruct f as [| v | e |]; try exact Hsame.
  apply (consistent_replace log a _ calls i c (set_expired c) Hc Hi);
    try reflexivity.
  - exists FCancelled. simpl. split; [| auto].
    apply list_lookup_insert_eq. exact Hlt.
  - intros r Hne. simpl. apply list_lookup_insert_ne. auto.
  - unfold outcome_answered. simpl. rewrite Hres. exact I.
  - simpl. intros x r Hx. split; [exact Hx |]. intros ->.
    split; [exact Hres |]. right.
    apply list_lookup_insert_eq. exact Hlt.
Qed.

(** What [_handle_response] does to the futures and the pending map. *)
Lemma handle_response_effect message a :
  let a' := (_handle_response message a).1 in
  (pending_requests a' = pending_requests a /\ futures a' = futures a) \/
  (exists key r,
     id message = PStr key /\
     pending_requests a !! key = Some r /\
     pending_requests a' = delete key (pending_requests a) /\
     (futures a' = futures a \/
      (futures a !! r = Some FPending /\
       futures a' =
       <[r := if truthy (error message) then FException (error message)
              else FResult (result message)]> (futures a)))).
Proof.
  unfold _handle_response.
  destruct (id message) as [| b | n | key | l | d]; simpl; auto.
  destruct (pending_requests a !! key) as [r |] eqn:Hp; simpl; auto.
  right. exists key, r. split; [reflexivity |]. split; [exact Hp |].
  destruct (futures a !! r) as [[| v | e |] |] eqn:Hf; simpl; auto.
  destruct (truthy (error message)); simpl; auto.
Qed.

Lemma handle_incoming_effect now message a :
  let a' := (handle_incoming_message now message a).1 in
  (pending_requests a' = pending_requests a /\ futures a' = futures a) \/
  (exists key r,
     type message = RESPONSE /\
     id message = PStr key /\
     pending_requests a !! key = Some r /\
     pending_requests a' = delete key (pending_requests a) /\
     (futures a' = futures a \/
      (futures a !! r = Some FPending /\
       futures a' =
       <[r := if truthy (error message) then FException (error message)
              else FResult (result message)]> (futures a)))).
Proof.
  unfold handle_incoming_message.
  destruct (type message) eqn:Ht.
  - unfold _handle_request. simpl. left.
    destruct (str_of_key _); [| auto].
    destruct (lookup_handler _ _) as [h |]; [destruct (h _) |]; simpl; auto.
  - pose proof (handle_response_effect message
                  (set_message_queue
                     (deque_append 1000 (message_queue a) message) a))
      as [H | (key & r & H1 & H2 & H3 & H4)]; [left; exact H |].
    right. exists key, r. auto.
  - unfold _handle_notification. destruct (negb _); simpl; auto.
  - simpl. auto.
Qed.

Lemma consistent_incoming log a calls now message :
  consistent log (a, calls) ->
  consistent (log ++ [message])
    (step (a, calls) (EvIncoming now message)).
Proof.
  intros [Hf Hr Hd Ho]. simpl in *.
  assert (Hmono : forall i c, calls !! i = Some c ->
            exists f, futures a !! call_future c = Some f /\
                      answered (log ++ [message]) (call_id c) f /\
                      (f = FCancelled -> call_expired c = true)).
  { intros i c Hc. destruct (Hf i c Hc) as (f & Hl & Ha & Hcan).
    exists f. split; [exact Hl |]. split; [apply answered_mono, Ha | exact Hcan]. }
  destruct (handle_incoming_effect now message a)
    as [[Hp Hfut] | (key & r & Ht & Hid & Hpr & Hp & Hfut)].
  - constructor; simpl.
    + rewrite Hfut. exact Hmono.
    + intros i c Hc. apply outcome_answered_mono. eapply Hr, Hc.
    + exact Hd.
    + rewrite Hp, Hfut. exact Ho.
  - destruct (Ho _ _ Hpr) as (j & cj & Hj & Hj1 & Hj2 & Hj3 & Hj4).
    assert (Hsub : forall x g,
              delete key (pending_requests a) !! x = Some g ->
              pending_requests a !! x = Some g /\ g <> r).
    { intros x g Hx. apply lookup_delete_sub in Hx. destruct Hx as [Hne Hx].
      split; [exact Hx |]. intros ->.
      destruct (Ho _ _ Hx) as (k & ck & Hk & Hk1 & Hk2 & _).
      assert (k = j) by (eapply Hd; [exact Hk | exact Hj | congruence]).
      subst k. rewrite Hj in Hk. inversion Hk; subst ck. congruence. }
    constructor; simpl.
    + intros i c Hc. destruct (Hmono i c Hc) as (f & Hl & Ha & Hcan).
      destruct Hfut as [-> | [Hpend ->]]; [exists f; auto |].
      destruct (decide (r = call_future c)) as [-> | Hne].
      * assert (j = i) by (eapply Hd; [exact Hj | exact Hc | congruence]).
        subst j. rewrite Hc in Hj. inversion Hj; subst cj. clear Hj.
        eexists. split.
        { apply list_lookup_insert_eq. apply lookup_lt_Some in Hl. exact Hl. }
        rewrite <- Hj2 in Hid.
        destruct (truthy (error message)) eqn:He; simpl.
        -- split; [| discriminate]. exists message.
           split; [apply elem_of_app; right; left |]. auto.
        -- split; [| discriminate]. exists message.
           split; [apply elem_of_app; right; left |]. auto.
      * exists f. rewrite list_lookup_insert_ne by exact Hne. auto.
    + intros i c Hc. apply outcome_answered_mono. eapply Hr, Hc.
    + exact Hd.
    + intros x g Hx. rewrite Hp in Hx. apply Hsub in Hx.
      destruct Hx as [Hx Hne].
      destruct (Ho _ _ Hx) as (k & ck & Hk & Hk1 & Hk2 & Hk3 & Hk4).
      exists k, ck. repeat split; try assumption.
      destruct Hfut as [-> | [_ ->]]; [exact Hk4 |].
      rewrite list_lookup_insert_ne by auto. exact Hk4.
Qed.

Lemma consistent_end log a calls i :
  consistent log (a, calls) ->
  consistent log (step (a, calls) (EvEnd i)).
Proof.
  intros Hc. pose proof Hc as [Hf Hr Hd Ho]. simpl in *.
  destruct (calls !! i) as [c |] eqn:Hi; [| exact Hc].
  destruct (call_result c) eqn:Hres; [exact Hc |].
  destruct (call_sent c) eqn:Hsent; [| exact Hc].
  destruct (Hf i c Hi) as (f & Hl & Ha & Hcan).
  assert (Hpop : forall x r,
            delete (call_id c) (pending_requests a) !! x = Some r ->
            pending_requests a !! x = Some r /\
            (r = call_future c ->
             @None CallResult = None /\ False)).
  { intros x r Hx. apply lookup_delete_sub in Hx.
    destruct Hx as [Hne Hx]. split; [exact Hx |]. intros ->.
    destruct (Ho x _ Hx) as (k & ck & Hk & Hk1 & Hk2 & Hk3 & Hk4).
    assert (k = i) by (eapply Hd; eassumption). subst k.
    rewrite Hi in Hk. inversion Hk; subst ck. congruence. }
  unfold send_request_end. destruct (call_expired c) eqn:Hexp.
  - apply (consistent_replace log a _ calls i c
             (end_call RaisedTimeout c) Hc Hi); try reflexivity.
    + exists f. simpl. auto.
    + exact Hexp.
    + simpl. intros x r Hx. destruct (Hpop x r Hx) as [H1 H2].
      split; [exact H1 |]. intros Heq. destruct (H2 Heq) as [_ []].
  - rewrite Hl. destruct f as [| v | e |]; simpl.
    + exact Hc.
    + apply (consistent_replace log a a calls i c
               (end_call (Returned v) c) Hc Hi); try reflexivity.
      * exists (FResult v). simpl. split; [exact Hl |].
        split; [exact Ha | discriminate].
      * exact Ha.
      * intros x r Hx. split; [exact Hx |]. intros ->.
        destruct (Ho x _ Hx) as (k & ck & Hk & Hk1 & Hk2 & Hk3 & Hk4).
        rewrite Hl in Hk4. destruct Hk4; discriminate.
    + apply (consistent_replace log a _ calls i c
               (end_call (RaisedRPCError e) c) Hc Hi); try reflexivity.
      * exists (FException e). simpl. split; [exact Hl |].
        split; [exact Ha | discriminate].
      * exact Ha.
      * simpl. intros x r Hx. destruct (Hpop x r Hx) as [H1 H2].
        split; [exact H1 |]. intros Heq. destruct (H2 Heq) as [_ []].
    + discriminate (Hcan eq_refl).
Qed.

Lemma incoming_snoc es e :
  incoming (es ++ [e]) = (incoming es ++ incoming [e])%list.
Proof. unfold incoming. apply omap_app. Qed.

Lemma run_snoc_event s es e : run s (es ++ [e]) = step (run s es) e.
Proof. unfold run. rewrite fold_left_app. reflexivity. Qed.

Lemma consistent_run cid es : consistent (incoming es) (run (init cid, []) es).
Proof.
  induction es as [| e es IH] using rev_ind.
  - constructor; simpl; intros; discriminate.
  - rewrite run_snoc_event, incoming_snoc.
    destruct (run (init cid, []) es) as [a calls].
    destruct e as [uuid now m ps | i success | now message | i | i];
      simpl incoming; rewrite ?app_nil_r.
    + apply consistent_begin, IH.
    + apply consistent_sent, IH.
    + apply consistent_incoming, IH.
    + apply consistent_timeout, IH.
    + apply consistent_end, IH.
Qed.

(** A step puts the call of a starting [send_request] last and leaves the
    id of every call as it is. *)
Lemma step_call_ids s e :
  map call_id (step s e).2 = (map call_id s.2 ++ uuids [e])%list.
Proof.
  destruct s as [a calls].
  assert (Hins : forall i c c', calls !! i = Some c ->
            call_id c' = call_id c ->
            map call_id (<[i := c']> calls) = map call_id calls).
  { intros i c c' Hi Hid.
    change (map call_id (<[i := c']> calls)) with
      (call_id <$> <[i := c']> calls).
    rewrite list_fmap_insert, Hid. apply list_insert_id.
    rewrite list_lookup_fmap, Hi. reflexivity. }
  destruct e as [uuid now m ps | i success | now message | i | i]; simpl;
    rewrite ?app_nil_r; try reflexivity.
  - rewrite map_app. reflexivity.
  - destruct (calls !! i) as [c |] eqn:Hi; [| reflexivity].
    destruct (call_result c); [reflexivity |].
    destruct (call_sent c); [reflexivity |].
    unfold send_request_sent. destruct success; simpl;
      apply (Hins i c); auto.
  - destruct (calls !! i) as [c |] eqn:Hi; [| reflexivity].
    destruct (call_result c); [reflexivity |].
    destruct (call_sent c); [| reflexivity].
    destruct (call_expired c); [reflexivity |]. simpl.
    apply (Hins i c); auto.
  - destruct (calls !! i) as [c |] eqn:Hi; [| reflexivity].
    destruct (call_result c); [reflexivity |].
    destruct (call_sent c); [| reflexivity].
    destruct (send_request_end _ _ _ _) as [[a' r] |]; [| reflexivity].
    simpl. apply (Hins i c); auto.
Qed.

(** The calls, in the order they started, bear the ids that were drawn, in
    the order they were drawn. *)
Lemma run_call_ids cid es :
  map call_id (run (init cid, []) es).2 = uuids es.
Proof.
  induction es as [| e es IH] using rev_ind; [reflexivity |].
  rewrite run_snoc_event, step_call_ids, IH.
  unfold uuids. rewrite omap_app. reflexivity.
Qed.

Lemma call_id_drawn cid es i c :
  (run (init cid, []) es).2 !! i = Some c -> uuids es !! i = Some (call_id c).
Proof.
  intros Hi. rewrite <- (run_call_ids cid es), lookup_map, Hi. reflexivity.
Qed.

(** When no id is drawn twice, no two calls bear the same id. *)
Lemma call_ids_distinct cid es i j ci cj :
  NoDup (uuids es) ->
  (run (init cid, []) es).2 !! i = Some ci ->
  (run (init cid, []) es).2 !! j = Some cj ->
  i <> j -> call_id ci <> call_id cj.
Proof.
  intros Hnd Hi Hj Hne Heq. apply Hne.
  apply (call_id_drawn cid es) in Hi. apply (call_id_drawn cid es) in Hj.
  rewrite Heq in Hi. eapply NoDup_lookup; eassumption.
Qed.

(** Once a call has ended, nothing changes how it ended. *)
Lemma step_keeps_result s e i c r :
  s.2 !! i = Some c -> call_result c = Some r ->
  exists c', (step s e).2 !! i = Some c' /\
             call_id c' = call_id c /\ call_result c' = Some r.
Proof.
  destruct s as [a calls]. simpl. intros Hi Hr.
  assert (Hlt : (i < length calls)%nat) by (eapply lookup_lt_Some, Hi).
  assert (Hother : forall j cj cj', calls !! j = Some cj ->
            call_result cj = None ->
            exists c', <[j := cj']> calls !! i = Some c' /\
                       call_id c' = call_id c /\ call_result c' = Some r).
  { intros j cj cj' Hj Hrj. destruct (decide (j = i)) as [-> | Hne].
    - rewrite Hi in Hj. inversion Hj; subst cj. congruence.
    - exists c. rewrite list_lookup_insert_ne by exact Hne. auto. }
  destruct e as [uuid now m ps | j success | now message | j | j]; simpl.
  - exists c. split; [apply lookup_app_l_Some, Hi | auto].
  - destruct (calls !! j) as [cj |] eqn:Hj; [| exists c; auto].
    destruct (call_result cj) eqn:Hrj; [exists c; auto |].
    destruct (call_sent cj); [exists c; auto |].
    destruct (send_request_sent _ _ _) as [a' [r' |]]; simpl;
      eapply Hother; eassumption.
  - exists c. auto.
  - destruct (calls !! j) as [cj |] eqn:Hj; [| exists c; auto].
    destruct (call_result cj) eqn:Hrj; [exists c; auto |].
    destruct (call_sent cj); [| exists c; auto].
    destruct (call_expired cj); [exists c; auto |]. simpl.
    eapply Hother; eassumption.
  - destruct (calls !! j) as [cj |] eqn:Hj; [| exists c; auto].
    destruct (call_result cj) eqn:Hrj; [exists c; auto |].
    destruct (call_sent cj); [| exists c; auto].
    destruct (send_request_end _ _ _ _) as [[a' r'] |]; [| exists c; auto].
    simpl. eapply Hother; eassumption.
Qed.

(** A call that has not ended can always end: once [send_message] has
    returned to it and the timeout of its wait has fired, it ends when it
    resumes (with the failed send, or with TimeoutError at the latest). *)
Lemma end_resolves s i c success :
  s.2 !! i = Some c -> call_result c = None ->
  exists c', (run s [EvSent i success; EvTimeout i; EvEnd i]).2 !! i
             = Some c' /\
             call_id c' = call_id c /\ is_Some (call_result c').
Proof.
  destruct s as [a calls]. simpl. intros Hi Hr.
  assert (Hlt : (i < length calls)%nat) by (eapply lookup_lt_Some, Hi).
  rewrite Hi, Hr.
  assert (Hend : forall a1 calls1 c1,
            calls1 !! i = Some c1 -> call_id c1 = call_id c ->
            call_result c1 = None -> call_sent c1 = true ->
            exists c', (run (a1, calls1) [EvTimeout i; EvEnd i]).2 !! i
                       = Some c' /\
                       call_id c' = call_id c /\ is_Some (call_result c')).
  { intros a1 calls1 c1 H1 Hid Hr1 Hs1. simpl. rewrite H1, Hr1, Hs1.
    assert (Hlt1 : (i < length calls1)%nat) by (eapply lookup_lt_Some, H1).
    destruct (call_expired c1) eqn:Hexp; simpl.
    - rewrite H1, Hr1, Hs1. unfold send_request_end. rewrite Hexp. simpl.
      eexists. split; [apply list_lookup_insert_eq, Hlt1 |]. simpl. eauto.
    - rewrite list_lookup_insert_eq by exact Hlt1. simpl. rewrite Hr1, Hs1.
      simpl. eexists. split.
      + apply list_lookup_insert_eq. rewrite length_insert. exact Hlt1.
      + simpl. eauto. }
  destruct (call_sent c) eqn:Hs.
  - apply (Hend a calls c Hi eq_refl Hr Hs).
  - unfold send_request_sent. destruct success; simpl.
    + apply (Hend a (<[i := set_sent c]> calls) (set_sent c)).
      * apply list_lookup_insert_eq. exact Hlt.
      * reflexivity.
      * exact Hr.
      * reflexivity.
    + rewrite list_lookup_insert_eq by exact Hlt. simpl.
      rewrite list_lookup_insert_eq by exact Hlt. simpl.
      eexists. split; [apply list_lookup_insert_eq, Hlt |]. simpl. eauto.
Qed.

End AdapterCorrelationSteps.

Section BridgeCorrelation.
Import Bridge.

(** What holds of the bridge and the calls in flight after the events
    [es]: every queued line was put by the stdout reader, and every call
    that returned a response returned a line the reader put, an object whose
    id is the call's own request id. *)
Record bridge_consistent (lines : list Line) (s : System) : Prop :=
  mkBridgeConsistent {
  bc_queue :
    forall cid conn l, active_connections s.1 !! cid = Some conn ->
    l ∈ stdout_queue conn -> l ∈ lines;
  bc_call :
    forall i c r, s.2 !! i = Some c -> returned c = Some (Some r) ->
    dict_get "id" r = Some (PStr (request_id c)) /\ Json (PDict r) ∈ lines
}.

Lemma matches_id request_id r :
  matches request_id (Some r) = true ->
  dict_get "id" r = Some (PStr request_id).
Proof.
  unfold matches. destruct r as [| kv r]; [discriminate |].
  destruct (dict_get "id" (kv :: r)) as [[| | | i | |] |]; try discriminate.
  intros H. apply String.eqb_eq in H. subst i. reflexivity.
Qed.

Lemma lookup_set_connection cid conn b x conn' :
  active_connections (set_connection cid conn b) !! x = Some conn' ->
  (x = cid /\ conn' = conn) \/ active_connections b !! x = Some conn'.
Proof.
  simpl. destruct (decide (cid = x)) as [<- | Hne].
  - rewrite lookup_insert_eq. intros [= <-]. auto.
  - rewrite lookup_insert_ne by exact Hne. auto.
Qed.

Lemma bridge_consistent_mono lines l s :
  bridge_consistent lines s -> bridge_consistent (lines ++ l) s.
Proof.
  intros [Hq Hc]. constructor.
  - intros cid conn x H1 H2. apply elem_of_app. left. eapply Hq; eassumption.
  - intros i c r H1 H2. destruct (Hc i c r H1 H2) as [H3 H4].
    split; [exact H3 | apply elem_of_app; left; exact H4].
Qed.

Lemma receive_message_effect cid b :
  let '(b', response) := receive_message cid b in
  (forall x conn' l, active_connections b' !! x = Some conn' ->
                     l ∈ stdout_queue conn' ->
                     exists conn, active_connections b !! x = Some conn /\
                                  l ∈ stdout_queue conn) /\
  (forall r, response = Some r ->
             exists conn, active_connections b !! cid = Some conn /\
                          Json (PDict r) ∈ stdout_queue conn).
Proof.
  unfold receive_message.
  destruct (active_connections b !! cid) as [conn |] eqn:Hc;
    [| split; [eauto | discriminate]].
  destruct (negb _); [split; [eauto | discriminate] |].
  destruct (stdout_queue conn) as [| line rest] eqn:Hq;
    [split; [eauto | discriminate] |].
  split.
  - intros x conn' l Hx Hl. apply lookup_set_connection in Hx.
    destruct Hx as [[-> ->] | Hx]; [| eauto].
    exists conn. split; [exact Hc |]. rewrite Hq. right. exact Hl.
  - intros r Hr. exists conn. split; [reflexivity |]. rewrite Hq.
    destruct line as [[| | | | | d] |]; try discriminate.
    inversion Hr; subst d. left.
Qed.

Lemma send_message_effect cid message exec_ok b x conn' l :
  active_connections (send_message cid message exec_ok b).1 !! x = Some conn' ->
  l ∈ stdout_queue conn' ->
  exists conn, active_connections b !! x = Some conn /\ l ∈ stdout_queue conn.
Proof.
  unfold send_message.
  destruct (active_connections b !! cid) as [conn |] eqn:Hc; [| eauto].
  destruct (negb _); [eauto |]. simpl fst. intros Hx Hl.
  apply lookup_set_connection in Hx. destruct Hx as [[-> ->] | Hx]; eauto.
Qed.

Lemma bridge_consistent_step lines s e :
  bridge_consistent lines s ->
  bridge_consistent (lines ++ puts [e]) (step s e).
Proof.
  destruct s as [b calls].
  destruct e as [pod t | cid line | cid | cid uuid m ps t exec_ok now | i now];
    simpl puts; rewrite ?app_nil_r; intros Hb; pose proof Hb as [Hq Hc];
    simpl in *.
  - constructor; simpl; [| exact Hc].
    intros x conn' l Hx Hl. unfold create_stdio_connection in Hx.
    apply lookup_set_connection in Hx. destruct Hx as [[-> ->] | Hx].
    + inversion Hl.
    + eapply Hq; eassumption.
  - apply (bridge_consistent_mono _ [line]) in Hb. destruct Hb as [Hq' Hc'].
    constructor; simpl; [| exact Hc'].
    intros x conn' l Hx Hl. unfold put_stdout in Hx.
    destruct (active_connections b !! cid) as [conn |] eqn:Hcid;
      [| eapply Hq'; eassumption].
    apply lookup_set_connection in Hx. destruct Hx as [[-> ->] | Hx];
      [| eapply Hq'; eassumption].
    simpl in Hl. apply elem_of_app in Hl. destruct Hl as [Hl | Hl].
    + eapply Hq'; eassumption.
    + apply elem_of_app. right. exact Hl.
  - constructor; simpl; [| exact Hc].
    intros x conn' l Hx Hl. destruct (decide (cid = x)) as [<- | Hne].
    + rewrite lookup_delete_eq in Hx. discriminate.
    + rewrite lookup_delete_ne in Hx by exact Hne. eapply Hq; eassumption.
  - unfold send_request_begin.
    match goal with
    | |- context [send_message cid ?msg exec_ok b] =>
        pose proof (send_message_effect cid msg exec_ok b) as Hs;
        destruct (send_message cid msg exec_ok b) as [b' ok]
    end.
    simpl in Hs.
    assert (Hq' : forall x conn' l, active_connections b' !! x = Some conn' ->
                                    l ∈ stdout_queue conn' -> l ∈ lines).
    { intros x conn' l Hx Hl. destruct (Hs x conn' l Hx Hl) as (conn & H1 & H2).
      eapply Hq; eassumption. }
    destruct ok; simpl; constructor; simpl; try exact Hq';
      intros j c r Hj Hr; apply lookup_snoc in Hj;
      (destruct Hj as [Hj | [-> ->]]; [eapply Hc; eassumption |]);
      simpl in Hr; discriminate.
  - destruct (calls !! i) as [c |] eqn:Hi; [| exact Hb].
    unfold send_request_iter.
    destruct (returned c) eqn:Hr; [|].
    { constructor; simpl; [exact Hq |].
      intros j c' r Hj Hr'. destruct (decide (i = j)) as [<- | Hne].
      - rewrite list_lookup_insert_eq in Hj by (eapply lookup_lt_Some, Hi).
        inversion Hj; subst c'. eapply Hc; eassumption.
      - rewrite list_lookup_insert_ne in Hj by exact Hne.
        eapply Hc; eassumption. }
    destruct (_ <? _).
    + pose proof (receive_message_effect (connection_id c) b) as He.
      destruct (receive_message (connection_id c) b) as [b' response].
      destruct He as [He1 He2].
      assert (Hq' : forall x conn' l,
                active_connections b' !! x = Some conn' ->
                l ∈ stdout_queue conn' -> l ∈ lines).
      { intros x conn' l Hx Hl.
        destruct (He1 x conn' l Hx Hl) as (conn & H1 & H2).
        eapply Hq; eassumption. }
      destruct (matches (request_id c) response) eqn:Hm; simpl;
        constructor; simpl; try exact Hq';
        intros j c' r Hj Hr'; (destruct (decide (i = j)) as [<- | Hne];
          [rewrite list_lookup_insert_eq in Hj by (eapply lookup_lt_Some, Hi);
           inversion Hj; subst c'
          | rewrite list_lookup_insert_ne in Hj by exact Hne;
            eapply Hc; eassumption]).
      * simpl in Hr'. inversion Hr'; subst response. split.
        -- apply matches_id. exact Hm.
        -- destruct (He2 r eq_refl) as (conn & H1 & H2).
           eapply Hq; eassumption.
      * rewrite Hr in Hr'. discriminate.
    + simpl. constructor; simpl; [exact Hq |].
      intros j c' r Hj Hr'. destruct (decide (i = j)) as [<- | Hne].
      * rewrite list_lookup_insert_eq in Hj by (eapply lookup_lt_Some, Hi).
        inversion Hj; subst c'. simpl in Hr'. discriminate.
      * rewrite list_lookup_insert_ne in Hj by exact Hne.
        eapply Hc; eassumption.
Qed.

Lemma bridge_run_snoc s es e : run s (es ++ [e]) = step (run s es) e.
Proof. unfold run. rewrite fold_left_app. reflexivity. Qed.

Lemma bridge_consistent_run ns t es :
  bridge_consistent (puts es) (run (init ns t, []) es).
Proof.
  induction es as [| e es IH] using rev_ind.
  - constructor; simpl; intros; discriminate.
  - rewrite bridge_run_snoc. unfold puts. rewrite omap_app.
    apply bridge_consistent_step, IH.
Qed.

(** Once a call has returned, nothing changes what it returned. *)
Lemma bridge_step_keeps_return s e i c r :
  s.2 !! i = Some c -> returned c = Some r ->
  exists c', (step s e).2 !! i = Some c' /\
             request_id c' = request_id c /\ returned c' = Some r.
Proof.
  destruct s as [b calls]. simpl. intros Hi Hr.
  destruct e as [pod t | cid line | cid | cid uuid m ps t exec_ok now | j now];
    simpl; try (exists c; auto; fail).
  - destruct (send_request_begin _ _ _ _ _ _ _ _) as [b' c'].
    exists c. split; [apply lookup_app_l_Some, Hi | auto].
  - destruct (calls !! j) as [cj |] eqn:Hj; [| exists c; auto].
    destruct (decide (j = i)) as [-> | Hne].
    + rewrite Hi in Hj. inversion Hj; subst cj.
      unfold send_request_iter. rewrite Hr. simpl. exists c.
      split; [| auto]. apply list_lookup_insert_eq. eapply lookup_lt_Some, Hi.
    + destruct (send_request_iter now cj b) as [b' cj']. simpl.
      exists c. rewrite list_lookup_insert_ne by exact Hne. auto.
Qed.

(** A call whose deadline has passed returns at its next turn. *)
Lemma bridge_deadline_returns s i c now :
  s.2 !! i = Some c -> call_timeout c <= now - start_time c ->
  exists c', (step s (EvIter i now)).2 !! i = Some c' /\
             request_id c' = request_id c /\ is_Some (returned c').
Proof.
  destruct s as [b calls]. simpl. intros Hi Hd. rewrite Hi.
  assert (Hlt : (i < length calls)%nat) by (eapply lookup_lt_Some, Hi).
  unfold send_request_iter. destruct (returned c) eqn:Hr.
  - simpl. exists c. split; [apply list_lookup_insert_eq, Hlt |].
    rewrite Hr. eauto.
  - destruct (Z.ltb_spec (now - start_time c) (call_timeout c)); [lia |].
    simpl. eexists. split; [apply list_lookup_insert_eq, Hlt |].
    simpl. eauto.
Qed.

(** A turn of a call that has not returned ends the call with no response
    only when the deadline has passed. *)
Lemma bridge_none_at_deadline now c b :
  returned c = None ->
  returned (send_request_iter now c b).2 = Some None ->
  call_timeout c <= now - start_time c.
Proof.
  unfold send_request_iter. intros Hr. rewrite Hr.
  destruct (Z.ltb_spec (now - start_time c) (call_timeout c)) as [Hlt | Hge];
    [| intros _; exact Hge].
  destruct (receive_message _ _) as [b' response].
  destruct (matches (request_id c) response) eqn:Hm; simpl.
  - intros [= ->]. discriminate.
  - rewrite Hr. discriminate.
Qed.

(** A step puts the call of a starting [send_request] last and leaves the
    request id of every call as it is. *)
Lemma bridge_step_request_ids s e :
  map request_id (step s e).2 = (map request_id s.2 ++ uuids [e])%list.
Proof.
  destruct s as [b calls].
  destruct e as [pod t | cid line | cid | cid uuid m ps t exec_ok now | i now];
    simpl; rewrite ?app_nil_r; try reflexivity.
  - unfold send_request_begin.
    destruct (send_message _ _ _ _) as [b' ok].
    destruct ok; simpl; rewrite map_app; reflexivity.
  - destruct (calls !! i) as [c |] eqn:Hi; [| reflexivity].
    assert (Hid : request_id (send_request_iter now c b).2 = request_id c).
    { unfold send_request_iter. destruct (returned c); [reflexivity |].
      destruct (_ <? _); [| reflexivity].
      destruct (receive_message _ _) as [b' response].
      destruct (matches _ _); reflexivity. }
    destruct (send_request_iter now c b) as [b' c']. simpl in *.
    change (map request_id (<[i := c']> calls)) with
      (request_id <$> <[i := c']> calls).
    rewrite list_fmap_insert, Hid. apply list_insert_id.
    rewrite list_lookup_fmap, Hi. reflexivity.
Qed.

Lemma bridge_run_request_ids ns t es :
  map request_id (run (init ns t, []) es).2 = uuids es.
Proof.
  induction es as [| e es IH] using rev_ind; [reflexivity |].
  rewrite bridge_run_snoc, bridge_step_request_ids, IH.
  unfold uuids. rewrite omap_app. reflexivity.
Qed.

Lemma request_id_drawn ns t es i c :
  (run (init ns t, []) es).2 !! i = Some c ->
  uuids es !! i = Some (request_id c).
Proof.
  intros Hi. rewrite <- (bridge_run_request_ids ns t es), lookup_map, Hi.
  reflexivity.
Qed.

(** When no id is drawn twice, no two calls bear the same request id. *)
Lemma request_ids_distinct ns t es i j ci cj :
  NoDup (uuids es) ->
  (run (init ns t, []) es).2 !! i = Some ci ->
  (run (init ns t, []) es).2 !! j = Some cj ->
  i <> j -> request_id ci <> request_id cj.
Proof.
  intros Hnd Hi Hj Hne Heq. apply Hne.
  apply (request_id_drawn ns t es) in Hi.
  apply (request_id_drawn ns t es) in Hj.
  rewrite Heq in Hi. eapply NoDup_lookup; eassumption.
Qed.

End BridgeCorrelation.

Section Correlation.

(** C6.  Each call of [send_request] bears the id it drew from [uuid4], the
    calls in starting order bearing the ids in drawing order; so, [uuid4]
    never returning a value twice, any two calls bear distinct ids.  On a
    protocol adapter, whatever the interleaving of starting requests,
    returning sends, delivered messages, firing timeouts and resuming
    waits: a call that returned a value returned the result of a delivered
    Response bearing the call's own id, and a call that raised an RPC error
    raised the error of such a Response, never of one bearing the id of
    another call, in whatever order the answers arrive; a call ends with
    "Failed to send request" only when its send did not succeed, with
    TimeoutError only when its timeout has fired, and never with
    CancelledError; a call that has ended stays ended the way it did; and a
    call that has not ended ends, at the latest, when it resumes after its
    timeout has fired.  On the stdio bridge, likewise: a call that returned
    a response returned a line the stdout reader put, an object whose id is
    the call's own request id, never that of another call; what a call
    returned does not change; a call whose deadline has passed returns at
    its next turn; and a turn ends a call with no response only when the
    deadline has passed. *)
Theorem request_response_correlation :
  (forall cid es,
     let s := Protocol.run (Protocol.init cid, []) es in
     (forall i c,
        s.2 !! i = Some c ->
        Protocol.uuids es !! i = Some (Protocol.call_id c) /\
        Protocol.call_result c <> Some Protocol.RaisedCancelled /\
        (Protocol.call_result c = Some Protocol.RaisedSendFailed ->
         Protocol.call_sent c = false) /\
        (Protocol.call_result c = Some Protocol.RaisedTimeout ->
         Protocol.call_expired c = true) /\
        (forall v,
           Protocol.call_result c = Some (Protocol.Returned v) ->
           exists msg,
             msg ∈ Protocol.incoming es /\
             Protocol.type msg = Protocol.RESPONSE /\
             Protocol.id msg = PStr (Protocol.call_id c) /\
             Protocol.result msg = v /\
             truthy (Protocol.error msg) = false) /\
        (forall e,
           Protocol.call_result c = Some (Protocol.RaisedRPCError e) ->
           exists msg,
             msg ∈ Protocol.incoming es /\
             Protocol.type msg = Protocol.RESPONSE /\
             Protocol.id msg = PStr (Protocol.call_id c) /\
             Protocol.error msg = e /\ truthy e = true)) /\
     (NoDup (Protocol.uuids es) ->
      forall i j ci cj,
        s.2 !! i = Some ci -> s.2 !! j = Some cj -> i <> j ->
        Protocol.call_id ci <> Protocol.call_id cj /\
        (forall v,
           Protocol.call_result ci = Some (Protocol.Returned v) ->
           exists msg,
             msg ∈ Protocol.incoming es /\
             Protocol.type msg = Protocol.RESPONSE /\
             Protocol.id msg = PStr (Protocol.call_id ci) /\
             Protocol.id msg <> PStr (Protocol.call_id cj) /\
             Protocol.result msg = v) /\
        (forall e,
           Protocol.call_result ci = Some (Protocol.RaisedRPCError e) ->
           exists msg,
             msg ∈ Protocol.incoming es /\
             Protocol.type msg = Protocol.RESPONSE /\
             Protocol.id msg = PStr (Protocol.call_id ci) /\
             Protocol.id msg <> PStr (Protocol.call_id cj) /\
             Protocol.error msg = e))) /\
  (forall s e i c r,
     s.2 !! i = Some c -> Protocol.call_result c = Some r ->
     exists c', (Protocol.step s e).2 !! i = Some c' /\
                Protocol.call_id c' = Protocol.call_id c /\
                Protocol.call_result c' = Some r) /\
  (forall s i c success,
     s.2 !! i = Some c -> Protocol.call_result c = None ->
     exists c',
       (Protocol.run s [Protocol.EvSent i success; Protocol.EvTimeout i;
                        Protocol.EvEnd i]).2 !! i = Some c' /\
       Protocol.call_id c' = Protocol.call_id c /\
       is_Some (Protocol.call_result c')) /\
  (forall ns t es,
     let s := Bridge.run (Bridge.init ns t, []) es in
     (forall i c,
        s.2 !! i = Some c ->
        Bridge.uuids es !! i = Some (Bridge.request_id c) /\
        (forall r,
           Bridge.returned c = Some (Some r) ->
           dict_get "id" r = Some (PStr (Bridge.request_id c)) /\
           Bridge.Json (PDict r) ∈ Bridge.puts es)) /\
     (NoDup (Bridge.uuids es) ->
      forall i j ci cj,
        s.2 !! i = Some ci -> s.2 !! j = Some cj -> i <> j ->
        Bridge.request_id ci <> Bridge.request_id cj /\
        (forall r,
           Bridge.returned ci = Some (Some r) ->
           dict_get "id" r = Some (PStr (Bridge.request_id ci)) /\
           dict_get "id" r <> Some (PStr (Bridge.request_id cj))))) /\
  (forall s e i c r,
     s.2 !! i = Some c -> Bridge.returned c = Some r ->
     exists c', (Bridge.step s e).2 !! i = Some c' /\
                Bridge.request_id c' = Bridge.request_id c /\
                Bridge.returned c' = Some r) /\
  (forall s i c now,
     s.2 !! i = Some c ->
     Bridge.call_timeout c <= now - Bridge.start_time c ->
     exists c', (Bridge.step s (Bridge.EvIter i now)).2 !! i = Some c' /\
                Bridge.request_id c' = Bridge.request_id c /\
                is_Some (Bridge.returned c')) /\
  (forall now c b,
     Bridge.returned c = None ->
     Bridge.returned (Bridge.send_request_iter now c b).2 = Some None ->
     Bridge.call_timeout c <= now - Bridge.start_time c).
Proof.
  split; [| split; [| split; [| split; [| split; [| split]]]]].
  - intros cid es s. pose proof (consistent_run cid es) as Hc. fold s in Hc.
    assert (Hans : forall i c, s.2 !! i = Some c ->
              outcome_answered (Protocol.incoming es) c).
    { intros i c Hi. eapply cons_result; eassumption. }
    split.
    + intros i c Hi. split; [apply (call_id_drawn cid es), Hi |].
      pose proof (Hans i c Hi) as Ha. unfold outcome_answered in Ha.
      split; [| split; [| split; [| split]]].
      * intros Hr. rewrite Hr in Ha. exact Ha.
      * intros Hr. rewrite Hr in Ha. exact Ha.
      * intros Hr. rewrite Hr in Ha. exact Ha.
      * intros v Hr. rewrite Hr in Ha. exact Ha.
      * intros e Hr. rewrite Hr in Ha. exact Ha.
    + intros Hnd i j ci cj Hi Hj Hne.
      pose proof (call_ids_distinct cid es i j ci cj Hnd Hi Hj Hne) as Hid.
      pose proof (Hans i ci Hi) as Ha. unfold outcome_answered in Ha.
      split; [exact Hid |]. split.
      * intros v Hr. rewrite Hr in Ha. simpl in Ha.
        destruct Ha as (msg & H1 & H2 & H3 & H4 & _).
        exists msg. repeat split; try assumption. congruence.
      * intros e Hr. rewrite Hr in Ha. simpl in Ha.
        destruct Ha as (msg & H1 & H2 & H3 & H4 & _).
        exists msg. repeat split; try assumption. congruence.
  - apply step_keeps_result.
  - apply end_resolves.
  - intros ns t es s. pose proof (bridge_consistent_run ns t es) as Hc.
    fold s in Hc. split.
    + intros i c Hi. split; [apply (request_id_drawn ns t es), Hi |].
      intros r Hr. eapply bc_call; eassumption.
    + intros Hnd i j ci cj Hi Hj Hne.
      pose proof (request_ids_distinct ns t es i j ci cj Hnd Hi Hj Hne)
        as Hid.
      split; [exact Hid |]. intros r Hr.
      destruct (bc_call _ _ Hc i ci r Hi Hr) as [H1 _].
      split; [exact H1 |]. rewrite H1. congruence.
  - apply bridge_step_keeps_return.
  - apply bridge_deadline_returns.
  - apply bridge_none_at_deadline.
Qed.

End Correlation.

Section CorrelationExample.

Definition tools_response (i : string) (v : Z) : Protocol.MCPMessage :=
  {| Protocol.id := PStr i; Protocol.type := Protocol.RESPONSE;
     Protocol.method := PNone; Protocol.params := PNone;
     Protocol.result := PInt v; Protocol.error := PNone;
     Protocol.timestamp := 0; Protocol.protocol := Some Protocol.STDIO |}.

(** Two requests on an adapter, answered in the opposite order. *)
Definition crossed : list Protocol.Event :=
  [Protocol.EvBegin "u1" 0 "tools/list" (PDict []);
   Protocol.EvSent 0 true;
   Protocol.EvBegin "u2" 1 "tools/list" (PDict []);
   Protocol.EvSent 1 true;
   Protocol.EvIncoming 2 (tools_response "u2" 22);
   Protocol.EvIncoming 3 (tools_response "u1" 11);
   Protocol.EvEnd 0; Protocol.EvEnd 1].

Definition tools_line (i : string) (v : Z) : list (string * pyval) :=
  [("jsonrpc", PStr "2.0"); ("id", PStr i); ("result", PInt v)].

(** Two requests on a bridge connection, answered in the opposite order;
    the call that started last takes its turn first. *)
Definition bridge_crossed : list Bridge.Event :=
  [Bridge.EvConnect "pod" 5000;
   Bridge.EvBegin "pod-5" "u1" "tools/list" (PDict []) None true 0;
   Bridge.EvBegin "pod-5" "u2" "tools/list" (PDict []) None true 0;
   Bridge.EvPut "pod-5" (Bridge.Json (PDict (tools_line "u2" 22)));
   Bridge.EvPut "pod-5" (Bridge.Json (PDict (tools_line "u1" 11)));
   Bridge.EvIter 1 1; Bridge.EvIter 0 2].

Lemma two_ids : NoDup ["u1"; "u2"].
Proof.
  apply NoDup_cons. split; [| apply NoDup_singleton].
  intros H. apply list_elem_of_singleton in H. discriminate.
Qed.

(** The specification's fifth scenario.  On an adapter the call with id
    "u1" returns 11 and the call with id "u2" returns 22, each from the
    Response bearing its id and not the other's; on the bridge each call
    returns the line bearing its id. *)
Lemma request_response_correlation_witness :
  (map (fun c => (Protocol.call_id c, Protocol.call_result c))
       (Protocol.run (Protocol.init "c", []) crossed).2 =
     [("u1", Some (Protocol.Returned (PInt 11)));
      ("u2", Some (Protocol.Returned (PInt 22)))] /\
   exists msg,
     msg ∈ Protocol.incoming crossed /\
     Protocol.id msg = PStr "u1" /\ Protocol.id msg <> PStr "u2" /\
     Protocol.result msg = PInt 11) /\
  (map (fun c => (Bridge.request_id c, Bridge.returned c))
       (Bridge.run (Bridge.init "archon" 30, []) bridge_crossed).2 =
     [("u1", Some (Some (tools_line "u1" 11)));
      ("u2", Some (Some (tools_line "u2" 22)))] /\
   dict_get "id" (tools_line "u1" 11) <> Some (PStr "u2")).
Proof.
  destruct request_response_correlation as (HA & _ & _ & HB & _).
  split.
  - split; [vm_compute; reflexivity |].
    destruct (HA "c" crossed) as [_ H]. specialize (H two_ids).
    destruct (H 0%nat 1%nat
                {| Protocol.call_id := "u1"; Protocol.call_future := 0;
                   Protocol.call_sent := true;
                   Protocol.call_expired := false;
                   Protocol.call_result :=
                     Some (Protocol.Returned (PInt 11)) |}
                {| Protocol.call_id := "u2"; Protocol.call_future := 1;
                   Protocol.call_sent := true;
                   Protocol.call_expired := false;
                   Protocol.call_result :=
                     Some (Protocol.Returned (PInt 22)) |})
      as (_ & H1 & _).
    + vm_compute. reflexivity.
    + vm_compute. reflexivity.
    + discriminate.
    + destruct (H1 (PInt 11) eq_refl) as (msg & H3 & _ & H4 & H5 & H6).
      exists msg. auto.
  - split; [vm_compute; reflexivity |].
    destruct (HB "archon" 30 bridge_crossed) as [_ H]. specialize (H two_ids).
    destruct (H 0%nat 1%nat
                {| Bridge.connection_id := "pod-5"; Bridge.request_id := "u1";
                   Bridge.start_time := 0; Bridge.call_timeout := 30;
                   Bridge.returned := Some (Some (tools_line "u1" 11)) |}
                {| Bridge.connection_id := "pod-5"; Bridge.request_id := "u2";
                   Bridge.start_time := 0; Bridge.call_timeout := 30;
                   Bridge.returned := Some (Some (tools_line "u2" 22)) |})
      as (_ & H1).
    + vm_compute. reflexivity.
    + vm_compute. reflexivity.
    + discriminate.
    + destruct (H1 (tools_line "u1" 11) eq_refl) as [_ H2]. exact H2.
Defined.

End CorrelationExample.

(** * Further properties of the code *)

(** ** Shape of the JSON-RPC form *)

Section JsonRpcShape.
Import Py Protocol.

(** The JSON-RPC form of a message always carries the version tag "2.0";
    it carries the message's id unless the message is a Notification, which
    has none; a Response carries "error" when its error is truthy and
    "result" otherwise, never both, and no "method"; a Request or Notification carries "method" and neither
    "result" nor "error"; an Error message carries the version and the id
    and nothing else. *)
Theorem to_jsonrpc_shape (m : MCPMessage) :
  let d := to_jsonrpc m in
  dict_get "jsonrpc" d = Some (PStr "2.0") /\
  dict_get "id" d =
    match type m with NOTIFICATION => None | _ => Some (id m) end /\
  match type m with
  | RESPONSE =>
      dict_mem "method" d = false /\ dict_mem "params" d = false /\
      dict_get "error" d =
        (if truthy (error m) then Some (error m) else None) /\
      dict_get "result" d =
        (if truthy (error m) then None else Some (result m))
  | REQUEST | NOTIFICATION =>
      dict_get "method" d = Some (method m) /\
      dict_mem "result" d = false /\ dict_mem "error" d = false /\
      dict_get "params" d =
        if truthy (params m) then Some (params m) else None
  | ERROR => d = [("jsonrpc", PStr "2.0"); ("id", id m)]
  end.
Proof.
  unfold to_jsonrpc. destruct m as [i t me ps r er ts pr]; simpl.
  destruct t; simpl.
  - destruct (truthy ps); repeat split; reflexivity.
  - destruct (truthy er); repeat split; reflexivity.
  - destruct (truthy ps); repeat split; reflexivity.
  - repeat split; reflexivity.
Qed.

(** Whatever dict it is given, and whatever values the dict holds,
    [from_jsonrpc] builds a message, never an Error message: a Request when
    the dict has "method" and "id", a Notification when it has "method" and
    no "id", and a Response when it has no "method".  The id is the value
    under "id", of whatever type, and a fresh uuid when there is none.  A
    Request or Notification takes its method, of whatever type, and its
    params from the dict and has neither result nor error; a Response takes
    its result and error from the dict and has neither method nor params;
    the protocol tag is always STDIO. *)
Theorem from_jsonrpc_kind (uuid : string) (now : Z)
    (data : list (string * pyval)) :
  let m := from_jsonrpc uuid now data in
  type m <> ERROR /\
  type m =
    (if dict_mem "method" data
     then if dict_mem "id" data then REQUEST else NOTIFICATION
     else RESPONSE) /\
  id m = match dict_get "id" data with Some v => v | None => PStr uuid end /\
  match dict_get "method" data with
  | Some v =>
      method m = v /\ params m = get_or_none "params" data /\
      result m = PNone /\ error m = PNone
  | None =>
      method m = PNone /\ params m = PNone /\
      result m = get_or_none "result" data /\
      error m = get_or_none "error" data
  end /\
  timestamp m = now /\ protocol m = Some STDIO.
Proof.
  unfold from_jsonrpc, dict_mem.
  destruct (dict_get "method" data) as [me |] eqn:Hm; simpl.
  - destruct (dict_get "id" data); repeat split; discriminate.
  - repeat split; discriminate.
Qed.

(** The theorem at work on a Request with the integer id 1. *)
Lemma from_jsonrpc_kind_witness :
  let data := [("jsonrpc", PStr "2.0"); ("id", PInt 1);
               ("method", PStr "tools/list")] in
  type (from_jsonrpc "fresh" 7 data) = REQUEST /\
  id (from_jsonrpc "fresh" 7 data) = PInt 1 /\
  method (from_jsonrpc "fresh" 7 data) = PStr "tools/list".
Proof.
  intros data.
  destruct (from_jsonrpc_kind "fresh" 7 data) as (_ & Ht & Hi & Hm & _).
  split; [exact Ht |]. split; [exact Hi |]. exact (proj1 Hm).
Defined.

(** A notification sent with [send_notification] changes neither the
    pending requests nor any future; on the wire it has no id; and the peer
    that parses it gets a Notification of the same method, with the params
    when they are truthy and None otherwise, under an id of its own
    making. *)
Theorem notification_on_the_wire (now : Z) (m : string) (ps : pyval)
    (a : Adapter) (uuid : string) (now' : Z) :
  let a' := send_notification now m ps a in
  pending_requests a' = pending_requests a /\ futures a' = futures a /\
  exists n,
    sent a' = (sent a ++ [n])%list /\
    dict_mem "id" (to_jsonrpc n) = false /\
    from_jsonrpc uuid now' (to_jsonrpc n) =
    {| id := PStr uuid; type := NOTIFICATION; method := PStr m;
       params := if truthy ps then ps else PNone;
       result := PNone; error := PNone;
       timestamp := now'; protocol := Some STDIO |}.
Proof.
  simpl. split; [reflexivity |]. split; [reflexivity |].
  eexists. split; [reflexivity |].
  unfold to_jsonrpc. simpl. destruct (truthy ps); simpl; auto.
Qed.

End JsonRpcShape.

(** ** The adapter's message queue and pending requests *)

Section AdapterQueue.
Import Protocol.

Lemma deque_append_window {A} (n : nat) (l : list A) (x : A) :
  (0 < n)%nat ->
  deque_append n (drop (length l - n) l) x =
  drop (length (l ++ [x])%list - n) (l ++ [x])%list.
Proof.
  intros Hn. unfold deque_append.
  rewrite !length_app, length_drop. simpl.
  destruct (Nat.ltb_spec n (length l - (length l - n) + 1)) as [Hlt | Hge].
  - replace (length l + 1 - n)%nat with (S (length l - n)) by lia.
    rewrite <- drop_app_le by lia.
    destruct (drop (length l - n) (l ++ [x])%list) as [| y t] eqn:E.
    + apply (f_equal length) in E. rewrite length_drop, length_app in E.
      simpl in E. lia.
    + simpl. change t with (drop 1 (y :: t)). rewrite <- E.
      rewrite drop_drop. f_equal. lia.
  - replace (length l - n)%nat with 0%nat by lia.
    replace (length l + 1 - n)%nat with 0%nat by lia.
    reflexivity.
Qed.

Lemma message_queue_handle now message a :
  message_queue (handle_incoming_message now message a).1 =
  deque_append 1000 (message_queue a) message.
Proof.
  unfold handle_incoming_message.
  destruct (type message); simpl; try reflexivity.
  - unfold _handle_request.
    destruct (str_of_key _); [| reflexivity].
    destruct (lookup_handler _ _) as [h |]; [destruct (h _) |]; reflexivity.
  - unfold _handle_response.
    destruct (id message) as [| b | n | key | l | d]; simpl; try reflexivity.
    destruct (pending_requests a !! key) as [r |]; [| reflexivity].
    simpl. destruct (futures a !! r) as [[| v | e |] |]; try reflexivity.
    destruct (truthy (error message)); reflexivity.
  - unfold _handle_notification. destruct (negb _); reflexivity.
Qed.

Lemma message_queue_step s e :
  message_queue (step s e).1 =
  match e with
  | EvIncoming _ message => deque_append 1000 (message_queue s.1) message
  | _ => message_queue s.1
  end.
Proof.
  destruct s as [a calls].
  destruct e as [uuid now m ps | i success | now message | i | i]; simpl.
  - reflexivity.
  - destruct (calls !! i) as [c |]; [| reflexivity].
    destruct (call_result c); [reflexivity |].
    destruct (call_sent c); [reflexivity |].
    unfold send_request_sent. destruct success; reflexivity.
  - apply message_queue_handle.
  - destruct (calls !! i) as [c |]; [| reflexivity].
    destruct (call_result c); [reflexivity |].
    destruct (call_sent c); [| reflexivity].
    destruct (call_expired c); [reflexivity |]. simpl.
    unfold wait_for_timeout.
    destruct (futures a !! call_future c) as [[| v | e |] |]; reflexivity.
  - destruct (calls !! i) as [c |]; [| reflexivity].
    destruct (call_result c); [reflexivity |].
    destruct (call_sent c); [| reflexivity].
    unfold send_request_end. destruct (call_expired c); [reflexivity |].
    destruct (futures a !! call_future c) as [[| v | e |] |]; reflexivity.
Qed.

(** However requests, deliveries and timeouts interleave, the adapter's
    [message_queue] holds exactly the last 1000 messages that were
    delivered to [handle_incoming_message], oldest first: every delivered
    message is queued, whatever its kind, and once the queue is full each
    delivery drops the oldest entry. *)
Theorem message_queue_window (cid : string) (es : list Event) :
  message_queue (run (init cid, []) es).1 =
  drop (length (incoming es) - 1000) (incoming es).
Proof.
  induction es as [| e es IH] using rev_ind; [reflexivity |].
  rewrite run_snoc_event, incoming_snoc, message_queue_step, IH.
  destruct e as [uuid now m ps | i success | now message | i | i];
    simpl incoming; rewrite ?app_nil_r; try reflexivity.
  apply deque_append_window. lia.
Qed.

(** However requests, returning sends, deliveries, firing timeouts and
    resuming waits interleave, [pending_requests] holds no stale entry:
    every entry belongs to a [send_request] that drew the entry's id, made
    the entry's future and has not ended.  That future is still pending,
    unless the timeout of the call's wait has fired and cancelled it, the
    call not having resumed yet to remove the entry.  So a call that ended,
    by a result, an error response, a timeout or a failed send, has left no
    entry behind. *)
Theorem pending_requests_awaited (cid : string) (es : list Event)
    (x : string) (f : nat) :
  pending_requests (run (init cid, []) es).1 !! x = Some f ->
  exists i c,
    (run (init cid, []) es).2 !! i = Some c /\
    call_id c = x /\ call_future c = f /\ call_result c = None /\
    (futures (run (init cid, []) es).1 !! f = Some FPending \/
     (futures (run (init cid, []) es).1 !! f = Some FCancelled /\
      call_expired c = true)).
Proof.
  intros Hx. pose proof (consistent_run cid es) as [Hf _ _ Ho].
  destruct (Ho x f Hx) as (i & c & Hc & H1 & H2 & H3 & H4).
  exists i, c. repeat split; try assumption.
  destruct H4 as [H4 | H4]; [left; exact H4 | right].
  split; [exact H4 |].
  destruct (Hf i c Hc) as (g & Hg & _ & Hcan).
  rewrite H1, H4 in Hg. inversion Hg; subst g. apply Hcan. reflexivity.
Qed.

(** A call whose timeout has fired and which has not resumed yet: its
    entry is still there, on a cancelled future. *)
Lemma pending_requests_awaited_witness :
  let es := [EvBegin "u1" 0 "tools/list" PNone; EvSent 0 true;
             EvTimeout 0] in
  exists i c,
    (run (init "c", []) es).2 !! i = Some c /\
    call_id c = "u1" /\ call_future c = 0%nat /\ call_result c = None /\
    (futures (run (init "c", []) es).1 !! 0%nat = Some FPending \/
     (futures (run (init "c", []) es).1 !! 0%nat = Some FCancelled /\
      call_expired c = true)).
Proof.
  intros es. apply (pending_requests_awaited "c" es "u1" 0%nat).
  vm_compute. reflexivity.
Defined.

End AdapterQueue.

(** ** The stdio bridge: closed connections, lines of other requests,
    connection ids *)

Section BridgeConnections.
Import Py Bridge.

(** Once a connection is closed nothing goes through it any more:
    [send_message] returns False and queues nothing, [receive_message]
    returns None, and [send_request] returns None at once, whatever the exec
    channel would have done; the bridge stays as the close left it. *)
Theorem closed_connection_is_dead (cid : string) (b : MCPStdioBridge)
    (message : list (string * pyval)) (exec_ok : bool)
    (uuid m : string) (ps : pyval) (t : option Z) (now : Z) :
  let b' := close_stdio_connection cid b in
  send_message cid message exec_ok b' = (b', false) /\
  receive_message cid b' = (b', None) /\
  (send_request_begin cid uuid m ps t exec_ok now b').1 = b' /\
  returned (send_request_begin cid uuid m ps t exec_ok now b').2 = Some None.
Proof.
  intros b'.
  assert (H : active_connections b' !! cid = None)
    by (simpl; apply lookup_delete_eq).
  unfold send_request_begin, send_message, receive_message.
  rewrite H. simpl. auto.
Qed.

(** Each pass of the loop of [send_request] takes the oldest line off the
    connection's stdout queue whether or not it answers this request: a
    line that is not the awaited response (another request's response, a
    notification, text that is not JSON) is gone from the queue afterwards,
    and the call goes on waiting; nothing is written to stdin. *)
Theorem send_request_drops_other_lines (b : MCPStdioBridge) (c : Call)
    (conn : Connection) (line : Line) (rest : list Line) (now : Z) :
  active_connections b !! connection_id c = Some conn ->
  status conn = "connected" ->
  stdout_queue conn = line :: rest ->
  returned c = None ->
  now - start_time c < call_timeout c ->
  (forall d, line = Json (PDict d) -> matches (request_id c) (Some d) = false) ->
  let r := send_request_iter now c b in
  r.2 = c /\
  active_connections r.1 !! connection_id c =
    Some {| pod_name := pod_name conn; status := status conn;
            stdin_queue := stdin_queue conn; stdout_queue := rest |} /\
  forall k, k <> connection_id c ->
    active_connections r.1 !! k = active_connections b !! k.
Proof.
  intros Hc Hs Hq Hr Ht Hm. unfold send_request_iter, receive_message.
  rewrite Hr. apply Z.ltb_lt in Ht. rewrite Ht, Hc, Hs, Hq. simpl.
  assert (Hno : matches (request_id c)
                  match line with
                  | Json (PDict message) => Some message
                  | _ => None
                  end = false).
  { destruct line as [[| | | | | d] |]; try reflexivity. apply Hm. reflexivity. }
  rewrite Hno. simpl. split; [reflexivity |]. split.
  - apply lookup_insert_eq.
  - intros k Hk. apply lookup_insert_ne. auto.
Qed.

Lemma send_request_drops_other_lines_witness :
  let b := put_stdout "pod-7"
             (Json (PDict [("jsonrpc", PStr "2.0"); ("id", PStr "other");
                           ("result", PInt 1)]))
             (create_stdio_connection "pod" 7000 (init "archon" 30000)).1 in
  let c := {| connection_id := "pod-7"; request_id := "mine";
              start_time := 7000; call_timeout := 30000;
              returned := None |} in
  (send_request_iter 7100 c b).2 = c /\
  (stdout_queue <$>
     active_connections (send_request_iter 7100 c b).1 !! connection_id c)
  = Some [].
Proof.
  intros b c.
  assert (Hc : active_connections b !! connection_id c =
               Some {| pod_name := "pod"; status := "connected";
                       stdin_queue := [];
                       stdout_queue :=
                         [Json (PDict [("jsonrpc", PStr "2.0");
                                       ("id", PStr "other");
                                       ("result", PInt 1)])] |})
    by (vm_compute; reflexivity).
  destruct (send_request_drops_other_lines b c _
              (Json (PDict [("jsonrpc", PStr "2.0"); ("id", PStr "other");
                            ("result", PInt 1)]))
              [] 7100 Hc)
    as (H1 & H2 & _);
    [reflexivity | reflexivity | reflexivity | vm_compute; reflexivity
    | intros d [= <-]; reflexivity |].
  split; [exact H1 |]. rewrite H2. reflexivity.
Defined.

(** Connection ids are the pod name and the loop clock in whole seconds:
    connecting twice to one pod within the same second gives the same id
    both times, and the second connection takes the place of the first in
    [active_connections], with empty queues, whatever the first had queued
    and whatever happened to the bridge in between; all other connections
    are kept. *)
Theorem connection_id_collision (pod : string) (t1 t2 : Z)
    (b b' : MCPStdioBridge) :
  unix_seconds t1 = unix_seconds t2 ->
  let r1 := create_stdio_connection pod t1 b in
  let r2 := create_stdio_connection pod t2 b' in
  r2.2 = r1.2 /\
  active_connections r2.1 !! r1.2 =
    Some {| pod_name := pod; status := "connected"; stdin_queue := [];
            stdout_queue := [] |} /\
  forall k, k <> r1.2 ->
    active_connections r2.1 !! k = active_connections b' !! k.
Proof.
  intros Ht. unfold create_stdio_connection. simpl. rewrite Ht.
  split; [reflexivity |]. split.
  - apply lookup_insert_eq.
  - intros k Hk. apply lookup_insert_ne. auto.
Qed.

Lemma connection_id_collision_witness :
  let r1 := create_stdio_connection "pod" 7100 (init "archon" 30000) in
  let b' := put_stdout r1.2 Garbage r1.1 in
  (create_stdio_connection "pod" 7900 b').2 = r1.2 /\
  (stdout_queue <$>
     active_connections (create_stdio_connection "pod" 7900 b').1 !! r1.2)
  = Some [].
Proof.
  intros r1 b'.
  destruct (connection_id_collision "pod" 7100 7900 (init "archon" 30000) b')
    as (H1 & H2 & _); [reflexivity |].
  split; [exact H1 |]. fold r1 in H2. rewrite H2. reflexivity.
Defined.

End BridgeConnections.

(** ** Pod status and readiness *)

Section PodStatus.
Import Pods.

Lemma pending_status_not_running cs : pending_status cs <> "Running".
Proof.
  induction cs as [| c cs IH]; simpl; [discriminate |].
  destruct (state_waiting c) as [w |]; [| exact IH].
  destruct (waiting_truthy w); [discriminate | exact IH].
Qed.

Lemma is_pod_ready_spec (pod : Pod) :
  is_pod_ready pod = true <-> get_pod_status pod = "Running".
Proof.
  unfold get_pod_status, is_pod_ready.
  destruct (phase pod) as [p |]; simpl.
  - destruct (String.eqb p "Pending") eqn:E1.
    { apply String.eqb_eq in E1. subst p. simpl. split; [discriminate |].
      intros H. exfalso. eapply pending_status_not_running, H. }
    destruct (String.eqb p "Running") eqn:E2.
    { simpl. destruct (ready_condition (conditions pod)); split;
        try reflexivity; discriminate. }
    simpl. destruct (String.eqb p "Succeeded") eqn:E3.
    { split; discriminate. }
    destruct (String.eqb p "Failed") eqn:E4.
    { split; discriminate. }
    split; [discriminate |]. intros ->. discriminate.
  - split; discriminate.
Qed.

(** The two readers of a pod agree: [is_pod_ready] holds exactly when
    [get_pod_status] says "Running".  A running pod that is not ready reads
    "Starting", and no other phase, whatever it is called, reads
    "Running". *)
Theorem ready_iff_running (pod : Pod) :
  is_pod_ready pod = true <-> get_pod_status pod = "Running".
Proof. apply is_pod_ready_spec. Qed.

End PodStatus.

(** ** Stopping servers *)

Section SupervisorStop.
Import Py Sidecar.

Lemma dict_get_set {V} (k k' : string) (v : V) (d : list (string * V)) :
  dict_get k' (dict_set k v d) =
  if String.eqb k' k then Some v else dict_get k' d.
Proof.
  induction d as [| [k0 v0] d IH]; simpl; [reflexivity |].
  destruct (String.eqb k k0) eqn:E; simpl.
  - apply String.eqb_eq in E. subst k0.
    destruct (String.eqb k' k); reflexivity.
  - rewrite IH. destruct (String.eqb k' k0) eqn:E0; [| reflexivity].
    apply String.eqb_eq in E0. subst k0.
    rewrite String.eqb_sym, E. reflexivity.
Qed.




Lemma dict_set_keys {V} (k k' : string) (v : V) (d : list (string * V)) :
  k' ∈ map fst (dict_set k v d) -> k' = k \/ k' ∈ map fst d.
Proof.
  induction d as [| [k0 v0] d IH]; simpl.
  - rewrite list_elem_of_singleton. auto.
  - destruct (String.eqb k k0) eqn:E; simpl; rewrite !elem_of_cons.
    + apply String.eqb_eq in E. subst k0. tauto.
    + tauto.
Qed.


Lemma dict_set_NoDup {V} (k : string) (v : V) (d : list (string * V)) :
  NoDup (map fst d) -> NoDup (map fst (dict_set k v d)).
Proof.
  induction d as [| [k0 v0] d IH]; simpl.
  - intros _. apply NoDup_singleton.
  - rewrite NoDup_cons. intros [Hn Hd].
    destruct (String.eqb k k0) eqn:E; simpl.
    + apply String.eqb_eq in E. subst k0. apply NoDup_cons. auto.
    + apply NoDup_cons. split; [| auto].
      intros H. apply dict_set_keys in H. destruct H as [-> | H]; [| auto].
      rewrite String.eqb_refl in E. discriminate.
Qed.





(** A stop of one server that cannot be carried out changes nothing in
    what is tracked: when the id is not tracked the answer is the failure
    "not_found" and the manager is untouched; when the DELETE of the pod
    fails the answer is the failure "error", the server stays tracked as it
    was, and the global status is kept. *)
Theorem stop_failure_keeps_tracking (sid : string) (e : StopEnv) (m : Manager) :
  sid <> "" ->
  match dict_get sid (running_servers m) with
  | None => True
  | Some info => delete_pod e (info_pod_name info) <> None
  end ->
  let r := stop_server (Some sid) e m in
  running_servers r.1 = running_servers m /\
  mgr_status r.1 = mgr_status m /\ mgr_start_time r.1 = mgr_start_time m /\
  success r.2 = false /\
  status r.2 =
    Some (if dict_mem sid (running_servers m) then "error" else "not_found") /\
  (dict_mem sid (running_servers m) = false -> r.1 = m).
Proof.
  intros Hsid Hdel. unfold stop_server, dict_mem.
  assert (Ht : truthy_str (Some sid) = true).
  { simpl. apply String.eqb_neq in Hsid. rewrite Hsid. reflexivity. }
  rewrite Ht. simpl.
  destruct (dict_get sid (running_servers m)) as [info |]; simpl.
  - destruct (delete_pod e (info_pod_name info)) as [text |];
      [| contradiction].
    simpl. repeat split; discriminate.
  - repeat split; reflexivity.
Qed.

Lemma stop_failure_keeps_tracking_witness :
  let e := {| delete_pod := fun _ => Some "503"; stop_clock_log := 0 |} in
  running_servers (stop_server (Some "npx-brave-100") e one_brave).1 =
  running_servers one_brave /\
  status (stop_server (Some "npx-brave-100") e one_brave).2 = Some "error".
Proof.
  intros e.
  destruct (stop_failure_keeps_tracking "npx-brave-100" e one_brave)
    as (H1 & _ & _ & _ & H2 & _).
  - discriminate.
  - vm_compute. discriminate.
  - split; [exact H1 | exact H2].
Defined.



End SupervisorStop.

Section SupervisorStopAll.
Import Py Sidecar.

(** The DELETE of the pod of a tracked entry goes through. *)
Definition deleted (e : StopEnv) (kv : string * ServerInfo) : bool :=
  match delete_pod e (info_pod_name kv.2) with
  | None => true
  | Some _ => false
  end.

Definition is_nil {A} (l : list A) : bool :=
  match l with [] => true | _ => false end.

Lemma stop_each_outcome e items m n errs :
  let r := stop_each e items (m, n, errs) in
  running_servers r.1.1 = running_servers m /\
  is_nil r.2 = is_nil errs && forallb (deleted e) items /\
  (0 <? r.1.2)%nat = (0 <? n)%nat || existsb (deleted e) items /\
  (r.1.2 + length r.2 = n + length errs + length items)%nat.
Proof.
  revert m n errs. induction items as [| [sid info] items IH];
    intros m n errs; simpl.
  - rewrite andb_true_r, orb_false_r. repeat split; try reflexivity; try lia.
  - change (deleted e (sid, info))
      with (match delete_pod e (info_pod_name info) with
            | None => true
            | Some _ => false
            end).
    destruct (delete_pod e (info_pod_name info)) as [text |]; simpl.
    + destruct (IH m n
                  (errs ++ ["Failed to stop " +:+ sid +:+ ": " +:+ text])%list)
        as (H1 & H2 & H3 & H4).
      split; [exact H1 |]. split.
      { rewrite H2. destruct errs; reflexivity. }
      split; [exact H3 |].
      rewrite H4, length_app. simpl. lia.
    + destruct (IH (_add_log (stop_clock_log e) "INFO"
                      ("Deleted " +:+ info_server_type info +:+ " pod: " +:+
                       info_pod_name info) m) (S n) errs)
        as (H1 & H2 & H3 & H4).
      split; [exact H1 |]. split; [exact H2 |].
      split; [rewrite H3, orb_true_r; reflexivity | lia].
Qed.

(** A stop without a server id, and likewise one with the empty string for
    id, stops everything: it asks for the deletion of every tracked pod and
    then forgets all of them, those whose deletion failed included, and
    sets the global status to "stopped".  The answer is "stopped" when
    every deletion went through and "partial" otherwise, and it is a
    success unless there were failures and nothing was deleted. *)
Theorem stop_all_forgets_failures (sid : option string) (e : StopEnv)
    (m : Manager) :
  truthy_str sid = false ->
  let r := stop_server sid e m in
  running_servers r.1 = [] /\
  mgr_status r.1 = "stopped" /\ mgr_start_time r.1 = None /\
  status r.2 =
    Some (if forallb (deleted e) (running_servers m) then "stopped"
          else "partial") /\
  success r.2 =
    forallb (deleted e) (running_servers m) ||
    existsb (deleted e) (running_servers m) /\
  server_id r.2 = None.
Proof.
  intros Ht. unfold stop_server. rewrite Ht.
  destruct (stop_each_outcome e (running_servers m) m 0%nat [])
    as (_ & H2 & H3 & _).
  destruct (stop_each e (running_servers m) (m, 0%nat, []))
    as [[m' stopped_count] errors].
  simpl in H2, H3.
  destruct errors as [| x errors]; simpl in *.
  - rewrite <- H2. simpl. repeat split; reflexivity.
  - rewrite <- H2, <- H3. simpl. repeat split; reflexivity.
Qed.

Lemma stop_all_forgets_failures_witness :
  let e := {| delete_pod := fun _ => Some "503"; stop_clock_log := 0 |} in
  running_servers (stop_server (Some "") e one_brave).1 = [] /\
  success (stop_server (Some "") e one_brave).2 = false.
Proof.
  intros e.
  destruct (stop_all_forgets_failures (Some "") e one_brave)
    as (H1 & _ & _ & _ & H2 & _); [reflexivity |].
  split; [exact H1 |]. rewrite H2. vm_compute. reflexivity.
Defined.





End SupervisorStopAll.

(** ** What the status call reports *)

Section SupervisorStatus.
Import Py Sidecar.

(** The number of servers in status [s]. *)
Definition in_status (s : string) (servers : list ServerInfo) : nat :=
  length (List.filter (fun x => String.eqb (info_status x) s) servers).

Definition total (counts : list (string * nat)) : nat :=
  fold_right Nat.add 0%nat (map snd counts).

Lemma total_dict_set (k : string) (counts : list (string * nat)) :
  total (dict_set k (default 0%nat (dict_get k counts) + 1)%nat counts)
  = S (total counts).
Proof.
  unfold total. induction counts as [| [k0 v0] counts IH]; simpl.
  - reflexivity.
  - destruct (String.eqb k k0); simpl; [lia |].
    rewrite IH. lia.
Qed.

Lemma count_statuses_spec servers counts :
  (forall s, default 0%nat (dict_get s (count_statuses servers counts)) =
             (default 0%nat (dict_get s counts) + in_status s servers)%nat) /\
  total (count_statuses servers counts) = (total counts + length servers)%nat /\
  (NoDup (map fst counts) ->
   NoDup (map fst (count_statuses servers counts))).
Proof.
  revert counts. induction servers as [| x servers IH]; intros counts.
  - simpl. unfold in_status. simpl. repeat split; auto; intros; lia.
  - simpl. destruct (IH (dict_set (info_status x)
                           (default 0%nat (dict_get (info_status x) counts) + 1)%nat
                           counts)) as (H1 & H2 & H3).
    split; [| split].
    + intros s. rewrite H1, dict_get_set. unfold in_status. simpl.
      destruct (String.eqb s (info_status x)) eqn:E.
      * apply String.eqb_eq in E. subst s. rewrite String.eqb_refl.
        simpl. lia.
      * rewrite String.eqb_sym, E. reflexivity.
    + rewrite H2, total_dict_set. lia.
    + intros Hnd. apply H3, dict_set_NoDup, Hnd.
Qed.

Lemma refresh_one_ready pods info :
  exists b, info_ready (refresh_one pods info) = Some b /\
            (b = true <-> info_status (refresh_one pods info) = "Running").
Proof.
  unfold refresh_one.
  destruct (find_pod pods (info_pod_name info)) as [pod |]; simpl.
  - exists (Pods.is_pod_ready pod). split; [reflexivity |].
    apply is_pod_ready_spec.
  - exists false. split; [reflexivity |]. split; discriminate.
Qed.

(** The data of a status answer are consistent with one another: the
    count of running servers is the number of servers listed, which are the
    tracked ones in order; each status occurs once in [server_statuses],
    with the number of listed servers that have it, so the numbers add up
    to the count; and every listed server carries a ready flag, which is
    true exactly when its status is "Running". *)
Theorem status_counts_add_up (pods : list Pods.Pod) (m : Manager) :
  exists st t ns n counts servers,
    data (get_status pods m).2 = Some (StatusData st t ns n counts servers) /\
    servers = dict_values (running_servers (get_status pods m).1) /\
    n = length servers /\
    NoDup (map fst counts) /\
    total counts = n /\
    (forall s, default 0%nat (dict_get s counts) = in_status s servers) /\
    Forall (fun x => exists b, info_ready x = Some b /\
                               (b = true <-> info_status x = "Running"))
           servers.
Proof.
  unfold get_status. simpl. eexists _, _, _, _, _, _.
  split; [reflexivity |].
  destruct (count_statuses_spec
              (dict_values (map (fun kv => (fst kv, refresh_one pods (snd kv)))
                              (running_servers m))) [])
    as (H1 & H2 & H3).
  split; [reflexivity |].
  split; [unfold dict_values; rewrite !length_map; reflexivity |].
  split; [apply H3, NoDup_nil_2 |].
  split; [rewrite H2; unfold dict_values; rewrite !length_map; reflexivity |].
  split; [intros s; rewrite H1; reflexivity |].
  unfold dict_values. rewrite map_map. simpl.
  apply List.Forall_forall. intros x Hx. apply in_map_iff in Hx.
  destruct Hx as ([k info] & <- & _). simpl. apply refresh_one_ready.
Qed.

Lemma logs_bounded_step m o :
  (length (logs m) <= 1000)%nat -> (length (logs (fst (step m o))) <= 1000)%nat.
Proof.
  assert (Hlog : forall now level msg m0,
            (length (logs m0) <= 1000)%nat ->
            (length (logs (_add_log now level msg m0)) <= 1000)%nat).
  { intros now level msg m0 H. simpl. unfold Protocol.deque_append.
    rewrite length_app. simpl.
    destruct (Nat.ltb_spec 1000 (length (logs m0) + 1)) as [Hlt | Hge].
    - destruct (logs m0) as [| y l]; simpl in *; [lia |].
      rewrite length_app. simpl. lia.
    - rewrite length_app. simpl. lia. }
  intros H. destruct o as [cfg e | sid e | pods]; simpl.
  - unfold start_server.
    destruct (validate _) as [c |]; [| exact H].
    destruct (_ <=? _); [exact H |].
    destruct (if truthy_str (name c) then _ else _) as [| s ss]; [| exact H].
    destruct (post_pod e); simpl; try (apply Hlog, H).
    destruct (String.eqb (server_type c) "archon"); apply Hlog, H.
  - unfold stop_server. destruct (truthy_str sid).
    + destruct (dict_get _ _) as [info |]; [| exact H].
      destruct (delete_pod e _); simpl; [apply Hlog, H |].
      destruct (String.eqb (info_server_type info) "archon"); apply Hlog, H.
    + assert (Hea : forall items acc,
                (length (logs acc.1.1) <= 1000)%nat ->
                (length (logs (stop_each e items acc).1.1) <= 1000)%nat).
      { induction items as [| [k info] items IH]; intros [[m0 n] errs] H0;
          simpl; [exact H0 |].
        apply IH. destruct (delete_pod e (info_pod_name info)); simpl;
          [exact H0 | apply Hlog, H0]. }
      specialize (Hea (running_servers m) (m, 0%nat, []) H).
      destruct (stop_each _ _ _) as [[m' n] errs]. simpl in Hea.
      destruct errs; exact Hea.
  - exact H.
Qed.

(** Python's [l[-limit:]] on the log: a positive [limit] gives the newest
    [limit] entries, or all of them when there are fewer; a [limit] of 0
    gives the whole log, not nothing; a negative [limit] drops the oldest
    [-limit] entries.  In every case the result is a final segment of the
    log, which after any sequence of calls has at most 1000 entries. *)
Theorem get_logs_newest (c : SidecarConfig) (os : list Op) (limit : Z) :
  let m := (run (init c) os).1 in
  let n := Z.of_nat (length (logs m)) in
  (length (logs m) <= 1000)%nat /\
  (exists older, logs m = (older ++ get_logs limit m)%list) /\
  Z.of_nat (length (get_logs limit m)) =
    (if 0 <? limit then Z.min limit n
     else if limit =? 0 then n
     else Z.max (n + limit) 0).
Proof.
  intros m n. split; [| split].
  - apply (run_invariant (fun m => (length (logs m) <= 1000)%nat)).
    + simpl. lia.
    + intros m0 o. apply logs_bounded_step.
  - unfold get_logs, slice_from. eexists. symmetry. apply take_drop.
  - unfold get_logs, slice_from. rewrite length_drop. fold n.
    destruct (Z.ltb_spec 0 limit), (Z.ltb_spec (- limit) 0),
      (Z.eqb_spec limit 0); lia.
Qed.

End SupervisorStatus.

(** ** The health check *)

Section SupervisorHealth.
Import Py Sidecar.







End SupervisorHealth.

(** ** Validation of a server configuration *)

Section ConfigValidation.
Import Py Sidecar.

Definition with_port (p : option Z) (c : ServerConfig) : ServerConfig :=
  {| server_type := server_type c; name := name c; package := package c;
     command := command c; args := args c; env := env c;
     transport := transport c; image := image c; port := p;
     timeout := timeout c |}.

Lemma validate_port_set (c : ServerConfig) :
  if str_in (transport c) ["sse"; "http"]
  then exists p, validate_port_for_transport c = Some p /\ p <> 0 /\
                 (port c = Some p \/
                  p = if String.eqb (server_type c) "archon" then 8051
                      else 8080)
  else validate_port_for_transport c = port c.
Proof.
  unfold validate_port_for_transport.
  destruct (str_in (transport c) ["sse"; "http"]); simpl; [| reflexivity].
  destruct (port c) as [p |]; [destruct (Z.eqb_spec p 0) |].
  - destruct (String.eqb (server_type c) "archon"); eexists;
      (split; [reflexivity |]); (split; [lia | right; reflexivity]).
  - exists p. auto.
  - destruct (String.eqb (server_type c) "archon"); eexists;
      (split; [reflexivity |]); (split; [lia | right; reflexivity]).
Qed.

Lemma validate_port_stable (c : ServerConfig) :
  validate_port_for_transport (with_port (validate_port_for_transport c) c)
  = validate_port_for_transport c.
Proof.
  pose proof (validate_port_set c) as H.
  unfold validate_port_for_transport at 1.
  cbn [with_port transport port server_type].
  destruct (str_in (transport c) ["sse"; "http"]); [| reflexivity].
  destruct H as (p & -> & Hp & _).
  apply Z.eqb_neq in Hp. rewrite Hp. reflexivity.
Qed.

Lemma validate_facts (c c' : ServerConfig) :
  validate c = Some c' ->
  str_in (server_type c') valid_types = true /\
  str_in (transport c') valid_transports = true /\
  (if str_in (server_type c') ["npx"; "uv"] then truthy_str (package c') = true
   else True) /\
  (if String.eqb (server_type c') "docker" then truthy_str (command c') = true
   else True) /\
  (if str_in (transport c') ["sse"; "http"]
   then exists p, port c' = Some p /\ p <> 0 /\
                  (port c = Some p \/
                   p = if String.eqb (server_type c') "archon" then 8051
                       else 8080)
   else port c' = port c) /\
  (server_type c', name c', package c', command c', args c', env c',
   transport c', image c', timeout c') =
  (server_type c, name c, package c, command c, args c, env c,
   transport c, image c, timeout c) /\
  validate c' = Some c'.
Proof.
  unfold validate. intros H.
  destruct (str_in (server_type c) valid_types) eqn:E1; cbn [negb] in H;
    [| discriminate].
  destruct (str_in (server_type c) ["npx"; "uv"] &&
            negb (truthy_str (package c))) eqn:E2; [discriminate |].
  destruct (String.eqb (server_type c) "docker" &&
            negb (truthy_str (command c))) eqn:E3; [discriminate |].
  destruct (str_in (transport c) valid_transports) eqn:E4; cbn [negb] in H;
    [| discriminate].
  injection H as <-.
  cbn [server_type name package command args env transport image port timeout].
  split; [exact E1 |]. split; [exact E4 |].
  split.
  { destruct (str_in (server_type c) ["npx"; "uv"]); [| exact I].
    simpl in E2. apply negb_false_iff in E2. exact E2. }
  split.
  { destruct (String.eqb (server_type c) "docker"); [| exact I].
    simpl in E3. apply negb_false_iff in E3. exact E3. }
  split; [apply validate_port_set |].
  split; [reflexivity |].
  change (validate (with_port (validate_port_for_transport c) c) =
          Some (with_port (validate_port_for_transport c) c)).
  unfold validate.
  cbn [with_port server_type name package command args env transport image
       port timeout].
  rewrite E1, E2, E3, E4. cbn [negb].
  rewrite validate_port_stable. reflexivity.
Qed.

(** What validation establishes, and that it is stable.  A configuration
    that passes has a known server type and transport; a package when the
    type is npx or uv; a command when the type is docker; and, on the sse
    and http transports, a port that is set and not 0: the given one, or
    else 8051 for archon and 8080 for the other types.  Nothing else is
    changed, and validating the result again returns it unchanged. *)
Theorem validate_establishes (c c' : ServerConfig) :
  validate c = Some c' ->
  str_in (server_type c') valid_types = true /\
  str_in (transport c') valid_transports = true /\
  (if str_in (server_type c') ["npx"; "uv"] then truthy_str (package c') = true
   else True) /\
  (if String.eqb (server_type c') "docker" then truthy_str (command c') = true
   else True) /\
  (if str_in (transport c') ["sse"; "http"]
   then exists p, port c' = Some p /\ p <> 0 /\
                  (port c = Some p \/
                   p = if String.eqb (server_type c') "archon" then 8051
                       else 8080)
   else port c' = port c) /\
  (server_type c', name c', package c', command c', args c', env c',
   transport c', image c', timeout c') =
  (server_type c, name c, package c, command c, args c, env c,
   transport c, image c, timeout c) /\
  validate c' = Some c'.
Proof. apply validate_facts. Qed.

Lemma validate_establishes_witness :
  validate default_server_config =
  Some {| server_type := "archon"; name := None; package := None;
          command := None; args := []; env := []; transport := "sse";
          image := None; port := Some 8051; timeout := 300 |} /\
  validate {| server_type := "archon"; name := None; package := None;
              command := None; args := []; env := []; transport := "sse";
              image := None; port := Some 8051; timeout := 300 |} =
  Some {| server_type := "archon"; name := None; package := None;
          command := None; args := []; env := []; transport := "sse";
          image := None; port := Some 8051; timeout := 300 |}.
Proof.
  split; [reflexivity |].
  apply (validate_establishes default_server_config). reflexivity.
Defined.

End ConfigValidation.

(** ** The Docker manager: stopping, and the log buffer *)

Section DockerKeeps.
Import Py Docker.

(** A method that leaves the attribute read by [f] as it was. *)
Definition keeps {A X} (f : Manager -> X) (c : M A) : Prop :=
  forall m, f (c m).1 = f m.

Lemma keeps_ret {A X} (f : Manager -> X) (a : A) : keeps f (ret a).
Proof. intros m. reflexivity. Qed.

Lemma keeps_raise {A X} (f : Manager -> X) x : keeps f (@raise A x).
Proof. intros m. reflexivity. Qed.

Lemma keeps_get {X} (f : Manager -> X) : keeps f get.
Proof. intros m. reflexivity. Qed.

Lemma keeps_modify {X} (f : Manager -> X) g :
  (forall m, f (g m) = f m) -> keeps f (modify g).
Proof. intros H m. simpl. apply H. Qed.

Lemma keeps_bind {A B X} (f : Manager -> X) (c : M A) (k : A -> M B) :
  keeps f c -> (forall a, keeps f (k a)) -> keeps f (bind c k).
Proof.
  intros Hc Hk m. unfold bind. specialize (Hc m).
  destruct (c m) as [m1 [a | x]]; simpl in *; [| exact Hc].
  rewrite (Hk a m1). exact Hc.
Qed.

Lemma keeps_try {A X} (f : Manager -> X) (c : M A) clauses :
  keeps f c ->
  Forall (fun cl => forall x, keeps f (snd cl x)) clauses ->
  keeps f (try_except c clauses).
Proof.
  intros Hc Hcl m. unfold try_except. specialize (Hc m).
  destruct (c m) as [m1 [a | x]]; simpl in *; [exact Hc |].
  destruct (find_clause clauses x) as [h |] eqn:Hf; [| exact Hc].
  assert (Hh : keeps f (h x)).
  { clear Hc. induction Hcl as [| [p h'] cls H _ IH]; simpl in Hf;
      [discriminate |].
    destruct (p x); [inversion Hf; subst; apply H | apply IH, Hf]. }
  rewrite (Hh m1). exact Hc.
Qed.

Lemma keeps_with_safe_span {X} (f : Manager -> X) e body :
  keeps f body -> keeps f (with_safe_span e body).
Proof.
  intros Hb m. unfold with_safe_span. specialize (Hb m).
  destruct (body m) as [m1 [a | x]]; simpl in *; [exact Hb |].
  destruct (span_suppresses e); exact Hb.
Qed.

Lemma keeps_add_log {X} (f : Manager -> X) now level msg :
  keeps f (_add_log now level msg).
Proof. intros m. rewrite add_log_raises. reflexivity. Qed.

Ltac keeps_step :=
  match goal with
  | |- keeps _ (ret _) => apply keeps_ret
  | |- keeps _ (raise _) => apply keeps_raise
  | |- keeps _ get => apply keeps_get
  | |- keeps _ (_add_log _ _ _) => apply keeps_add_log
  | |- keeps _ (with_safe_span _ _) => apply keeps_with_safe_span
  | |- keeps _ (modify _) => apply keeps_modify; intros ?; reflexivity
  | |- keeps _ (bind _ _) => apply keeps_bind; [| intros ?]
  | |- keeps _ (try_except _ _) =>
      apply keeps_try;
      [| repeat (apply List.Forall_cons; [cbn [snd]; intros ? |]);
         try apply List.Forall_nil]
  | |- keeps _ (if ?b then _ else _) => destruct b
  | |- keeps _ (match ?x with _ => _ end) => destruct x
  end.

Lemma keeps_logs_step o : keeps logs (step o).
Proof.
  destruct o as [e | e]; simpl;
    unfold start_server, stop_server, docker_available, _get_container_status,
      _initialize_docker_client, _resolve_container, start_container,
      stop_container, container_action, container_reload;
    repeat keeps_step.
Qed.

Lemma keeps_stop_server {X} (f : Manager -> X) e :
  (forall s m, f (set_status s m) = f m) ->
  (forall c m, f (set_container c m) = f m) ->
  (forall n m, f (set_container_name n m) = f m) ->
  (forall a b m, f (set_client a b m) = f m) ->
  keeps f (stop_server e).
Proof.
  intros H1 H2 H3 H4.
  assert (Hstop : keeps f (stop_container e)).
  { intros m. rewrite stop_container_raises. apply H1. }
  unfold stop_server, docker_available, _get_container_status,
    _initialize_docker_client, _resolve_container.
  repeat first
    [ exact Hstop
    | match goal with
      | |- keeps _ (modify (set_container _)) =>
          apply keeps_modify; intros ?; apply H2
      | |- keeps _ (modify (set_container_name _)) =>
          apply keeps_modify; intros ?; apply H3
      | |- keeps _ (modify (set_client _ _)) =>
          apply keeps_modify; intros ?; apply H4
      | |- keeps _ (modify (fun m => set_client _ _ m)) =>
          apply keeps_modify; intros ?; apply H4
      end
    | keeps_step ].
Qed.

End DockerKeeps.

Section DockerStopAndLogs.
Import Py Docker.

(** The environment [e] with another ending for [container.stop()]. *)
Definition with_action (x : option exn) (e : Env) : Env :=
  {| current_time := current_time e; deployment_mode := deployment_mode e;
     from_env_ok := from_env_ok e; get_at_init := get_at_init e;
     reload_at_status := reload_at_status e;
     get_at_status := get_at_status e; action_raises := x;
     time_started := time_started e; time_operation := time_operation e;
     time_log := time_log e; reload_after_start := reload_after_start e;
     container_id := container_id e; span_suppresses := span_suppresses e |}.

Lemma stop_server_without_action x e m :
  stop_server (with_action x e) m = stop_server e m.
Proof.
  unfold stop_server, bind, get, with_safe_span.
  cbn [with_action current_time span_suppresses].
  destruct (_ <? _); [reflexivity |].
  change (docker_available (with_action x e)) with (docker_available e).
  destruct (docker_available e "Docker is not available" m)
    as [m1 [[r |] | ex]]; reflexivity.
Qed.

Lemma stop_server_fails e m :
  match (stop_server e m).2 with
  | Ok (Some resp) => success resp = false
  | _ => True
  end.
Proof.
  unfold stop_server. unfold bind at 1. unfold get at 1.
  destruct (_ <? _); [reflexivity |].
  unfold with_safe_span, bind.
  destruct (docker_available e "Docker is not available" m)
    as [m1 [[r |] | ex]] eqn:Ed.
  - simpl. eapply docker_available_fails, Ed.
  - destruct (_get_container_status e m1) as [m2 [cs | ex]].
    + destruct (negb _); [reflexivity |].
      rewrite stop_container_raises. destruct (span_suppresses e); exact I.
    + destruct (span_suppresses e); exact I.
  - destruct (span_suppresses e); exact I.
Qed.

(** [stop_server] of the Docker manager never stops the container.  What
    it returns and what it leaves in the manager do not depend on what
    [container.stop()] would do, for the call is never reached: the
    [_add_log] before it raises, and so does the one in the handler.
    Accordingly no call returns a success, and the recorded operation time,
    the start time and the log are as they were. *)
Theorem docker_stop_never_stops (e : Env) (x : option exn) (m : Manager) :
  stop_server (with_action x e) m = stop_server e m /\
  match (stop_server e m).2 with
  | Ok (Some resp) => success resp = false
  | _ => True
  end /\
  _last_operation_time (stop_server e m).1 = _last_operation_time m /\
  start_time (stop_server e m).1 = start_time m /\
  logs (stop_server e m).1 = logs m.
Proof.
  split; [apply stop_server_without_action |].
  split; [apply stop_server_fails |].
  repeat split; apply keeps_stop_server; reflexivity.
Qed.

Lemma logs_run os : forall m, logs (run m os).1 = logs m.
Proof.
  induction os as [| o os IH]; intros m; simpl; [reflexivity |].
  pose proof (keeps_logs_step o m) as H.
  destruct (step o m) as [m1 r]. simpl in H.
  specialize (IH m1). destruct (run m1 os) as [m2 rs]. simpl in *.
  congruence.
Qed.

(** The log buffer of the Docker manager stays empty: no sequence of start
    and stop calls adds an entry, since the only writer, [_add_log], raises
    before it appends.  So [get_logs] returns the empty list for every
    limit, and [clear_logs] itself ends with the AttributeError after
    emptying the buffer. *)
Theorem docker_logs_stay_empty (os : list Op) (limit now : Z) :
  logs (run init os).1 = [] /\
  get_logs limit (run init os).1 = [] /\
  forall m, clear_logs now m = (set_logs [] m, Raise timezone_error).
Proof.
  assert (H : logs (run init os).1 = []) by apply logs_run.
  split; [exact H |]. split.
  - unfold get_logs. rewrite H. destruct (0 <? limit); [| reflexivity].
    unfold slice_from. apply drop_nil.
  - intros m. reflexivity.
Qed.

End DockerStopAndLogs.

(** ** The exec handler *)

Section ExecHandler.
Import Py Exec.

(** Frames of the exec protocol.  Encoding works exactly for the channels
    0 to 255 and then decoding gives back the channel and the data; a frame
    that is not empty is what encoding its decoding gives.  The empty frame
    decodes like the frame that holds the single byte 0, so decoding does
    not tell them apart. *)
Theorem exec_frame_round_trip (channel : Z) (data frame : list Byte.byte) :
  match _encode_exec_frame channel data with
  | Some f =>
      0 <= channel < 256 /\ _decode_exec_frame f = (channel, data) /\
      length f = S (length data)
  | None => channel < 0 \/ 256 <= channel
  end /\
  match frame with
  | [] => _decode_exec_frame frame = _decode_exec_frame [Byte.x00]
  | _ :: _ =>
      _encode_exec_frame (_decode_exec_frame frame).1
        (_decode_exec_frame frame).2 = Some frame
  end.
Proof.
  split.
  - unfold _encode_exec_frame.
    destruct (Z.ltb_spec channel 0) as [Hneg | Hpos]; [left; lia |].
    destruct (Byte.of_N (Z.to_N channel)) as [b |] eqn:E.
    + pose proof E as Hb. apply Byte.to_of_N in Hb.
      pose proof (Byte.to_N_bounded b) as Hbound.
      simpl. rewrite Hb. split; [lia |]. split; [| reflexivity].
      rewrite Z2N.id by lia. reflexivity.
    + apply Byte.of_N_None_iff in E. right. lia.
  - destruct frame as [| b data']; [reflexivity |].
    unfold _encode_exec_frame, _decode_exec_frame. simpl.
    destruct (Z.ltb_spec (Z.of_N (Byte.to_N b)) 0) as [Hneg | Hpos]; [lia |].
    rewrite N2Z.id, Byte.of_to_N. reflexivity.
Qed.

Lemma exec_simulated_step c o :
  websocket c = Simulated -> stdout_buffer c = [] -> stderr_buffer c = [] ->
  websocket (step c o).1 = Simulated /\
  stdout_buffer (step c o).1 = [] /\ stderr_buffer (step c o).1 = [] /\
  match o with
  | OpReadStdout | OpReadStderr => (step c o).2 = Data None
  | _ => True
  end /\
  stdin_buffer (step c o).1 =
    match o with
    | OpSend data =>
        if String.eqb (exec_status c) "connected"
        then (stdin_buffer c ++ [data])%list else stdin_buffer c
    | _ => stdin_buffer c
    end.
Proof.
  intros Hw Ho He. destruct o as [data | | | | decode messages]; simpl.
  - unfold send_stdin. destruct (String.eqb (exec_status c) "connected");
      simpl; auto.
  - unfold read_stdout. rewrite Ho.
    destruct (String.eqb (exec_status c) "connected"); simpl; auto.
  - unfold read_stderr. rewrite He.
    destruct (String.eqb (exec_status c) "connected"); simpl; auto.
  - auto.
  - unfold _handle_websocket_messages. rewrite Hw. auto.
Qed.

(** The reads made during a sequence of calls. *)
Fixpoint reads (os : list Op) (rs : list Output) : list Output :=
  match os, rs with
  | (OpReadStdout | OpReadStderr) :: os', r :: rs' => r :: reads os' rs'
  | _ :: os', _ :: rs' => reads os' rs'
  | _, _ => []
  end.

Lemma exec_simulated_run os : forall c,
  websocket c = Simulated -> stdout_buffer c = [] -> stderr_buffer c = [] ->
  stdout_buffer (run c os).1 = [] /\ stderr_buffer (run c os).1 = [] /\
  Forall (fun r => r = Data None) (reads os (run c os).2).
Proof.
  induction os as [| o os IH]; intros c Hw Ho He; simpl.
  - auto.
  - destruct (exec_simulated_step c o Hw Ho He) as (H1 & H2 & H3 & H4 & _).
    destruct (step c o) as [c1 r] eqn:Es. simpl in *.
    destruct (IH c1 H1 H2 H3) as (I1 & I2 & I3).
    destruct (run c1 os) as [c2 rs]. simpl in *.
    split; [exact I1 |]. split; [exact I2 |].
    destruct o; try exact I3; apply List.Forall_cons; auto.
Qed.

(** A connection made by [create_exec_connection] never yields output.
    Its websocket is the simulated one, for which the task that would route
    frames to the buffers returns at once; so whatever is sent, read or
    closed afterwards, the stdout and stderr buffers stay empty and every
    read returns None. *)
Theorem exec_connection_silent (self : KubernetesExecHandler)
    (pod_name : string) (container_name : option string)
    (command : option (list string)) (os : list Op) :
  let c := create_exec_connection self pod_name container_name command in
  stdout_buffer (run c os).1 = [] /\ stderr_buffer (run c os).1 = [] /\
  Forall (fun r => r = Data None) (reads os (run c os).2).
Proof. apply exec_simulated_run; reflexivity. Qed.

End ExecHandler.

Section BridgeSilent.
Import Py Bridge.

(** As long as the stdout reader has put no line, no [send_request] on the
    bridge gets a response: every call that has returned has returned
    None. *)
Theorem bridge_without_stdout (ns : string) (t : Z) (es : list Event)
    (i : nat) (c : Call) (r : option (list (string * pyval))) :
  puts es = [] ->
  (run (init ns t, []) es).2 !! i = Some c ->
  returned c = Some r ->
  r = None.
Proof.
  intros Hp Hi Hr. destruct r as [d |]; [| reflexivity].
  destruct (bridge_consistent_run ns t es) as [_ Hcall].
  destruct (Hcall i c d Hi Hr) as [_ Hin].
  rewrite Hp in Hin. apply elem_of_nil in Hin. contradiction.
Qed.

Lemma bridge_without_stdout_witness :
  let es := [EvConnect "pod" 7000;
             EvBegin "pod-7" "u1" "tools/list" PNone (Some 1000) true 7000;
             EvIter 0 7500; EvIter 0 8000] in
  (returned <$> (run (init "archon" 30000, []) es).2 !! 0%nat)
  = Some (Some None).
Proof.
  intros es.
  destruct ((run (init "archon" 30000, []) es).2 !! 0%nat) as [c |] eqn:Hc;
    [| vm_compute in Hc; discriminate].
  destruct (returned c) as [r |] eqn:Hr.
  - rewrite (bridge_without_stdout "archon" 30000 es 0%nat c r eq_refl Hc Hr)
      in Hr.
    simpl. rewrite Hr. reflexivity.
  - exfalso. vm_compute in Hc. injection Hc as <-. discriminate.
Defined.

End BridgeSilent.

(** ** The pod manifest *)

Section ManifestProperties.
Import Py Sidecar Manifest.

(** The builder appends "stdio" to the configuration's own argument
    list. *)
Definition grows (c : ServerConfig) : bool :=
  String.eqb (server_type c) "python" &&
  String.eqb (transport c) "stdio" &&
  negb (is_nil (args c)).

Lemma set_args_same (c : ServerConfig) : set_args (args c) c = c.
Proof. destruct c. reflexivity. Qed.

Lemma image_config_spec (self : PodManager) (os : OsEnv) (c : ServerConfig) :
  let ic := get_server_image_and_config self os c in
  ic_config ic =
    (if grows c then set_args (args c ++ ["stdio"])%list c else c) /\
  (exists builtin,
     ic_env_vars ic =
     (builtin ++ map (fun kv => {| env_name := fst kv; env_value := snd kv |})
                     (env c))%list) /\
  ((if String.eqb (server_type c) "docker" then truthy_str (command c)
    else true) = true -> ic_command ic <> []).
Proof.
  unfold get_server_image_and_config, grows.
  destruct (String.eqb (server_type c) "npx") eqn:E1.
  { apply String.eqb_eq in E1. rewrite E1. simpl.
    split; [reflexivity |]. split; [eexists [_; _]; reflexivity | discriminate]. }
  destruct (String.eqb (server_type c) "uv") eqn:E2.
  { apply String.eqb_eq in E2. rewrite E2. simpl.
    split; [reflexivity |]. split; [eexists [_; _]; reflexivity | discriminate]. }
  destruct (String.eqb (server_type c) "python") eqn:E3.
  { apply String.eqb_eq in E3. rewrite E3. simpl.
    destruct (args c) as [| a l] eqn:Ea; simpl.
    - rewrite andb_false_r. split; [reflexivity |].
      split; [eexists [_]; reflexivity | discriminate].
    - rewrite andb_true_r.
      destruct (String.eqb (transport c) "stdio"); simpl.
      + split; [reflexivity |].
        split; [eexists [_]; reflexivity | discriminate].
      + split; [rewrite <- Ea; apply set_args_same |].
        split; [eexists [_]; reflexivity | discriminate]. }
  destruct (String.eqb (server_type c) "docker") eqn:E4.
  { simpl. split; [reflexivity |]. split; [exists []; reflexivity |].
    intros ->. discriminate. }
  simpl. split; [reflexivity |].
  split; [eexists [_; _; _; _; _; _]; reflexivity | discriminate].
Qed.

(** What the supervisor records under "config" is the configuration as
    the manifest builder left it. *)
Lemma after_manifest_spec self os pod_name c r s :
  fst (create_pod_manifest self os pod_name c r s) = after_manifest c.
Proof.
  unfold create_pod_manifest. cbn [fst].
  destruct (image_config_spec self os c) as [H _]. cbv zeta in H. rewrite H.
  unfold grows, after_manifest, set_args.
  destruct (String.eqb (server_type c) "python"),
    (String.eqb (transport c) "stdio"); simpl; try reflexivity.
  destruct (args c); reflexivity.
Qed.

(** Building a manifest can change the configuration it is built from.
    For a python server on the stdio transport that has arguments of its
    own, the builder appends "stdio" to the configuration's list itself: the
    configuration leaves the call with one more argument, the annotation of
    the manifest shows it, and the next build from the same configuration
    appends again.  In every other case the configuration is left as it
    was. *)
Theorem manifest_appends_to_own_args (self : PodManager) (os : OsEnv)
    (pod_name : string) (c : ServerConfig)
    (resources : option PodResourceConfig) (security : option SecurityConfig) :
  let r := create_pod_manifest self os pod_name c resources security in
  r.1 = (if grows c then set_args (args c ++ ["stdio"])%list c else c) /\
  annotation_server_config r.2 = r.1 /\
  grows r.1 = grows c /\
  (if grows c
   then (c_args <$> containers r.2) = [Some (args c ++ ["stdio"])%list]
   else True).
Proof.
  intros r.
  destruct (image_config_spec self os c) as (Hc & _ & _).
  assert (H1 : r.1 = if grows c then set_args (args c ++ ["stdio"])%list c
                     else c) by exact Hc.
  split; [exact H1 |]. split; [reflexivity |]. split.
  - rewrite H1. destruct (grows c) eqn:G; [| exact G].
    unfold grows in *. simpl.
    apply andb_true_iff in G. destruct G as [G _]. rewrite G.
    destruct (args c); reflexivity.
  - destruct (grows c) eqn:G; [| exact I].
    unfold grows in G.
    apply andb_true_iff in G. destruct G as [G G3].
    apply andb_true_iff in G. destruct G as [G1 G2].
    subst r. unfold create_pod_manifest, get_server_image_and_config.
    apply String.eqb_eq in G1. rewrite G1. simpl. rewrite G2.
    destruct (args c) as [| a l]; [discriminate |]. simpl.
    destruct (l ++ ["stdio"])%list eqn:El; reflexivity.
Qed.

(** The manifest built from a configuration that passed validation.  It
    has one container, named after the server; the built-in environment
    variables come first and the configuration's own follow in order; there
    is always a command; the container port is declared exactly on the sse
    and http transports and is then the validated port; the two health
    probes are set exactly for an archon server on these transports, on
    that same port; and stdin is kept open exactly on the stdio
    transport. *)
Theorem manifest_of_validated_config (self : PodManager) (os : OsEnv)
    (pod_name : string) (c0 c : ServerConfig)
    (resources : option PodResourceConfig) (security : option SecurityConfig) :
  validate c0 = Some c ->
  let r := create_pod_manifest self os pod_name c resources security in
  let http := str_in (transport c) ["sse"; "http"] in
  exists k builtin,
    containers r.2 = [k] /\
    c_name k = "mcp-" +:+ str_or (name c) (server_type c) /\
    c_env k =
      (builtin ++ map (fun kv => {| env_name := fst kv; env_value := snd kv |})
                      (env c))%list /\
    is_Some (c_command k) /\
    c_ports k = (if http then port c else None) /\
    (if http then exists p, port c = Some p /\ p <> 0 else True) /\
    probe_port <$> c_livenessProbe k =
      (if http && String.eqb (server_type c) "archon" then port c else None) /\
    probe_port <$> c_readinessProbe k =
      (if http && String.eqb (server_type c) "archon" then port c else None) /\
    c_stdin k = (if String.eqb (transport c) "stdio" then Some true else None).
Proof.
  intros Hv r http.
  destruct (validate_facts c0 c Hv) as (_ & _ & _ & Hdock & Hport & _ & _).
  destruct (image_config_spec self os c) as (Hc & (builtin & Henv) & Hcmd).
  assert (Hfields : server_type (ic_config (get_server_image_and_config self os c))
                    = server_type c /\
                    name (ic_config (get_server_image_and_config self os c))
                    = name c /\
                    transport (ic_config (get_server_image_and_config self os c))
                    = transport c /\
                    port (ic_config (get_server_image_and_config self os c))
                    = port c).
  { rewrite Hc. destruct (grows c); auto. }
  destruct Hfields as (F1 & F2 & F3 & F4).
  subst r. unfold create_pod_manifest. cbn zeta. cbn [fst snd containers].
  eexists _, builtin. split; [reflexivity |].
  cbn [c_name c_env c_command c_ports c_livenessProbe c_readinessProbe c_stdin].
  rewrite F1, F2, F3, F4. fold http.
  split; [reflexivity |]. split; [exact Henv |].
  split.
  { assert (Hne : ic_command (get_server_image_and_config self os c) <> []).
    { apply Hcmd. destruct (String.eqb (server_type c) "docker");
        [exact Hdock | reflexivity]. }
    destruct (ic_command _); [contradiction | eexists; reflexivity]. }
  assert (Hhttp : http && negb (Z.eqb (int_or (port c) 0) 0) = http).
  { unfold http in *. destruct (str_in (transport c) ["sse"; "http"]);
      [| reflexivity].
    destruct Hport as (p & Hp & Hne & _). rewrite Hp. simpl.
    apply Z.eqb_neq in Hne. rewrite Hne. simpl. rewrite Hne. reflexivity. }
  rewrite Hhttp.
  split; [reflexivity |].
  split.
  { unfold http. destruct (str_in (transport c) ["sse"; "http"]); [| exact I].
    destruct Hport as (p & Hp & Hne & _). eauto. }
  assert (Hprobe : (if http && String.eqb (server_type c) "archon"
                    then Some (int_or (port c) 0) else None) =
                   (if http && String.eqb (server_type c) "archon"
                    then port c else None)).
  { unfold http in *. destruct (str_in (transport c) ["sse"; "http"]);
      [| reflexivity].
    destruct Hport as (p & Hp & Hne & _). rewrite Hp. simpl.
    apply Z.eqb_neq in Hne. rewrite Hne. reflexivity. }
  split; [| split; [| reflexivity]];
    destruct (http && String.eqb (server_type c) "archon"); simpl in *;
    auto.
Qed.

Lemma manifest_of_validated_config_witness :
  let c := {| server_type := "archon"; name := None; package := None;
              command := None; args := []; env := [("A", "1")];
              transport := "sse"; image := None; port := Some 8051;
              timeout := 300 |} in
  let r := create_pod_manifest
             {| pm_namespace := "archon"; pm_pod_name_prefix := "mcp" |}
             {| ARCHON_MCP_IMAGE := None; LOG_LEVEL := None;
                time_now := 100000 |}
             "" c None None in
  exists k, containers r.2 = [k] /\ c_ports k = Some 8051.
Proof.
  intros c r.
  destruct (manifest_of_validated_config
              {| pm_namespace := "archon"; pm_pod_name_prefix := "mcp" |}
              {| ARCHON_MCP_IMAGE := None; LOG_LEVEL := None;
                 time_now := 100000 |}
              "" c c None None)
    as (k & builtin & H1 & _ & _ & _ & H2 & _); [reflexivity |].
  exists k. split; [exact H1 | exact H2].
Defined.

(** What a successful start keeps of the configuration.  The entry it
    tracks under the id it answers holds, as its configuration, the
    validated configuration as the manifest builder left it: for a python
    server on the stdio transport with arguments of its own, the arguments
    followed by "stdio"; in every other case the validated configuration
    itself. *)
Theorem start_records_built_config (cfg : option ServerConfig)
    (cfg' : ServerConfig) (e : StartEnv) (m : Manager) (sid : string)
    (self : PodManager) (os : OsEnv) (pod_name : string)
    (r : option PodResourceConfig) (s : option SecurityConfig) :
  validate (default default_server_config cfg) = Some cfg' ->
  success (start_server cfg e m).2 = true ->
  server_id (start_server cfg e m).2 = Some sid ->
  exists info,
    dict_get sid (running_servers (start_server cfg e m).1) = Some info /\
    info_server_id info = sid /\
    info_config info = fst (create_pod_manifest self os pod_name cfg' r s) /\
    info_config info =
      (if grows cfg' then set_args (args cfg' ++ ["stdio"])%list cfg'
       else cfg').
Proof.
  intros Hv Hs Hid.
  assert (Hcfg : after_manifest cfg' =
                 if grows cfg' then set_args (args cfg' ++ ["stdio"])%list cfg'
                 else cfg').
  { rewrite <- (after_manifest_spec self os pod_name cfg' r s).
    unfold create_pod_manifest. cbn [fst].
    destruct (image_config_spec self os cfg') as [H _]. exact H. }
  revert Hs Hid. unfold start_server. rewrite Hv.
  destruct (_ <=? _); [discriminate |].
  destruct (if truthy_str (name cfg') then _ else _) as [| s0 ss];
    [| discriminate].
  destruct (post_pod e) as [pn | code | text]; [| discriminate ..].
  intros _ Hid. cbn [snd server_id] in Hid. injection Hid as Hid.
  subst sid. eexists. split.
  - destruct (String.eqb (server_type cfg') "archon");
      cbn [fst running_servers _add_log set_status set_running_servers];
      rewrite dict_get_set, String.eqb_refl; reflexivity.
  - cbn [info_server_id info_config]. split; [reflexivity |].
    split; [| exact Hcfg].
    symmetry. apply after_manifest_spec.
Qed.

Lemma start_records_built_config_witness :
  let cfg := {| server_type := "python"; name := Some "tool";
                package := None; command := None; args := ["server.py"];
                env := []; transport := "stdio"; image := None;
                port := None; timeout := 300 |} in
  let r := start_server (Some cfg) (accepted 100000 "mcp-tool-100")
             (init default_sidecar_config) in
  exists info,
    dict_get "python-tool-100" (running_servers r.1) = Some info /\
    args (info_config info) = ["server.py"; "stdio"].
Proof.
  intros cfg r.
  destruct (start_records_built_config (Some cfg) cfg
              (accepted 100000 "mcp-tool-100") (init default_sidecar_config)
              "python-tool-100"
              {| pm_namespace := "archon"; pm_pod_name_prefix := "mcp" |}
              {| ARCHON_MCP_IMAGE := None; LOG_LEVEL := None;
                 time_now := 100000 |}
              "mcp-tool-100" None None)
    as (info & H1 & _ & _ & H2).
  - vm_compute. reflexivity.
  - vm_compute. reflexivity.
  - vm_compute. reflexivity.
  - exists info. split; [exact H1 |]. rewrite H2. reflexivity.
Defined.

End ManifestProperties.

(** ** The HTTP routes of the sidecar *)

Section RouteProperties.
Import Py Sidecar Routes.

Lemma route_types request c c' :
  request_config request = Some c -> validate c = Some c' ->
  str_in (req_server_type request) ["archon"; "python"] = true.
Proof.
  unfold request_config.
  cbn [server_type transport name package command args env image port timeout].
  destruct (str_in (req_server_type request) valid_types) eqn:E1;
    [| discriminate].
  destruct (str_in (req_transport request) valid_transports) eqn:E2;
    [| discriminate].
  cbn [negb]. intros [= <-]. unfold validate.
  cbn [server_type transport name package command args env image port timeout
       truthy_str negb].
  rewrite E1, !andb_true_r. cbn [negb].
  destruct (str_in (req_server_type request) ["npx"; "uv"]) eqn:E3;
    [discriminate |].
  destruct (String.eqb (req_server_type request) "docker") eqn:E4;
    [discriminate |].
  intros _. unfold str_in, valid_types in *. simpl in *.
  destruct (String.eqb (req_server_type request) "archon"); [reflexivity |].
  destruct (String.eqb (req_server_type request) "npx"); [discriminate |].
  destruct (String.eqb (req_server_type request) "uv"); [discriminate |].
  destruct (String.eqb (req_server_type request) "python"); [reflexivity |].
  rewrite E4 in E1. discriminate.
Qed.

Lemma start_server_failure_keeps cfg e m :
  success (Sidecar.start_server cfg e m).2 = false ->
  running_servers (Sidecar.start_server cfg e m).1 = running_servers m.
Proof.
  unfold Sidecar.start_server.
  destruct (validate _) as [c |]; [| reflexivity].
  destruct (_ <=? _); [reflexivity |].
  destruct (if truthy_str (name c) then _ else _) as [| s ss]; [| reflexivity].
  destruct (post_pod e); [discriminate | reflexivity | reflexivity].
Qed.

Lemma start_server_success_tracks cfg e m :
  success (Sidecar.start_server cfg e m).2 = true ->
  exists c sid,
    validate (default default_server_config cfg) = Some c /\
    server_id (Sidecar.start_server cfg e m).2 = Some sid /\
    dict_mem sid (running_servers (Sidecar.start_server cfg e m).1) = true.
Proof.
  unfold Sidecar.start_server.
  destruct (validate _) as [c |]; [| discriminate].
  destruct (_ <=? _); [discriminate |].
  destruct (if truthy_str (name c) then _ else _) as [| s ss]; [| discriminate].
  destruct (post_pod e) as [pod | |]; [| discriminate | discriminate].
  intros _. exists c. eexists. split; [reflexivity |].
  split; [reflexivity |].
  assert (Hrs : forall m0 : Manager,
            running_servers
              (_add_log (clock_log e) "INFO"
                 ("Created " +:+ server_type c +:+ " MCP pod: " +:+ pod)
                 (if String.eqb (server_type c) "archon"
                  then set_status "starting" (Some (clock_archon e)) m0
                  else m0)) = running_servers m0)
    by (intros m0; destruct (String.eqb _ _); reflexivity).
  cbn [fst snd]. rewrite Hrs. cbn [running_servers set_running_servers].
  unfold dict_mem. rewrite dict_get_set, String.eqb_refl. reflexivity.
Qed.

(** What [POST /servers/start] can answer.  Every failure leaves the route
    as status 500, also the ones raised inside it as 400 or 503, because
    the route's own [except Exception] clause catches them; and a failure
    leaves the set of tracked servers as it was.  A success means the
    manager tracks the server under the id answered, and it is only
    possible for the types archon and python: the request has no field for
    the package or the command, so a start of an npx, uv or docker server
    fails validation inside the manager. *)
Theorem start_route_outcomes (re : RouteEnv) (request : StartServerRequest)
    (e : StartEnv) (sidecar_manager : option Manager) :
  let r := Routes.start_server re request e sidecar_manager in
  match r.2 with
  | HTTPException status_code _ =>
      status_code = 500 /\
      running_servers <$> r.1 = running_servers <$> sidecar_manager
  | Answer body =>
      str_in (req_server_type request) ["archon"; "python"] = true /\
      exists m' sid,
        r.1 = Some m' /\ body_server_id body = Some sid /\
        dict_mem sid (running_servers m') = true
  end.
Proof.
  unfold Routes.start_server.
  destruct sidecar_manager as [m |]; [| simpl; auto].
  destruct (request_config request) as [c |] eqn:Ec; [| simpl; auto].
  pose proof (start_server_failure_keeps (Some c) e m) as Hfail.
  pose proof (start_server_success_tracks (Some c) e m) as Hok.
  destruct (Sidecar.start_server (Some c) e m) as [m' result].
  cbn [fst snd] in *.
  destruct (success result); cbn [fst snd].
  - destruct (Hok eq_refl) as (c' & sid & Hv & Hid & Hmem).
    split; [eapply route_types; eassumption |].
    exists m', sid. auto.
  - split; [reflexivity |]. simpl. rewrite Hfail; reflexivity.
Qed.

Lemma wait_from_false (available : nat -> pyval) :
  (forall i, available i = PBool false) ->
  forall remaining attempt,
    Client.wait_from available attempt remaining = false.
Proof.
  intros H. induction remaining as [| n IH]; intros attempt; simpl;
    [reflexivity |].
  rewrite H. simpl. apply IH.
Qed.

Lemma health_never_success url x re k8s pods sm status_error :
  Client.is_available
    (Client.health_check url x (Routes.health_check re k8s pods sm).2
       status_error) = PBool false.
Proof.
  destruct x as [| text |]; try reflexivity.
  unfold Routes.health_check. destruct sm as [m |]; [| reflexivity].
  destruct (Sidecar.health_check k8s pods m) as [m' result].
  destruct (health_success result); reflexivity.
Qed.

(** The client never finds this service available.  [is_available] reads
    the key "success" of what the health check returned; the body that
    [GET /health] answers when healthy has the keys "status" and "message"
    only, and every other outcome makes the client build a dict whose
    "success" is False.  So [is_available] is False whatever the state of
    the sidecar, and [wait_for_availability] uses up all its attempts and
    returns False. *)
Theorem sidecar_never_available (url : string) (re : RouteEnv)
    (status_error : Z -> string) (max_attempts : nat)
    (x : nat -> Client.Exchange) (k8s_healthy : nat -> bool)
    (pods : nat -> list Pods.Pod) (sidecar_manager : nat -> option Manager) :
  let available i :=
    Client.is_available
      (Client.health_check url (x i)
         (Routes.health_check re (k8s_healthy i) (pods i)
            (sidecar_manager i)).2
         status_error) in
  (forall i, available i = PBool false) /\
  Client.wait_for_availability max_attempts available = false.
Proof.
  intros available.
  assert (H : forall i, available i = PBool false)
    by (intros i; apply health_never_success).
  split; [exact H |]. apply wait_from_false, H.
Qed.

End RouteProperties.

(** ** The choice of the backend *)

Section DispatcherProperties.
Import Dispatcher.

Lemma ensure_initialized_done a mode self :
  _initialized self = true -> _ensure_initialized a mode self = self.
Proof. intros H. unfold _ensure_initialized. rewrite H. reflexivity. Qed.

Lemma run_initialized calls : forall self,
  _initialized self = true -> run self calls = self.
Proof.
  induction calls as [| [a mode] calls IH]; intros self H; [reflexivity |].
  simpl. rewrite ensure_initialized_done by exact H. apply IH, H.
Qed.

(** The backend is chosen once.  The first call that needs a manager binds
    the sidecar client when the sidecar is available at that moment, else
    the Kubernetes manager when DEPLOYMENT_MODE is "kubernetes", else the
    Docker manager; whatever the later calls find (a sidecar that has come
    up, another deployment mode), the binding stays.  A manager is always
    bound, so the answer "unavailable" is never given. *)
Theorem manager_binding_is_final (sidecar_available : bool)
    (deployment_mode : string) (calls : list (bool * string)) :
  let first := (dispatch sidecar_available deployment_mode init).1 in
  run init ((sidecar_available, deployment_mode) :: calls) = first /\
  manager first =
    Some (if sidecar_available then SidecarClient
          else if String.eqb deployment_mode "kubernetes"
               then KubernetesMCPManager
               else DockerManager) /\
  _manager_type first =
    (if sidecar_available then "sidecar"
     else if String.eqb deployment_mode "kubernetes" then "kubernetes"
          else "docker") /\
  get_status init = Some "initializing" /\
  get_status first = None.
Proof.
  intros first.
  assert (Hinit : _initialized first = true).
  { subst first. unfold dispatch, _ensure_initialized. simpl.
    destruct sidecar_available; [reflexivity |].
    destruct (String.eqb deployment_mode "kubernetes"); reflexivity. }
  split.
  - change (run init ((sidecar_available, deployment_mode) :: calls))
      with (run first calls).
    apply run_initialized, Hinit.
  - clear Hinit. subst first. unfold dispatch, _ensure_initialized, get_status. simpl.
    destruct sidecar_available; [auto |].
    destruct (String.eqb deployment_mode "kubernetes"); auto.
Qed.

End DispatcherProperties.
